(** * Matching and caching pipeline of worker-uz: a shallow embedding.

    The development follows the three source files of the matching core:
    - [matching.service.ts]     (module [Service]: single-pair scoring,
                                 [calculateScore], [recalcForWorker],
                                 [recalcForVacancy]);
    - [matching.repository.ts]  (module [Repository]: batch scoring and the
                                 data-access queries);
    - [matching-cache.service.ts] (module [Cache]: the Redis-backed top-50
                                 cache and its lease lock).

    Numbers.  In [Service] and [Repository] JavaScript numbers are
    modelled as exact rationals [Q]; the two divisions whose divisor can
    be zero (in the single-pair experience score) are written out with the
    IEEE result the source obtains there.  The source computes in IEEE-754
    doubles: module [Ieee] gives the single-pair calculator and the total
    score with every operation rounded to the nearest double, and the
    section on the weight invariant says how far the two can be apart.
    Integer columns (years) are [Z].  Strings are [string] (sequences of
    bytes; [Js.toLowerCase] is the source's [toLowerCase] on texts of ASCII
    characters only); a nullable column is an [option]. *)

From Stdlib Require Import QArith Qround Qabs Qpower ZArith Lia Lqa List Bool Ascii String.
From Stdlib Require Import Sorted Permutation.
From stdpp Require Import gmap strings.

Open Scope Q_scope.

(** ** JavaScript helpers *)

Module Js.

(** [Math.round]: nearest integer, ties towards plus infinity. *)
Definition Math_round (x : Q) : Q := inject_Z (Qfloor (x + (1 # 2))).

Definition Math_max (a b : Q) : Q := if Qle_bool a b then b else a.
Definition Math_min (a b : Q) : Q := if Qle_bool a b then a else b.

(** [x || d] on a nullable number: null, undefined and 0 are falsy. *)
Definition orZ (x : option Z) (d : Z) : Z :=
  match x with
  | Some n => if (n =? 0)%Z then d else n
  | None => d
  end.

(** Truthiness of a nullable number. *)
Definition truthyZ (x : option Z) : bool :=
  match x with
  | Some n => negb (n =? 0)%Z
  | None => false
  end.

Definition lower_ascii (c : ascii) : ascii :=
  let n := nat_of_ascii c in
  if (Nat.leb 65 n && Nat.leb n 90)%bool then ascii_of_nat (n + 32)%nat else c.

(** [String.prototype.toLowerCase] of a text of ASCII characters: the
    letters [A] .. [Z] are folded.  The source folds the capital letters of
    every script; on a text with other characters this function and the
    source can differ. *)
Fixpoint toLowerCase (s : string) : string :=
  match s with
  | EmptyString => EmptyString
  | String c r => String (lower_ascii c) (toLowerCase r)
  end.

(** [Array.prototype.indexOf] on strings, [-1] when absent. *)
Fixpoint indexOf_from (i : Z) (l : list string) (x : string) : Z :=
  match l with
  | nil => (-1)%Z
  | y :: r => if String.eqb y x then i else indexOf_from (i + 1)%Z r x
  end.

Definition indexOf (l : list string) (x : string) : Z := indexOf_from 0%Z l x.

(** [Array.prototype.slice(a, b)] for [0 <= a <= b]. *)
Definition slice {A} (a b : nat) (l : list A) : list A :=
  firstn (b - a)%nat (skipn a l).

End Js.

(** [round2] of the specification: the multiple of 1/100 nearest to [x]. *)
Definition round2 (x : Q) : Q := (Js.Math_round (x * 100) / 100)%Q.

(** ** Feature records (rows as the scoring code reads them) *)

Record WorkerSkill := { ws_userId : string; ws_skillCode : string }.

Record WorkerEducation := { we_userId : string; we_degreeLevel : string }.

Record WorkerExperience := {
  wx_userId : string;
  wx_startYear : option Z;
  wx_endYear : option Z
}.

Record WorkerProfile := {
  wp_userId : string;
  wp_city : option string;
  wp_state : option string;
  wp_active : bool        (* status = 'ACTIVE' and deletedAt = null *)
}.

Record VacancySkill := {
  vs_vacancyId : string;
  vs_skillCode : string;
  vs_isRequired : bool
}.

Record Vacancy := {
  v_id : string;
  v_open : bool;          (* status = 'OPEN' *)
  experienceMinYears : option Z;
  experienceMaxYears : option Z;
  educationMinLevel : option string;
  locationCity : option string;
  locationState : option string;
  isRemote : bool;
  salaryMin : option Q;   (* Decimal | null *)
  salaryMax : option Q;
  salaryIsNegotiable : bool
}.

Record ScoreComponents := {
  skillScore : Q;
  experienceScore : Q;
  educationScore : Q;
  locationScore : Q;
  salaryScore : Q;
  totalScore : Q;
  skillMatchCount : nat;
  skillRequiredCount : nat;
  isRecommended : bool
}.

Definition educationLevels : list string :=
  ("HIGH_SCHOOL" :: "DIPLOMA" :: "BACHELOR" :: "MASTER" :: "DOCTORATE" :: nil)%string.

(** Worker skills whose code occurs among the given vacancy skills:
    [workerSkills.filter(ws => skills.some(vs => vs.skillCode === ws.skillCode))]. *)
Definition matchedAgainst (workerSkills : list WorkerSkill)
    (skills : list VacancySkill) : list WorkerSkill :=
  List.filter (fun ws => existsb (fun vs => String.eqb (vs_skillCode vs) (ws_skillCode ws)) skills)
         workerSkills.

Definition requiredOf (vacancySkills : list VacancySkill) : list VacancySkill :=
  List.filter vs_isRequired vacancySkills.

(** [workerExperience.reduce(...)]: total years, [thisYear] being
    [new Date().getFullYear()]. *)
Definition totalYears (thisYear : Z) (workerExperience : list WorkerExperience) : Z :=
  fold_left (fun sum exp =>
               (sum + (Js.orZ (wx_endYear exp) thisYear - Js.orZ (wx_startYear exp) 0))%Z)
            workerExperience 0%Z.

Definition nlen {A} (l : list A) : Q := inject_Z (Z.of_nat (length l)).

(** ** matching.repository.ts: the batch score calculator *)

Module Repository.

Definition CONCURRENCY_LIMIT : nat := 20.

Definition calculateSkillScore (workerSkills : list WorkerSkill)
    (vacancySkills : list VacancySkill) : Q :=
  if Nat.eqb (length vacancySkills) 0 then 50
  else
    let matchedSkills := matchedAgainst workerSkills vacancySkills in
    let matchRatio := nlen matchedSkills / nlen vacancySkills in
    Js.Math_round (matchRatio * 100 * 100) / 100.

Definition calculateExperienceScore (thisYear : Z)
    (workerExperience : list WorkerExperience) (vacancy : Vacancy) : Q :=
  let emin := experienceMinYears vacancy in
  let emax := experienceMaxYears vacancy in
  if (negb (Js.truthyZ emin) && negb (Js.truthyZ emax))%bool then 50
  else
    let total := totalYears thisYear workerExperience in
    if (Js.truthyZ emin && (total <? Js.orZ emin 0)%Z)%bool then
      Js.Math_max 0 (100 - inject_Z (Js.orZ emin 0 - total)%Z * 10)
    else if (Js.truthyZ emax && (Js.orZ emax 0 <? total)%Z)%bool then
      Js.Math_max 0 (100 - inject_Z (total - Js.orZ emax 0)%Z * 5)
    else 100.

Definition calculateEducationScore (workerEducation : list WorkerEducation)
    (vacancy : Vacancy) : Q :=
  match educationMinLevel vacancy with
  | None => 50
  | Some lvl =>
    if String.eqb lvl EmptyString then 50
    else
      let vacancyLevelIndex := Js.indexOf educationLevels lvl in
      if (vacancyLevelIndex =? -1)%Z then 50
      else if existsb (fun edu =>
                 (vacancyLevelIndex <=? Js.indexOf educationLevels (we_degreeLevel edu))%Z)
               workerEducation
      then 100
      else Js.Math_max 0 (100 - inject_Z (vacancyLevelIndex * 25)%Z)
  end.

Definition calculateLocationScore (workerProfile : option WorkerProfile)
    (vacancy : Vacancy) : Q :=
  match locationCity vacancy, workerProfile with
  | Some vcity, Some wp =>
    match wp_city wp with
    | Some wcity =>
      if (String.eqb vcity EmptyString || String.eqb wcity EmptyString)%bool then 50
      else if String.eqb (Js.toLowerCase wcity) (Js.toLowerCase vcity) then 100
      else if match wp_state wp, locationState vacancy with
              | Some wst, Some vst =>
                (negb (String.eqb wst EmptyString) && negb (String.eqb vst EmptyString)
                 && String.eqb (Js.toLowerCase wst) (Js.toLowerCase vst))%bool
              | _, _ => false
              end
      then 70
      else if isRemote vacancy then 90
      else 30
    | None => 50
    end
  | _, _ => 50
  end.

Definition calculateSalaryScore (workerProfile : option WorkerProfile)
    (vacancy : Vacancy) : Q :=
  match salaryMin vacancy, salaryMax vacancy with
  | None, None => 50
  | smin, smax =>
    let expectedMin :=
      match smin with
      | Some d => if Qeq_bool d 0 then 0 else d
      | None => 0
      end in
    let expectedMax :=
      match smax with
      | Some d => if Qeq_bool d 0 then expectedMin * 2 else d
      | None => expectedMin * 2
      end in
    if (Qeq_bool expectedMin 0 && Qeq_bool expectedMax 0)%bool then 50 else 80
  end.

(** [matchedRequiredSkills] of [calculateScoreComponents]. *)
Definition matchedRequiredSkills (workerSkills : list WorkerSkill)
    (vacancySkills : list VacancySkill) : list WorkerSkill :=
  matchedAgainst workerSkills (requiredOf vacancySkills).

Definition calculateScoreComponents (thisYear : Z)
    (workerSkills : list WorkerSkill) (workerEducation : list WorkerEducation)
    (workerExperience : list WorkerExperience) (vacancySkills : list VacancySkill)
    (vacancy : Vacancy) (workerProfile : option WorkerProfile) : ScoreComponents :=
  let skillScore := calculateSkillScore workerSkills vacancySkills in
  let experienceScore := calculateExperienceScore thisYear workerExperience vacancy in
  let educationScore := calculateEducationScore workerEducation vacancy in
  let locationScore := calculateLocationScore workerProfile vacancy in
  let salaryScore := calculateSalaryScore workerProfile vacancy in
  let totalScore :=
    Js.Math_round ((skillScore * 0.40 + experienceScore * 0.25 + educationScore * 0.15
                    + locationScore * 0.10 + salaryScore * 0.10) * 100) / 100 in
  let requiredSkills := requiredOf vacancySkills in
  let matchedRequired := matchedRequiredSkills workerSkills vacancySkills in
  let isRecommended :=
    (Qle_bool 70 totalScore && Qle_bool (nlen requiredSkills * 0.5) (nlen matchedRequired))%bool in
  {| skillScore := skillScore;
     experienceScore := experienceScore;
     educationScore := educationScore;
     locationScore := locationScore;
     salaryScore := salaryScore;
     totalScore := totalScore;
     skillMatchCount := length (matchedAgainst workerSkills vacancySkills);
     skillRequiredCount := length requiredSkills;
     isRecommended := isRecommended |}.


(** *** The relational store

    Tables list the rows a query of this module can see (rows with
    [deletedAt = null]; for worker profiles the flag [wp_active] carries
    status and deletion), in the order the paging queries return them
    ([publishedAt desc] for vacancies, [createdAt desc] for profiles). *)

Record MatchScore := { ms_scores : ScoreComponents; ms_calculatedAt : string }.

Record SecurityEvent := { se_eventType : string; se_userId : string }.

Record Db := {
  t_vacancy : list Vacancy;
  t_vacancySkill : list VacancySkill;
  t_workerProfile : list WorkerProfile;
  t_workerSkill : list WorkerSkill;
  t_workerEducation : list WorkerEducation;
  t_workerExperience : list WorkerExperience;
  t_matchScore : gmap (string * string) MatchScore;
  t_securityEvent : list SecurityEvent
}.

Record PaginatedResult (T : Type) := {
  items : list T;
  totalCount : nat;
  page : nat;
  pageSize : nat;
  totalPages : nat
}.
Arguments items {T} _.
Arguments totalCount {T} _.
Arguments page {T} _.
Arguments pageSize {T} _.
Arguments totalPages {T} _.

(** [Math.ceil(a / b)] on counts. *)
Definition ceilDiv (a b : nat) : nat := Nat.div (a + b - 1) b.

Definition with_matchScore (d : Db) (m : gmap (string * string) MatchScore) : Db :=
  {| t_vacancy := t_vacancy d;
     t_vacancySkill := t_vacancySkill d;
     t_workerProfile := t_workerProfile d;
     t_workerSkill := t_workerSkill d;
     t_workerEducation := t_workerEducation d;
     t_workerExperience := t_workerExperience d;
     t_matchScore := m;
     t_securityEvent := t_securityEvent d |}.

(** [prisma.matchScore.upsert]: the create and the update branch write the
    same score fields, and the row carries the time [now] of the write. *)
Definition upsertMatchScore (now : string) (workerId vacancyId : string)
    (scores : ScoreComponents) (d : Db) : Db :=
  with_matchScore d
    (<[(workerId, vacancyId) := {| ms_scores := scores; ms_calculatedAt := now |}]>
       (t_matchScore d)).

Definition getWorkerSkills (d : Db) (workerId : string) : list WorkerSkill :=
  List.filter (fun r => String.eqb (ws_userId r) workerId) (t_workerSkill d).

Definition getWorkerEducation (d : Db) (workerId : string) : list WorkerEducation :=
  List.filter (fun r => String.eqb (we_userId r) workerId) (t_workerEducation d).

Definition getWorkerExperience (d : Db) (workerId : string) : list WorkerExperience :=
  List.filter (fun r => String.eqb (wx_userId r) workerId) (t_workerExperience d).

Definition getVacancySkills (d : Db) (vacancyId : string) : list VacancySkill :=
  List.filter (fun r => String.eqb (vs_vacancyId r) vacancyId) (t_vacancySkill d).

Definition getVacancy (d : Db) (vacancyId : string) : option Vacancy :=
  List.find (fun v => String.eqb (v_id v) vacancyId) (t_vacancy d).

Definition getWorkerProfile (d : Db) (workerId : string) : option WorkerProfile :=
  List.find (fun w => String.eqb (wp_userId w) workerId) (t_workerProfile d).

Definition paginate {T} (rows : list T) (page pageSize : nat) : PaginatedResult T :=
  let enforcedPageSize := Nat.min pageSize 200 in
  {| items := firstn enforcedPageSize (skipn ((page - 1) * enforcedPageSize)%nat rows);
     totalCount := length rows;
     page := page;
     pageSize := enforcedPageSize;
     totalPages := ceilDiv (length rows) enforcedPageSize |}.

Definition openVacancies (d : Db) : list Vacancy := List.filter v_open (t_vacancy d).

Definition activeWorkers (d : Db) : list WorkerProfile :=
  List.filter wp_active (t_workerProfile d).

Definition getActiveVacanciesForWorker (d : Db) (workerId : string)
    (page pageSize : nat) : PaginatedResult Vacancy :=
  paginate (openVacancies d) page pageSize.

Definition getActiveWorkersForVacancy (d : Db) (vacancyId : string)
    (page pageSize : nat) : PaginatedResult WorkerProfile :=
  paginate (activeWorkers d) page pageSize.

(** [ids.includes(x)] of the [{ in: ids }] filters. *)
Definition inIds (ids : list string) (x : string) : bool :=
  existsb (String.eqb x) ids.

(** [new Map(rows.map(r => [key(r), r]))]: a later row replaces an earlier one. *)
Definition mapBy {T} (key : T -> string) (rows : list T) : gmap string T :=
  fold_left (fun m r => <[key r := r]> m) rows ∅.

(** The grouping loops: [if (!m.has(k)) m.set(k, []); m.get(k).push(r)]. *)
Definition groupBy {T} (key : T -> string) (rows : list T) : gmap string (list T) :=
  fold_left (fun m r => <[key r := default nil (m !! key r) ++ r :: nil]> m) rows ∅.

(** The [for (i = 0; i < ids.length; i += CONCURRENCY_LIMIT)] loop of
    slices; [fuel] bounds the number of slices. *)
Fixpoint chunksFrom {T} (fuel : nat) (l : list T) : list (list T) :=
  match fuel, l with
  | O, _ => nil
  | _, nil => nil
  | S f, _ => firstn CONCURRENCY_LIMIT l :: chunksFrom f (skipn CONCURRENCY_LIMIT l)
  end.

Definition chunks {T} (l : list T) : list (list T) := chunksFrom (length l) l.

(** [Promise.all(chunk.map(process))] followed by the sum of the results;
    the writes of a chunk are applied in list order. *)
Definition runChunk (process : string -> Db -> Db * nat) (chunk : list string)
    (acc : Db * nat) : Db * nat :=
  fold_left (fun '(d, n) id => let '(d', k) := process id d in (d', (n + k)%nat)) chunk acc.

Definition runChunks (process : string -> Db -> Db * nat) (ids : list string)
    (d : Db) : Db * nat :=
  fold_left (fun acc chunk => runChunk process chunk acc) (chunks ids) (d, O).

Definition recalculateBatchForWorker (thisYear : Z) (now : string) (workerId : string)
    (vacancyIds : list string) (d : Db) : Db * nat :=
  let workerSkills := getWorkerSkills d workerId in
  let workerEducation := getWorkerEducation d workerId in
  let workerExperience := getWorkerExperience d workerId in
  let workerProfile := getWorkerProfile d workerId in
  let vacancies := List.filter (fun v => inIds vacancyIds (v_id v)) (t_vacancy d) in
  let vacancySkills :=
    List.filter (fun s => inIds vacancyIds (vs_vacancyId s)) (t_vacancySkill d) in
  let vacancyMap := mapBy v_id vacancies in
  let vacancySkillsMap := groupBy vs_vacancyId vacancySkills in
  let processVacancy (vacancyId : string) (d : Db) : Db * nat :=
    match vacancyMap !! vacancyId with
    | None => (d, O)
    | Some vacancy =>
      let vSkills := default nil (vacancySkillsMap !! vacancyId) in
      let scores :=
        calculateScoreComponents thisYear workerSkills workerEducation workerExperience
          vSkills vacancy workerProfile in
      (upsertMatchScore now workerId vacancyId scores d, 1%nat)
    end in
  runChunks processVacancy vacancyIds d.

Definition recalculateBatchForVacancy (thisYear : Z) (now : string) (vacancyId : string)
    (workerIds : list string) (d : Db) : Db * nat :=
  match getVacancy d vacancyId with
  | None => (d, O)
  | Some vacancy =>
    let vacancySkills := getVacancySkills d vacancyId in
    let workerProfiles :=
      List.filter (fun w => inIds workerIds (wp_userId w)) (t_workerProfile d) in
    let workerSkillsList :=
      List.filter (fun r => inIds workerIds (ws_userId r)) (t_workerSkill d) in
    let workerEducationList :=
      List.filter (fun r => inIds workerIds (we_userId r)) (t_workerEducation d) in
    let workerExperienceList :=
      List.filter (fun r => inIds workerIds (wx_userId r)) (t_workerExperience d) in
    let workerProfileMap := mapBy wp_userId workerProfiles in
    let workerSkillsMap := groupBy ws_userId workerSkillsList in
    let workerEducationMap := groupBy we_userId workerEducationList in
    let workerExperienceMap := groupBy wx_userId workerExperienceList in
    let processWorker (workerId : string) (d : Db) : Db * nat :=
      let workerSkills := default nil (workerSkillsMap !! workerId) in
      let workerEducation := default nil (workerEducationMap !! workerId) in
      let workerExperience := default nil (workerExperienceMap !! workerId) in
      let workerProfile := workerProfileMap !! workerId in
      let scores :=
        calculateScoreComponents thisYear workerSkills workerEducation workerExperience
          vacancySkills vacancy workerProfile in
      (upsertMatchScore now workerId vacancyId scores d, 1%nat) in
    runChunks processWorker workerIds d
  end.

(** *** Reading match scores *)

(** A row of the match-score table: its unique pair and its fields. *)
Definition MatchRow : Type := (string * string) * MatchScore.

Definition row_workerId (r : MatchRow) : string := r.1.1.
Definition row_vacancyId (r : MatchRow) : string := r.1.2.
Definition row_totalScore (r : MatchRow) : Q := totalScore (ms_scores r.2).

(** [prisma.matchScore.findUnique({ where: { workerId_vacancyId } })]. *)
Definition findMatchScore (d : Db) (workerId vacancyId : string) : option MatchScore :=
  t_matchScore d !! (workerId, vacancyId).

(** [orderBy: { totalScore: 'desc' }]: the rows in descending order of
    total score.  The order among rows of equal score is the database's;
    here it is the order of the table scan. *)
Fixpoint insertRow (a : MatchRow) (l : list MatchRow) : list MatchRow :=
  match l with
  | nil => a :: nil
  | b :: r =>
    if Qle_bool (row_totalScore b) (row_totalScore a) then a :: b :: r
    else b :: insertRow a r
  end.

Fixpoint orderByTotalScoreDesc (l : list MatchRow) : list MatchRow :=
  match l with
  | nil => nil
  | a :: r => insertRow a (orderByTotalScoreDesc r)
  end.

(** [prisma.matchScore.findMany({ where, orderBy: { totalScore: 'desc' }, take })]. *)
Definition findMany (where_ : MatchRow -> bool) (take : nat) (d : Db) : list MatchRow :=
  firstn take (orderByTotalScoreDesc (List.filter where_ (map_to_list (t_matchScore d)))).

Definition getRecommendedMatches (d : Db) (vacancyId : string) (limit : nat) : list MatchRow :=
  findMany (fun r => (String.eqb (row_vacancyId r) vacancyId
                      && isRecommended (ms_scores r.2))%bool) limit d.

Definition getWorkerMatches (d : Db) (workerId : string) (limit : nat) : list MatchRow :=
  findMany (fun r => String.eqb (row_workerId r) workerId) limit d.

End Repository.

(** ** matching-cache.service.ts: the top-50 cache and its lease lock *)

Module Cache.

Definition CACHE_TTL : nat := 600.
Definition CACHE_LIMIT : nat := 50.
Definition LOCK_TTL : nat := 10.
Definition LOCK_RETRY_DELAY : nat := 50.
Definition LOCK_MAX_RETRIES : nat := 5.

(** [CachedMatchScore]: the score fields are kept together in [cm_scores]. *)
Record CachedMatchScore := {
  cm_workerId : string;
  cm_vacancyId : string;
  cm_scores : ScoreComponents;
  cm_cachedAt : string
}.

Definition cm_totalScore (m : CachedMatchScore) : Q := totalScore (cm_scores m).

(** A Redis value of the [matching:] key space: the JSON text of a match
    list (kept parsed) or a plain string (the owner token of a lock).
    Time-to-live is not part of the state: expiry is the environment
    deleting the key ([expire]). *)
Inductive rvalue :=
| RMatches (l : list CachedMatchScore)
| RString (s : string).

Abbreviation redis := (gmap string rvalue).

Definition expire (key : string) (r : redis) : redis := delete key r.

Definition workerKey (workerId : string) : string := ("worker:" ++ workerId)%string.
Definition vacancyKey (vacancyId : string) : string := ("vacancy:" ++ vacancyId)%string.
Definition lockKeyOf (key : string) : string := ("lock:" ++ key)%string.

(** [redis.get(key)] followed by [JSON.parse]; cache keys and lock keys are
    disjoint, so a plain string under a cache key does not occur and is
    read as a miss. *)
Definition getMatches (key : string) (r : redis) : option (list CachedMatchScore) :=
  match r !! key with
  | Some (RMatches l) => Some l
  | _ => None
  end.

Definition getWorkerMatches (workerId : string) (r : redis) := getMatches (workerKey workerId) r.
Definition getVacancyMatches (vacancyId : string) (r : redis) := getMatches (vacancyKey vacancyId) r.

(** [Array.prototype.sort((a, b) => b.totalScore - a.totalScore)]: the
    sort is stable, so [a] stays in front of a later [b] unless
    [b.totalScore - a.totalScore > 0]. *)
Fixpoint insert_desc (a : CachedMatchScore) (l : list CachedMatchScore) : list CachedMatchScore :=
  match l with
  | nil => a :: nil
  | b :: r =>
    if Qle_bool (cm_totalScore b) (cm_totalScore a) then a :: b :: r
    else b :: insert_desc a r
  end.

Fixpoint sort_desc (l : list CachedMatchScore) : list CachedMatchScore :=
  match l with
  | nil => nil
  | a :: r => insert_desc a (sort_desc r)
  end.

Definition restamp (now : string) (m : CachedMatchScore) : CachedMatchScore :=
  {| cm_workerId := cm_workerId m;
     cm_vacancyId := cm_vacancyId m;
     cm_scores := cm_scores m;
     cm_cachedAt := now |}.

(** The value [setWorkerMatches] and [setVacancyMatches] write for a
    non-empty list; [now] is [new Date().toISOString()]. *)
Definition cacheData (now : string) (matches : list CachedMatchScore) : list CachedMatchScore :=
  map (restamp now) (Js.slice 0 CACHE_LIMIT (sort_desc matches)).

Definition setMatches (now : string) (key : string) (matches : list CachedMatchScore)
    (r : redis) : redis :=
  if Nat.eqb (length matches) 0 then r
  else <[key := RMatches (cacheData now matches)]> r.

Definition setWorkerMatches (now workerId : string) (matches : list CachedMatchScore)
    (r : redis) : redis :=
  setMatches now (workerKey workerId) matches r.

Definition setVacancyMatches (now vacancyId : string) (matches : list CachedMatchScore)
    (r : redis) : redis :=
  setMatches now (vacancyKey vacancyId) matches r.

Definition invalidateWorkerCache (workerId : string) (r : redis) : redis :=
  delete (workerKey workerId) r.

Definition invalidateVacancyCache (vacancyId : string) (r : redis) : redis :=
  delete (vacancyKey vacancyId) r.

(** [SET lockKey owner EX 10 NX]. *)
Definition acquireLock (key owner : string) (r : redis) : bool * redis :=
  match r !! lockKeyOf key with
  | None => (true, <[lockKeyOf key := RString owner]> r)
  | Some _ => (false, r)
  end.

(** The Lua script: delete the key when its value equals the owner. *)
Definition releaseLock (key owner : string) (r : redis) : redis :=
  match r !! lockKeyOf key with
  | Some (RString holder) =>
    if String.eqb holder owner then delete (lockKeyOf key) r else r
  | _ => r
  end.

(** *** [getOrSetWorkerCache] / [getOrSetVacancyCache] as a process

    Every [await] of the source is one atomic step on the shared state;
    between two steps other callers (and key expiry) may run. *)

Inductive event := EvAcquired | EvDenied | EvFetchLocked | EvFetchFallback.

Inductive pc :=
| Start                                      (* first cache read *)
| Acquire (attempts : nat)                   (* loop body: acquireLock *)
| DoubleCheck                                (* lock acquired: re-read *)
| Fetch                                      (* lock acquired: fetcher() *)
| Store (matches : list CachedMatchScore)    (* lock acquired: set...Matches *)
| Release (result : list CachedMatchScore)   (* finally: releaseLock *)
| Sleep (attempts : nat)
| Retry (attempts : nat)                     (* re-read after the sleep *)
| Fallback                                   (* after the loop: fetcher() *)
| Done (result : list CachedMatchScore).

(** A caller: its control point and the (ghost) trace of what it did. *)
Record proc := { at_pc : pc; trace : list event }.

(** The shared world: the store and the number of fetcher invocations so
    far; the [n]-th invocation returns [fetcher n]. *)
Record shared := { store : redis; calls : nat }.

Definition loopHead (attempts : nat) : pc :=
  if Nat.ltb attempts LOCK_MAX_RETRIES then Acquire attempts else Fallback.

Definition initial : proc := {| at_pc := Start; trace := nil |}.

Definition step (fetcher : nat -> list CachedMatchScore) (now key owner : string)
    (p : proc) (s : shared) : proc * shared :=
  let goto c := ({| at_pc := c; trace := trace p |}, s) in
  match at_pc p with
  | Start =>
    match getMatches key (store s) with
    | Some cached => goto (Done cached)
    | None => goto (loopHead 0)
    end
  | Acquire attempts =>
    let '(lockAcquired, r) := acquireLock key owner (store s) in
    let s' := {| store := r; calls := calls s |} in
    if lockAcquired
    then ({| at_pc := DoubleCheck; trace := EvAcquired :: trace p |}, s')
    else ({| at_pc := Sleep attempts; trace := EvDenied :: trace p |}, s')
  | DoubleCheck =>
    match getMatches key (store s) with
    | Some doubleCheck => goto (Release doubleCheck)
    | None => goto Fetch
    end
  | Fetch =>
    ({| at_pc := Store (fetcher (calls s)); trace := EvFetchLocked :: trace p |},
     {| store := store s; calls := S (calls s) |})
  | Store matches =>
    ({| at_pc := Release matches; trace := trace p |},
     {| store := setMatches now key matches (store s); calls := calls s |})
  | Release result =>
    ({| at_pc := Done result; trace := trace p |},
     {| store := releaseLock key owner (store s); calls := calls s |})
  | Sleep attempts => goto (Retry attempts)
  | Retry attempts =>
    match getMatches key (store s) with
    | Some retryCached => goto (Done retryCached)
    | None => goto (loopHead (S attempts))
    end
  | Fallback =>
    ({| at_pc := Done (fetcher (calls s)); trace := EvFetchFallback :: trace p |},
     {| store := store s; calls := S (calls s) |})
  | Done _ => (p, s)
  end.

Definition getOrSetWorkerCache_step fetcher now (workerId owner : string) :=
  step fetcher now (workerKey workerId) owner.

Definition getOrSetVacancyCache_step fetcher now (vacancyId owner : string) :=
  step fetcher now (vacancyKey vacancyId) owner.

(** One caller under arbitrary interference: between its steps the shared
    state may be anything (other callers, expiry, invalidation). *)
Inductive reachable (fetcher : nat -> list CachedMatchScore) (now key owner : string)
    : proc -> Prop :=
| reach_initial : reachable fetcher now key owner initial
| reach_step p s :
    reachable fetcher now key owner p ->
    reachable fetcher now key owner (fst (step fetcher now key owner p s)).

(** Two callers [A] and [B] of the same key, interleaved by a schedule
    ([true]: [A] moves, [false]: [B] moves); no key expires meanwhile. *)
Record duo := { callerA : proc; callerB : proc; world : shared }.

Definition duo_step fetcher now key (ownerA ownerB : string) (who : bool) (d : duo) : duo :=
  if who then
    let '(p, s) := step fetcher now key ownerA (callerA d) (world d) in
    {| callerA := p; callerB := callerB d; world := s |}
  else
    let '(p, s) := step fetcher now key ownerB (callerB d) (world d) in
    {| callerA := callerA d; callerB := p; world := s |}.

Definition duo_run fetcher now key ownerA ownerB (schedule : list bool) (d : duo) : duo :=
  fold_left (fun d who => duo_step fetcher now key ownerA ownerB who d) schedule d.

Definition duo_initial (r : redis) : duo :=
  {| callerA := initial; callerB := initial; world := {| store := r; calls := 0 |} |}.

Definition result_of (p : proc) : option (list CachedMatchScore) :=
  match at_pc p with
  | Done result => Some result
  | _ => None
  end.

Definition count_event (e : event) (t : list event) : nat :=
  length (List.filter (fun x => match x, e with
                                | EvAcquired, EvAcquired | EvDenied, EvDenied
                                | EvFetchLocked, EvFetchLocked
                                | EvFetchFallback, EvFetchFallback => true
                                | _, _ => false
                                end) t).


(** *** A caller running on its own

    [runAlone n] takes [n] steps of one caller with nobody else touching
    the store in between ([Done] steps to itself); [runWith] takes one step
    per element of a list of shared states, the state the caller finds at
    each of its steps being whatever the others left there. *)

Fixpoint runAlone (fetcher : nat -> list CachedMatchScore) (now key owner : string)
    (n : nat) (p : proc) (s : shared) : proc * shared :=
  match n with
  | O => (p, s)
  | S n' =>
    let '(p', s') := step fetcher now key owner p s in
    runAlone fetcher now key owner n' p' s'
  end.

Definition runWith (fetcher : nat -> list CachedMatchScore) (now key owner : string)
    (found : list shared) (p : proc) : proc :=
  fold_left (fun p s => fst (step fetcher now key owner p s)) found p.

(** The longest path of a call: the first read, four rounds of a denied
    [acquireLock], [sleep] and re-read, the fifth [acquireLock] granted,
    then the second read, the fetch, the write and the release. *)
Definition MAX_STEPS : nat := 18.

(** [getOrSetWorkerCache] / [getOrSetVacancyCache] of a caller left alone:
    the returned list and the store afterwards ([None] if the call had not
    returned within [MAX_STEPS] steps). *)
Definition getOrSetAlone (fetcher : list CachedMatchScore) (now key owner : string)
    (r : redis) : option (list CachedMatchScore * redis) :=
  let '(p, s) := runAlone (fun _ => fetcher) now key owner MAX_STEPS initial
                   {| store := r; calls := 0 |} in
  match at_pc p with
  | Done result => Some (result, store s)
  | _ => None
  end.

Definition getOrSetWorkerCache (fetcher : list CachedMatchScore)
    (now workerId owner : string) (r : redis) :=
  getOrSetAlone fetcher now (workerKey workerId) owner r.

Definition getOrSetVacancyCache (fetcher : list CachedMatchScore)
    (now vacancyId owner : string) (r : redis) :=
  getOrSetAlone fetcher now (vacancyKey vacancyId) owner r.

End Cache.

(** ** matching.service.ts: the single-pair score calculator and the entry points *)

Module Service.

Definition BATCH_SIZE : nat := 200.
Definition CONCURRENCY_LIMIT : nat := 20.
Definition MIN_SCORE_THRESHOLD : Q := 70.

Definition calculateSkillScore (workerSkills : list WorkerSkill)
    (vacancySkills requiredSkills : list VacancySkill) : Q :=
  if Nat.eqb (length requiredSkills) 0 then 100
  else if Nat.eqb (length vacancySkills) 0 then 50
  else
    let matchedSkills := matchedAgainst workerSkills vacancySkills in
    let matchRatio := nlen matchedSkills / nlen requiredSkills in
    Js.Math_round (Js.Math_min matchRatio 1 * 100 * 100) / 100.

Definition calculateExperienceScore (thisYear : Z)
    (workerExperience : list WorkerExperience) (vacancy : Vacancy) : Q :=
  let minYears := Js.orZ (experienceMinYears vacancy) 0%Z in
  let maxYears := Js.orZ (experienceMaxYears vacancy) (minYears + 10)%Z in
  if ((minYears =? 0)%Z && (maxYears =? 0)%Z)%bool then 100
  else
    let total := totalYears thisYear workerExperience in
    if ((minYears <=? total)%Z && (total <=? maxYears)%Z)%bool then 100
    else if (total <? minYears)%Z then
      let deficit := (minYears - total)%Z in
      (* deficit > 0 here: with minYears = 0 the quotient is +Infinity,
         the difference -Infinity and Math.max gives 0 *)
      if (minYears =? 0)%Z then 0
      else
        let deviationPercent := inject_Z deficit / inject_Z minYears in
        Js.Math_max 0 (100 - deviationPercent * 100)
    else
      let excess := (total - maxYears)%Z in
      (* excess > 0 here: same remark when maxYears = 0 *)
      if (maxYears =? 0)%Z then 0
      else
        let deviationPercent := inject_Z excess / inject_Z maxYears in
        Js.Math_max 0 (100 - deviationPercent * 100).

Definition calculateEducationScore (workerEducation : list WorkerEducation)
    (vacancy : Vacancy) : Q :=
  match educationMinLevel vacancy with
  | None => 50
  | Some lvl =>
    if String.eqb lvl EmptyString then 50
    else
      let vacancyLevelIndex := Js.indexOf educationLevels lvl in
      if (vacancyLevelIndex =? -1)%Z then 50
      else if existsb (fun edu =>
                 (vacancyLevelIndex <=? Js.indexOf educationLevels (we_degreeLevel edu))%Z)
               workerEducation
      then 100
      else Js.Math_max 0 (100 - inject_Z (vacancyLevelIndex * 25)%Z)
  end.

Definition calculateLocationScore (workerProfile : option WorkerProfile)
    (vacancy : Vacancy) : Q :=
  match locationCity vacancy, workerProfile with
  | Some vcity, Some wp =>
    match wp_city wp with
    | Some wcity =>
      if (String.eqb vcity EmptyString || String.eqb wcity EmptyString)%bool then 50
      else if String.eqb (Js.toLowerCase wcity) (Js.toLowerCase vcity) then 100
      else if match wp_state wp, locationState vacancy with
              | Some wst, Some vst =>
                (negb (String.eqb wst EmptyString) && negb (String.eqb vst EmptyString)
                 && String.eqb (Js.toLowerCase wst) (Js.toLowerCase vst))%bool
              | _, _ => false
              end
      then 70
      else if isRemote vacancy then 90
      else 30
    | None => 50
    end
  | _, _ => 50
  end.

(** [vacancy.salaryMin?.toNumber() || 0]. *)
Definition salaryMinOf (vacancy : Vacancy) : Q :=
  match salaryMin vacancy with
  | Some d => if Qeq_bool d 0 then 0 else d
  | None => 0
  end.

(** [vacancy.salaryMax?.toNumber() || salaryMin * 2]. *)
Definition salaryMaxOf (vacancy : Vacancy) : Q :=
  match salaryMax vacancy with
  | Some d => if Qeq_bool d 0 then salaryMinOf vacancy * 2 else d
  | None => salaryMinOf vacancy * 2
  end.

Definition midPointOf (vacancy : Vacancy) : Q :=
  (salaryMinOf vacancy + salaryMaxOf vacancy) / 2.

Definition calculateSalaryScore (workerProfile : option WorkerProfile)
    (vacancy : Vacancy) : Q :=
  match salaryMin vacancy, salaryMax vacancy with
  | None, None => 50
  | _, _ =>
    if salaryIsNegotiable vacancy then 80
    else
      let salaryMin' := salaryMinOf vacancy in
      let salaryMax' := salaryMaxOf vacancy in
      if (Qeq_bool salaryMin' 0 && Qeq_bool salaryMax' 0)%bool then 50
      else
        let midPoint := midPointOf vacancy in
        let deviation := (1 # 2) * midPoint in
        if Qeq_bool deviation 0 then 100
        else
          let distance := Qabs (0 - midPoint) in
          let deviationPercent := distance / deviation in
          Js.Math_max 0 (Js.Math_round ((1 - deviationPercent) * 100 * 100) / 100)
  end.

Definition computeScore (thisYear : Z)
    (workerSkills : list WorkerSkill) (workerEducation : list WorkerEducation)
    (workerExperience : list WorkerExperience) (vacancySkills : list VacancySkill)
    (vacancy : Vacancy) (workerProfile : option WorkerProfile) : ScoreComponents :=
  let requiredSkills := requiredOf vacancySkills in
  let skillScore := calculateSkillScore workerSkills vacancySkills requiredSkills in
  let experienceScore := calculateExperienceScore thisYear workerExperience vacancy in
  let educationScore := calculateEducationScore workerEducation vacancy in
  let locationScore := calculateLocationScore workerProfile vacancy in
  let salaryScore := calculateSalaryScore workerProfile vacancy in
  let totalScore :=
    Js.Math_round ((skillScore * 0.40 + experienceScore * 0.25 + educationScore * 0.15
                    + locationScore * 0.10 + salaryScore * 0.10) * 100) / 100 in
  let isRecommended := Qle_bool MIN_SCORE_THRESHOLD totalScore in
  {| skillScore := skillScore;
     experienceScore := experienceScore;
     educationScore := educationScore;
     locationScore := locationScore;
     salaryScore := salaryScore;
     totalScore := totalScore;
     skillMatchCount := length (matchedAgainst workerSkills vacancySkills);
     skillRequiredCount := length requiredSkills;
     isRecommended := isRecommended |}.


(** *** The stateful entry points

    The service works on the relational store and the cache store. *)

Record World := { db : Repository.Db; cache : gmap string Cache.rvalue }.

Inductive outcome (A : Type) :=
| Returned (a : A)
| NotFoundException (code : string).
Arguments Returned {A} a.
Arguments NotFoundException {A} code.

Record ScoreResult := {
  sr_workerId : string;
  sr_vacancyId : string;
  sr_scores : ScoreComponents
}.

Record RecalcResult := { calculated : nat; batch : nat }.

(** [auditService.log]: one more security event; failures are swallowed. *)
Definition auditService_log (eventType userId : string) (d : Repository.Db) : Repository.Db :=
  {| Repository.t_vacancy := Repository.t_vacancy d;
     Repository.t_vacancySkill := Repository.t_vacancySkill d;
     Repository.t_workerProfile := Repository.t_workerProfile d;
     Repository.t_workerSkill := Repository.t_workerSkill d;
     Repository.t_workerEducation := Repository.t_workerEducation d;
     Repository.t_workerExperience := Repository.t_workerExperience d;
     Repository.t_matchScore := Repository.t_matchScore d;
     Repository.t_securityEvent :=
       Repository.t_securityEvent d
       ++ {| Repository.se_eventType := eventType; Repository.se_userId := userId |} :: nil |}.

Definition calculateScore (thisYear : Z) (now : string) (workerId vacancyId : string)
    (w : World) : World * outcome ScoreResult :=
  let vacancy := Repository.getVacancy (db w) vacancyId in
  let workerProfile := Repository.getWorkerProfile (db w) workerId in
  let workerSkills := Repository.getWorkerSkills (db w) workerId in
  let workerEducation := Repository.getWorkerEducation (db w) workerId in
  let workerExperience := Repository.getWorkerExperience (db w) workerId in
  let vacancySkills := Repository.getVacancySkills (db w) vacancyId in
  match vacancy with
  | None => (w, NotFoundException "VACANCY_NOT_FOUND")
  | Some vacancy =>
    let scores :=
      computeScore thisYear workerSkills workerEducation workerExperience
        vacancySkills vacancy workerProfile in
    let d1 := Repository.upsertMatchScore now workerId vacancyId scores (db w) in
    let d2 := auditService_log "MATCH_SCORE_CALCULATED" workerId d1 in
    ({| db := d2; cache := cache w |},
     Returned {| sr_workerId := workerId; sr_vacancyId := vacancyId; sr_scores := scores |})
  end.

(** The [while (true)] loop of [recalcForWorker]; [None] when [fuel] runs
    out before the loop breaks. *)
Fixpoint recalcForWorker_loop (fuel : nat) (thisYear : Z) (now workerId : string)
    (page totalCalculated batchCount : nat) (d : Repository.Db)
    : option (Repository.Db * nat * nat) :=
  match fuel with
  | O => None
  | S fuel' =>
    let result := Repository.getActiveVacanciesForWorker d workerId page BATCH_SIZE in
    if Nat.eqb (length (Repository.items result)) 0 then Some (d, totalCalculated, batchCount)
    else
      let vacancyIds := map v_id (Repository.items result) in
      let '(d', calculated) :=
        Repository.recalculateBatchForWorker thisYear now workerId vacancyIds d in
      let totalCalculated := (totalCalculated + calculated)%nat in
      let batchCount := S batchCount in
      if Nat.ltb (length (Repository.items result)) BATCH_SIZE
      then Some (d', totalCalculated, batchCount)
      else recalcForWorker_loop fuel' thisYear now workerId (S page) totalCalculated batchCount d'
  end.

Definition recalcForWorker (fuel : nat) (thisYear : Z) (now workerId : string)
    (w : World) : option (World * RecalcResult) :=
  match recalcForWorker_loop fuel thisYear now workerId 1 0 0 (db w) with
  | None => None
  | Some (d, totalCalculated, batchCount) =>
    let d' := auditService_log "WORKER_MATCHES_RECALCULATED" workerId d in
    Some ({| db := d'; cache := Cache.invalidateWorkerCache workerId (cache w) |},
          {| calculated := totalCalculated; batch := batchCount |})
  end.

Fixpoint recalcForVacancy_loop (fuel : nat) (thisYear : Z) (now vacancyId : string)
    (page totalCalculated batchCount : nat) (d : Repository.Db)
    : option (Repository.Db * nat * nat) :=
  match fuel with
  | O => None
  | S fuel' =>
    let result := Repository.getActiveWorkersForVacancy d vacancyId page BATCH_SIZE in
    if Nat.eqb (length (Repository.items result)) 0 then Some (d, totalCalculated, batchCount)
    else
      let workerIds := map wp_userId (Repository.items result) in
      let '(d', calculated) :=
        Repository.recalculateBatchForVacancy thisYear now vacancyId workerIds d in
      let totalCalculated := (totalCalculated + calculated)%nat in
      let batchCount := S batchCount in
      if Nat.ltb (length (Repository.items result)) BATCH_SIZE
      then Some (d', totalCalculated, batchCount)
      else recalcForVacancy_loop fuel' thisYear now vacancyId (S page) totalCalculated batchCount d'
  end.

Definition recalcForVacancy (fuel : nat) (thisYear : Z) (now vacancyId : string)
    (w : World) : option (World * outcome RecalcResult) :=
  match Repository.getVacancy (db w) vacancyId with
  | None => Some (w, NotFoundException "VACANCY_NOT_FOUND")
  | Some _ =>
    match recalcForVacancy_loop fuel thisYear now vacancyId 1 0 0 (db w) with
    | None => None
    | Some (d, totalCalculated, batchCount) =>
      let d' := auditService_log "VACANCY_MATCHES_RECALCULATED" "system" d in
      Some ({| db := d'; cache := Cache.invalidateVacancyCache vacancyId (cache w) |},
            Returned {| calculated := totalCalculated; batch := batchCount |})
    end
  end.


(** *** Reading recommendations through the cache

    [fetchedAt] is the time [toCachedMatchScore] stamps the fetched rows
    with, [now] the time of the cache write, [uuid] the value of
    [uuidv4()].  The calls below are those of a caller nobody interferes
    with ([Cache.getOrSetAlone]). *)

Definition toCachedMatchScore (fetchedAt : string) (m : Repository.MatchRow)
    : Cache.CachedMatchScore :=
  {| Cache.cm_workerId := Repository.row_workerId m;
     Cache.cm_vacancyId := Repository.row_vacancyId m;
     Cache.cm_scores := Repository.ms_scores m.2;
     Cache.cm_cachedAt := fetchedAt |}.

Definition getRecommendedMatches (fetchedAt now uuid : string) (workerId : string)
    (limit : nat) (w : World) : option (World * list Cache.CachedMatchScore) :=
  let owner := ("worker:" ++ workerId ++ ":" ++ uuid)%string in
  let fetcher :=
    map (toCachedMatchScore fetchedAt) (Repository.getWorkerMatches (db w) workerId 50) in
  match Cache.getOrSetWorkerCache fetcher now workerId owner (cache w) with
  | Some (matches, r) => Some ({| db := db w; cache := r |}, Js.slice 0 limit matches)
  | None => None
  end.

Definition getVacancyRecommendations (fetchedAt now uuid : string) (vacancyId : string)
    (limit : nat) (w : World) : option (World * list Cache.CachedMatchScore) :=
  let owner := ("vacancy:" ++ vacancyId ++ ":" ++ uuid)%string in
  let fetcher :=
    map (toCachedMatchScore fetchedAt)
      (Repository.getRecommendedMatches (db w) vacancyId 50) in
  match Cache.getOrSetVacancyCache fetcher now vacancyId owner (cache w) with
  | Some (matches, r) => Some ({| db := db w; cache := r |}, Js.slice 0 limit matches)
  | None => None
  end.

End Service.

(** ** The calculator in IEEE-754 doubles

    A JavaScript number is a binary64 float.  [double x] is the float
    nearest to the real [x] (ties to the even significand); an arithmetic
    operation of the source is the exact operation followed by [double].
    The exponent range is not modelled: the numbers of the calculator stay
    far from overflow and underflow.  [Math.round], [Math.min], [Math.max]
    and [Math.abs] are exact on floats, and whole numbers below [2^53] are
    floats. *)

Module Ieee.

(** The whole number nearest to [q], ties to the even one. *)
Definition rint (q : Q) : Z :=
  let f := Qfloor q in
  match Qcompare (q - inject_Z f) (1 # 2) with
  | Lt => f
  | Gt => (f + 1)%Z
  | Eq => if Z.even f then f else (f + 1)%Z
  end.

(** For [a > 0]: the exponent [e] with [2^52 <= a / 2^e < 2^53]. *)
Definition exponent (a : Q) : Z :=
  let e := (Z.log2 (Qnum a) - Z.log2 (Zpos (Qden a)) - 53)%Z in
  if Qle_bool (2 ^ 53) (a / 2 ^ e) then (e + 1)%Z else e.

Definition double (x : Q) : Q :=
  if Qeq_bool x 0 then 0
  else
    let a := Qabs x in
    let e := exponent a in
    let r := inject_Z (rint (a / 2 ^ e)) * 2 ^ e in
    Qred (if Qle_bool 0 x then r else - r).

Definition add (a b : Q) : Q := double (a + b).
Definition sub (a b : Q) : Q := double (a - b).
Definition mul (a b : Q) : Q := double (a * b).
Definition div (a b : Q) : Q := double (a / b).

(** The expression of [totalScore], the same in [computeScore] and in
    [calculateScoreComponents]; the literals [0.40] .. [0.10] are the
    doubles nearest to them. *)
Definition totalScoreOf (skillScore experienceScore educationScore locationScore salaryScore : Q)
    : Q :=
  div (Js.Math_round
         (mul (add (add (add (add (mul skillScore (double 0.40))
                                  (mul experienceScore (double 0.25)))
                             (mul educationScore (double 0.15)))
                        (mul locationScore (double 0.10)))
                   (mul salaryScore (double 0.10)))
              100))
      100.

(** The single-pair calculator of [matching.service.ts]. *)

Definition calculateSkillScore (workerSkills : list WorkerSkill)
    (vacancySkills requiredSkills : list VacancySkill) : Q :=
  if Nat.eqb (length requiredSkills) 0 then 100
  else if Nat.eqb (length vacancySkills) 0 then 50
  else
    let matchedSkills := matchedAgainst workerSkills vacancySkills in
    let matchRatio := div (nlen matchedSkills) (nlen requiredSkills) in
    div (Js.Math_round (mul (mul (Js.Math_min matchRatio 1) 100) 100)) 100.

Definition calculateExperienceScore (thisYear : Z)
    (workerExperience : list WorkerExperience) (vacancy : Vacancy) : Q :=
  let minYears := Js.orZ (experienceMinYears vacancy) 0%Z in
  let maxYears := Js.orZ (experienceMaxYears vacancy) (minYears + 10)%Z in
  if ((minYears =? 0)%Z && (maxYears =? 0)%Z)%bool then 100
  else
    let total := totalYears thisYear workerExperience in
    if ((minYears <=? total)%Z && (total <=? maxYears)%Z)%bool then 100
    else if (total <? minYears)%Z then
      let deficit := (minYears - total)%Z in
      if (minYears =? 0)%Z then 0
      else
        let deviationPercent := div (inject_Z deficit) (inject_Z minYears) in
        Js.Math_max 0 (sub 100 (mul deviationPercent 100))
    else
      let excess := (total - maxYears)%Z in
      if (maxYears =? 0)%Z then 0
      else
        let deviationPercent := div (inject_Z excess) (inject_Z maxYears) in
        Js.Math_max 0 (sub 100 (mul deviationPercent 100)).

(** [vacancy.salaryMin?.toNumber() || 0]. *)
Definition salaryMinOf (vacancy : Vacancy) : Q :=
  match salaryMin vacancy with
  | Some d => if Qeq_bool (double d) 0 then 0 else double d
  | None => 0
  end.

(** [vacancy.salaryMax?.toNumber() || salaryMin * 2]. *)
Definition salaryMaxOf (vacancy : Vacancy) : Q :=
  match salaryMax vacancy with
  | Some d => if Qeq_bool (double d) 0 then mul (salaryMinOf vacancy) 2 else double d
  | None => mul (salaryMinOf vacancy) 2
  end.

Definition calculateSalaryScore (workerProfile : option WorkerProfile)
    (vacancy : Vacancy) : Q :=
  match salaryMin vacancy, salaryMax vacancy with
  | None, None => 50
  | _, _ =>
    if salaryIsNegotiable vacancy then 80
    else
      let salaryMin' := salaryMinOf vacancy in
      let salaryMax' := salaryMaxOf vacancy in
      if (Qeq_bool salaryMin' 0 && Qeq_bool salaryMax' 0)%bool then 50
      else
        let midPoint := div (add salaryMin' salaryMax') 2 in
        let deviation := mul (double 0.5) midPoint in
        if Qeq_bool deviation 0 then 100
        else
          let distance := Qabs (sub 0 midPoint) in
          let deviationPercent := div distance deviation in
          Js.Math_max 0
            (div (Js.Math_round (mul (mul (sub 1 deviationPercent) 100) 100)) 100)
  end.

(** [computeScore]; the education and the location score are whole
    numbers computed from whole numbers, the same in doubles. *)
Definition computeScore (thisYear : Z)
    (workerSkills : list WorkerSkill) (workerEducation : list WorkerEducation)
    (workerExperience : list WorkerExperience) (vacancySkills : list VacancySkill)
    (vacancy : Vacancy) (workerProfile : option WorkerProfile) : ScoreComponents :=
  let requiredSkills := requiredOf vacancySkills in
  let skillScore := calculateSkillScore workerSkills vacancySkills requiredSkills in
  let experienceScore := calculateExperienceScore thisYear workerExperience vacancy in
  let educationScore := Service.calculateEducationScore workerEducation vacancy in
  let locationScore := Service.calculateLocationScore workerProfile vacancy in
  let salaryScore := calculateSalaryScore workerProfile vacancy in
  let totalScore :=
    totalScoreOf skillScore experienceScore educationScore locationScore salaryScore in
  let isRecommended := Qle_bool Service.MIN_SCORE_THRESHOLD totalScore in
  {| skillScore := skillScore;
     experienceScore := experienceScore;
     educationScore := educationScore;
     locationScore := locationScore;
     salaryScore := salaryScore;
     totalScore := totalScore;
     skillMatchCount := length (matchedAgainst workerSkills vacancySkills);
     skillRequiredCount := length requiredSkills;
     isRecommended := isRecommended |}.

End Ieee.

(** ** matching.processor.ts: the queue worker *)

Module Processor.

Definition RECALC_WORKER : string := "recalc-worker".
Definition RECALC_VACANCY : string := "recalc-vacancy".

(** A job of the matching queue: its name and the two optional ids of
    [MatchingJobData]. *)
Record Job := {
  name : string;
  data_workerId : option string;
  data_vacancyId : option string
}.

(** How [processJob] ends: it returns, or it throws (an [Error] with its
    message, or the not-found error of the service with its code) and the
    job fails. *)
Inductive jobOutcome :=
| Completed
| ThrewError (message : string)
| ThrewNotFound (code : string).

(** An optional string that passes [if (!x)]: present and not empty. *)
Definition truthy (x : option string) : option string :=
  match x with
  | Some s => if String.eqb s EmptyString then None else Some s
  | None => None
  end.

(** [processJob]; [fuel] bounds the page fetches of the recalculation,
    [None] when it runs out. *)
Definition processJob (fuel : nat) (thisYear : Z) (now : string) (job : Job)
    (w : Service.World) : option (Service.World * jobOutcome) :=
  if String.eqb (name job) RECALC_WORKER then
    match truthy (data_workerId job) with
    | None => Some (w, ThrewError "workerId is required for recalc-worker job")
    | Some workerId =>
      match Service.recalcForWorker fuel thisYear now workerId w with
      | None => None
      | Some (w', _) => Some (w', Completed)
      end
    end
  else if String.eqb (name job) RECALC_VACANCY then
    match truthy (data_vacancyId job) with
    | None => Some (w, ThrewError "vacancyId is required for recalc-vacancy job")
    | Some vacancyId =>
      match Service.recalcForVacancy fuel thisYear now vacancyId w with
      | None => None
      | Some (w', Service.Returned _) => Some (w', Completed)
      | Some (w', Service.NotFoundException code) => Some (w', ThrewNotFound code)
      end
    end
  else Some (w, ThrewError ("Unknown job type: " ++ name job)%string).

End Processor.

(** ** Specification-side definitions *)


Definition inRange (x : Q) : Prop := 0 <= x <= 100.

Definition scoresInRange (s : ScoreComponents) : Prop :=
  inRange (skillScore s) /\ inRange (experienceScore s) /\ inRange (educationScore s)
  /\ inRange (locationScore s) /\ inRange (salaryScore s) /\ inRange (totalScore s).

Definition nonNegZ (x : option Z) : Prop :=
  match x with Some n => (0 <= n)%Z | None => True end.

Definition nonNegQ (x : option Q) : Prop :=
  match x with Some q => 0 <= q | None => True end.

(** What the vacancy DTO validation enforces ([@Min(0)] on the experience
    bounds and on the salaries). *)
Definition validVacancy (v : Vacancy) : Prop :=
  nonNegZ (experienceMinYears v) /\ nonNegZ (experienceMaxYears v)
  /\ nonNegQ (salaryMin v) /\ nonNegQ (salaryMax v).

(** Descending by total score: every entry is at least as high as all the
    entries after it. *)
Definition sortedDesc (l : list Cache.CachedMatchScore) : Prop :=
  StronglySorted (fun a b => Cache.cm_totalScore b <= Cache.cm_totalScore a) l.

(** What a [set...Matches] call may do to the store: nothing (empty input),
    or write under [key] the re-stamped first 50 entries of a descending
    rearrangement of the input. *)
Definition persistedBy (now key : string) (matches : list Cache.CachedMatchScore)
    (r r' : gmap string Cache.rvalue) : Prop :=
  (matches = nil /\ r' = r)
  \/ (matches <> nil
      /\ exists sorted kept,
           Permutation sorted matches /\ sortedDesc sorted
           /\ kept = map (Cache.restamp now) (firstn 50 sorted)
           /\ r' = <[key := Cache.RMatches kept]> r
           /\ (length kept <= 50)%nat /\ sortedDesc kept).

(** Every match list in the store has at most 50 entries, in descending order. *)
Definition cacheWellFormed (r : gmap string Cache.rvalue) : Prop :=
  forall key l, r !! key = Some (Cache.RMatches l) ->
    (length l <= 50)%nat /\ sortedDesc l.

(** The owner token of the lock on [key], if the lock is taken. *)
Definition holder (key : string) (r : gmap string Cache.rvalue) : option string :=
  match r !! Cache.lockKeyOf key with
  | Some (Cache.RString owner) => Some owner
  | _ => None
  end.

(** The two paging loops have one shape: fetch the ids of a page, hand them
    to the batch recalculation, stop on an empty or a short page. *)
Fixpoint pagedLoop (fetch : Repository.Db -> nat -> list string)
    (recalc : list string -> Repository.Db -> Repository.Db * nat)
    (fuel page totalCalculated batchCount : nat) (d : Repository.Db)
    : option (Repository.Db * nat * nat) :=
  match fuel with
  | O => None
  | S fuel' =>
    let ids := fetch d page in
    if Nat.eqb (length ids) 0 then Some (d, totalCalculated, batchCount)
    else
      let '(d', calculated) := recalc ids d in
      if Nat.ltb (length ids) Service.BATCH_SIZE
      then Some (d', (totalCalculated + calculated)%nat, S batchCount)
      else pagedLoop fetch recalc fuel' (S page) (totalCalculated + calculated)%nat
             (S batchCount) d'
  end.

(** Two stores that differ at most in their match-score rows. *)
Definition sameTables (d d' : Repository.Db) : Prop :=
  Repository.t_vacancy d' = Repository.t_vacancy d
  /\ Repository.t_vacancySkill d' = Repository.t_vacancySkill d
  /\ Repository.t_workerProfile d' = Repository.t_workerProfile d
  /\ Repository.t_workerSkill d' = Repository.t_workerSkill d
  /\ Repository.t_workerEducation d' = Repository.t_workerEducation d
  /\ Repository.t_workerExperience d' = Repository.t_workerExperience d
  /\ Repository.t_securityEvent d' = Repository.t_securityEvent d.

(** The item counts of the pages [1 .. n] of the active-worker query. *)
Definition workerPageSizes (d : Repository.Db) (vacancyId : string) (n : nat) : list nat :=
  map (fun p => length (Repository.items
                          (Repository.getActiveWorkersForVacancy d vacancyId p
                             Service.BATCH_SIZE)))
      (seq 1 n).

(** One element of a chunk: run [process] and add its count. *)
Definition processOne (process : string -> Repository.Db -> Repository.Db * nat)
    (acc : Repository.Db * nat) (id : string) : Repository.Db * nat :=
  let '(d, n) := acc in let '(d', k) := process id d in (d', (n + k)%nat).

(** Counters read off a caller's trace. *)
Definition acquired (p : Cache.proc) : nat := Cache.count_event Cache.EvAcquired (Cache.trace p).
Definition denied (p : Cache.proc) : nat := Cache.count_event Cache.EvDenied (Cache.trace p).
Definition lockedFetches (p : Cache.proc) : nat :=
  Cache.count_event Cache.EvFetchLocked (Cache.trace p).
Definition fallbackFetches (p : Cache.proc) : nat :=
  Cache.count_event Cache.EvFetchFallback (Cache.trace p).

(** The control points between a successful [acquireLock] and [releaseLock]. *)
Definition held (p : Cache.proc) : bool :=
  match Cache.at_pc p with
  | Cache.DoubleCheck | Cache.Fetch | Cache.Store _ | Cache.Release _ => true
  | _ => false
  end.

(** What the trace of a caller looks like at each control point. *)
Definition traceShape (p : Cache.proc) : Prop :=
  match Cache.at_pc p with
  | Cache.Start =>
    acquired p = O /\ denied p = O /\ lockedFetches p = O /\ fallbackFetches p = O
  | Cache.Acquire n =>
    (n < 5)%nat /\ acquired p = O /\ denied p = n
    /\ lockedFetches p = O /\ fallbackFetches p = O
  | Cache.Sleep n | Cache.Retry n =>
    (n < 5)%nat /\ acquired p = O /\ denied p = S n
    /\ lockedFetches p = O /\ fallbackFetches p = O
  | Cache.DoubleCheck | Cache.Fetch =>
    acquired p = 1%nat /\ lockedFetches p = O /\ fallbackFetches p = O
  | Cache.Store _ =>
    acquired p = 1%nat /\ lockedFetches p = 1%nat /\ fallbackFetches p = O
  | Cache.Release _ =>
    acquired p = 1%nat /\ (lockedFetches p <= 1)%nat /\ fallbackFetches p = O
  | Cache.Fallback =>
    acquired p = O /\ denied p = 5%nat /\ lockedFetches p = O /\ fallbackFetches p = O
  | Cache.Done _ =>
    ((acquired p <= 1)%nat /\ (lockedFetches p <= acquired p)%nat /\ fallbackFetches p = O)
    \/ (acquired p = O /\ denied p = 5%nat /\ lockedFetches p = O
        /\ fallbackFetches p = 1%nat)
  end.

(** What caller [p] contributes to the two-caller invariant; [q] is the
    other caller. *)
Definition callerInv (fetcher : nat -> list Cache.CachedMatchScore) (now key : string)
    (p q : Cache.proc) (s : Cache.shared) : Prop :=
  traceShape p
  /\ match Cache.at_pc p with
     | Cache.Fetch => Cache.getMatches key (Cache.store s) = None
     | Cache.Store m =>
       m <> nil /\ (fallbackFetches q = O -> m = fetcher O)
       /\ Cache.getMatches key (Cache.store s) = None
     | Cache.Release m | Cache.Done m =>
       (lockedFetches p = 1%nat ->
          Cache.getMatches key (Cache.store s) = Some (Cache.cacheData now m)
          /\ (fallbackFetches q = O -> m = fetcher O))
       /\ (lockedFetches p = O -> fallbackFetches p = O ->
             Cache.getMatches key (Cache.store s) = Some m)
     | _ => True
     end.

(** The part of the two-caller invariant that concerns both callers: who
    holds the lock, how many fetches happened, and that the cache is filled
    only by a fetch under the lock. *)
Definition duoInv (key ownerP ownerQ : string) (p q : Cache.proc) (s : Cache.shared) : Prop :=
  (held p = true -> holder key (Cache.store s) = Some ownerP)
  /\ (held q = true -> holder key (Cache.store s) = Some ownerQ)
  /\ (held p = false -> held q = false ->
        Cache.store s !! Cache.lockKeyOf key = None)
  /\ Cache.calls s
     = (lockedFetches p + lockedFetches q + fallbackFetches p + fallbackFetches q)%nat
  /\ (lockedFetches p + lockedFetches q <= 1)%nat
  /\ (Cache.getMatches key (Cache.store s) <> None ->
        (lockedFetches p + lockedFetches q = 1)%nat).

(** The invariant of two interleaved callers of one key. *)
Definition twoCallersInv (fetcher : nat -> list Cache.CachedMatchScore)
    (now key ownerA ownerB : string) (d : Cache.duo) : Prop :=
  callerInv fetcher now key (Cache.callerA d) (Cache.callerB d) (Cache.world d)
  /\ callerInv fetcher now key (Cache.callerB d) (Cache.callerA d) (Cache.world d)
  /\ duoInv key ownerA ownerB (Cache.callerA d) (Cache.callerB d) (Cache.world d).

(** ** Sample data *)

Module Samples.

Definition noRequirements : Vacancy :=
  {| v_id := "v1"; v_open := true;
     experienceMinYears := None; experienceMaxYears := None;
     educationMinLevel := None;
     locationCity := None; locationState := None; isRemote := false;
     salaryMin := None; salaryMax := None; salaryIsNegotiable := false |}.

Definition tashkentJob : Vacancy :=
  {| v_id := "v1"; v_open := true;
     experienceMinYears := Some 1%Z; experienceMaxYears := None;
     educationMinLevel := Some "BACHELOR"%string;
     locationCity := Some "Tashkent"%string; locationState := Some "Tashkent"%string;
     isRemote := false;
     salaryMin := Some 1000; salaryMax := Some 2000; salaryIsNegotiable := true |}.

Definition fixedSalaryJob : Vacancy :=
  {| v_id := "v1"; v_open := true;
     experienceMinYears := None; experienceMaxYears := None;
     educationMinLevel := None;
     locationCity := None; locationState := None; isRemote := false;
     salaryMin := Some 1000; salaryMax := Some 2000; salaryIsNegotiable := false |}.

Definition needsFiveYears : Vacancy :=
  {| v_id := "v1"; v_open := true;
     experienceMinYears := Some 5%Z; experienceMaxYears := None;
     educationMinLevel := None;
     locationCity := None; locationState := None; isRemote := false;
     salaryMin := None; salaryMax := None; salaryIsNegotiable := false |}.

Definition skill (code : string) : WorkerSkill :=
  {| ws_userId := "w1"; ws_skillCode := code |}.

Definition wanted (code : string) (required : bool) : VacancySkill :=
  {| vs_vacancyId := "v1"; vs_skillCode := code; vs_isRequired := required |}.

Definition master : WorkerEducation :=
  {| we_userId := "w1"; we_degreeLevel := "MASTER" |}.

Definition fiveYears : WorkerExperience :=
  {| wx_userId := "w1"; wx_startYear := Some 2020%Z; wx_endYear := Some 2025%Z |}.

Definition inTashkent : WorkerProfile :=
  {| wp_userId := "w1"; wp_city := Some "tashkent"%string; wp_state := None;
     wp_active := true |}.

End Samples.

Module CacheSamples.

Definition scored (workerId : string) (total : Q) : Cache.CachedMatchScore :=
  {| Cache.cm_workerId := workerId;
     Cache.cm_vacancyId := "v1";
     Cache.cm_scores :=
       {| skillScore := 0; experienceScore := 0; educationScore := 0;
          locationScore := 0; salaryScore := 0; totalScore := total;
          skillMatchCount := 0; skillRequiredCount := 0; isRecommended := false |};
     Cache.cm_cachedAt := "t0" |}.

Definition three : list Cache.CachedMatchScore :=
  scored "w1" 40 :: scored "w2" 90 :: scored "w3" 75 :: nil.

End CacheSamples.

Module WorldSamples.

(** One open vacancy and no worker at all. *)
Definition onlyVacancy : Service.World :=
  {| Service.db :=
       {| Repository.t_vacancy := Samples.noRequirements :: nil;
          Repository.t_vacancySkill := nil;
          Repository.t_workerProfile := nil;
          Repository.t_workerSkill := nil;
          Repository.t_workerEducation := nil;
          Repository.t_workerExperience := nil;
          Repository.t_matchScore := ∅;
          Repository.t_securityEvent := nil |};
     Service.cache := ∅ |}.

(** No vacancy; one active worker. *)
Definition onlyWorker : Service.World :=
  {| Service.db :=
       {| Repository.t_vacancy := nil;
          Repository.t_vacancySkill := nil;
          Repository.t_workerProfile := Samples.inTashkent :: nil;
          Repository.t_workerSkill := nil;
          Repository.t_workerEducation := nil;
          Repository.t_workerExperience := nil;
          Repository.t_matchScore := ∅;
          Repository.t_securityEvent := nil |};
     Service.cache := ∅ |}.

End WorldSamples.

Module PopulationSamples.

Definition worker (i : nat) : WorkerProfile :=
  {| wp_userId := String (ascii_of_nat (48 + i / 100))
                    (String (ascii_of_nat (48 + (i / 10) mod 10))
                       (String (ascii_of_nat (48 + i mod 10)) EmptyString));
     wp_city := None; wp_state := None; wp_active := true |}.

(** One open vacancy ["v1"] and 450 active workers ["000"] .. ["449"]. *)
Definition workers450 : Service.World :=
  {| Service.db :=
       {| Repository.t_vacancy := Samples.noRequirements :: nil;
          Repository.t_vacancySkill := nil;
          Repository.t_workerProfile := map worker (seq 0 450);
          Repository.t_workerSkill := nil;
          Repository.t_workerEducation := nil;
          Repository.t_workerExperience := nil;
          Repository.t_matchScore := ∅;
          Repository.t_securityEvent := nil |};
     Service.cache := ∅ |}.

End PopulationSamples.

Module FlightSamples.

(** [A] runs to completion after both callers have missed the cache; then
    [B] acquires the lock. *)
Definition aThenB_hit : list bool :=
  true :: false :: true :: true :: true :: true :: true
  :: false :: false :: false :: nil.

Definition aThenB_miss : list bool :=
  true :: false :: true :: true :: true :: true :: true
  :: false :: false :: false :: false :: false :: nil.

End FlightSamples.

(** A bound on the steps a caller still takes from a control point. *)
Definition stepsLeft (c : Cache.pc) : nat :=
  match c with
  | Cache.Start => 18
  | Cache.Acquire n => 17 - 3 * n
  | Cache.Sleep n => 16 - 3 * n
  | Cache.Retry n => 15 - 3 * n
  | Cache.DoubleCheck => 4
  | Cache.Fetch => 3
  | Cache.Store _ => 2
  | Cache.Release _ => 1
  | Cache.Fallback => 1
  | Cache.Done _ => 0
  end%nat.

(** The attempt counter stays below [LOCK_MAX_RETRIES] inside the loop. *)
Definition attemptsOk (c : Cache.pc) : Prop :=
  match c with
  | Cache.Acquire n | Cache.Sleep n | Cache.Retry n => (n < 5)%nat
  | _ => True
  end.

(** Who may hold the lock on [key] when [p] (token [ownerP]) and [q] (token
    [ownerQ]) are the only callers and no lease expires. *)
Definition lockInv (key ownerP ownerQ : string) (p q : Cache.proc)
    (r : gmap string Cache.rvalue) : Prop :=
  (held p = true -> holder key r = Some ownerP)
  /\ (held q = true -> holder key r = Some ownerQ)
  /\ (held p = false -> held q = false -> r !! Cache.lockKeyOf key = None).

(** The match-score row of a pair as the batch path computes it when each
    feature list is what the query for that one worker, resp. that one
    vacancy, returns on store [d]. *)
Definition batchRow (thisYear : Z) (now : string) (d : Repository.Db)
    (workerId vacancyId : string) (vacancy : Vacancy) : Repository.MatchScore :=
  {| Repository.ms_scores :=
       Repository.calculateScoreComponents thisYear
         (Repository.getWorkerSkills d workerId)
         (Repository.getWorkerEducation d workerId)
         (Repository.getWorkerExperience d workerId)
         (Repository.getVacancySkills d vacancyId)
         vacancy
         (Repository.getWorkerProfile d workerId);
     Repository.ms_calculatedAt := now |}.

(** Whether an id names a vacancy of the store. *)
Definition namesVacancy (d : Repository.Db) (vacancyId : string) : bool :=
  match Repository.getVacancy d vacancyId with
  | Some _ => true
  | None => false
  end.

(** Two stores with the same vacancies, vacancy skills and worker data. *)
Definition sameFeatures (d d' : Repository.Db) : Prop :=
  Repository.t_vacancy d' = Repository.t_vacancy d
  /\ Repository.t_vacancySkill d' = Repository.t_vacancySkill d
  /\ Repository.t_workerProfile d' = Repository.t_workerProfile d
  /\ Repository.t_workerSkill d' = Repository.t_workerSkill d
  /\ Repository.t_workerEducation d' = Repository.t_workerEducation d
  /\ Repository.t_workerExperience d' = Repository.t_workerExperience d.

(** Rows in descending order of total score. *)
Definition rowsDesc (l : list Repository.MatchRow) : Prop :=
  StronglySorted
    (fun a b => Repository.row_totalScore b <= Repository.row_totalScore a) l.

(** What a [findMany] with filter [where_], descending order and [take]
    returns: at most [take] rows of the table that pass the filter, no row
    twice, in descending order, and no row that was left out scores higher
    than a row that was returned. *)
Definition bestRows (where_ : Repository.MatchRow -> bool) (take : nat)
    (d : Repository.Db) (res : list Repository.MatchRow) : Prop :=
  (length res <= take)%nat
  /\ rowsDesc res
  /\ List.NoDup res
  /\ (forall r, In r res ->
        where_ r = true
        /\ Repository.findMatchScore d (Repository.row_workerId r) (Repository.row_vacancyId r)
           = Some r.2)
  /\ (forall r,
        Repository.findMatchScore d (Repository.row_workerId r) (Repository.row_vacancyId r)
        = Some r.2 ->
        where_ r = true ->
        In r res
        \/ (length res = take
            /\ forall x, In x res ->
                 Repository.row_totalScore r <= Repository.row_totalScore x)).

(** What a read through the cache does, for a caller left alone: [fetched]
    is what the fetcher would give, [result] the list handed back. *)
Definition readThrough (key : string) (fetched : list Cache.CachedMatchScore)
    (now : string) (limit : nat) (w w' : Service.World)
    (result : list Cache.CachedMatchScore) : Prop :=
  Service.db w' = Service.db w
  /\ (length result <= limit)%nat
  /\ match Cache.getMatches key (Service.cache w) with
     | Some cached => result = firstn limit cached /\ Service.cache w' = Service.cache w
     | None =>
       result = firstn limit fetched
       /\ (Service.cache w !! Cache.lockKeyOf key = None ->
             Service.cache w' = Cache.setMatches now key fetched (Service.cache w))
       /\ (Service.cache w !! Cache.lockKeyOf key <> None ->
             Service.cache w' = Service.cache w)
     end.




(** A text of ASCII characters only (every byte below 128). *)
Definition isAscii (s : string) : bool :=
  forallb (fun c => Nat.ltb (nat_of_ascii c) 128) (list_ascii_of_string s).

Definition isAsciiOpt (x : option string) : bool :=
  match x with
  | Some s => isAscii s
  | None => true
  end.

Module TieSamples.

(** Skill codes ["s00"], ["s01"], ... *)
Definition code (i : nat) : string :=
  String "s" (String (ascii_of_nat (48 + i / 10))
                (String (ascii_of_nat (48 + i mod 10)) EmptyString)).

(** A worker with the first [n] codes, a vacancy that requires the first
    [n] codes. *)
Definition skills (n : nat) : list WorkerSkill := map (fun i => Samples.skill (code i)) (seq 0 n).

Definition required (n : nat) : list VacancySkill :=
  map (fun i => Samples.wanted (code i) true) (seq 0 n).



End TieSamples.

Module PairSamples.

(** One open vacancy ["v1"] with two wanted skills and one active worker
    ["w1"] with one of them. *)
Definition oneEach : Repository.Db :=
  {| Repository.t_vacancy := Samples.tashkentJob :: nil;
     Repository.t_vacancySkill := Samples.wanted "go" true :: Samples.wanted "sql" false :: nil;
     Repository.t_workerProfile := Samples.inTashkent :: nil;
     Repository.t_workerSkill := Samples.skill "go" :: nil;
     Repository.t_workerEducation := Samples.master :: nil;
     Repository.t_workerExperience := Samples.fiveYears :: nil;
     Repository.t_matchScore := ∅;
     Repository.t_securityEvent := nil |}.

End PairSamples.

(** * Theorems *)

(** ** Rounding *)

Section Rounding.

Lemma Math_round_comp (x y : Q) : x == y -> Js.Math_round x == Js.Math_round y.
Proof.
  intros E. unfold Js.Math_round.
  assert (H : x + (1 # 2) == y + (1 # 2)) by (rewrite E; reflexivity).
  rewrite (Qfloor_comp _ _ H). reflexivity.
Qed.

Lemma Math_round_mono (x y : Q) : x <= y -> Js.Math_round x <= Js.Math_round y.
Proof.
  intros L. unfold Js.Math_round. rewrite <- Zle_Qle.
  apply Qfloor_resp_le. lra.
Qed.

Lemma Math_round_Z (z : Z) : Js.Math_round (inject_Z z) = inject_Z z.
Proof.
  unfold Js.Math_round. f_equal.
  pose proof (Qfloor_le (inject_Z z + (1 # 2))) as Hl.
  pose proof (Qlt_floor (inject_Z z + (1 # 2))) as Hu.
  set (f := Qfloor (inject_Z z + (1 # 2))) in *.
  assert (A : inject_Z f < inject_Z (z + 1)).
  { rewrite inject_Z_plus. change (inject_Z 1) with 1. lra. }
  assert (B : inject_Z z < inject_Z (f + 1)) by lra.
  rewrite <- Zlt_Qlt in A, B. lia.
Qed.

(** [Math.round] is within one half of its argument. *)
Lemma Math_round_near (x : Q) :
  x - (1 # 2) < Js.Math_round x /\ Js.Math_round x <= x + (1 # 2).
Proof.
  unfold Js.Math_round.
  pose proof (Qfloor_le (x + (1 # 2))) as Hl.
  pose proof (Qlt_floor (x + (1 # 2))) as Hu.
  rewrite inject_Z_plus in Hu. change (inject_Z 1) with 1 in Hu.
  split; lra.
Qed.

(** [round2 x] is a whole number of hundredths, at most 0.005 away from [x]. *)
Lemma round2_spec (x : Q) :
  (exists k : Z, round2 x == inject_Z k / 100)
  /\ x - (1 # 200) < round2 x /\ round2 x <= x + (1 # 200).
Proof.
  unfold round2. split.
  - exists (Qfloor (x * 100 + (1 # 2))). reflexivity.
  - destruct (Math_round_near (x * 100)) as [A B].
    set (r := Js.Math_round (x * 100)) in *.
    split.
    + apply Qlt_shift_div_l; lra.
    + apply Qle_shift_div_r; lra.
Qed.

Lemma round2_bounds (x : Q) : 0 <= x <= 100 -> 0 <= round2 x <= 100.
Proof.
  intros [L U]. unfold round2.
  assert (A : Js.Math_round (inject_Z 0) <= Js.Math_round (x * 100)).
  { apply Math_round_mono. change (inject_Z 0) with 0. lra. }
  assert (B : Js.Math_round (x * 100) <= Js.Math_round (inject_Z 10000)).
  { apply Math_round_mono. change (inject_Z 10000) with 10000. lra. }
  rewrite Math_round_Z in A, B.
  change (inject_Z 0) with 0 in A. change (inject_Z 10000) with 10000 in B.
  split.
  - apply Qle_shift_div_l; lra.
  - apply Qle_shift_div_r; lra.
Qed.

Lemma Math_max_lower (a b : Q) : a <= Js.Math_max a b.
Proof.
  unfold Js.Math_max. destruct (Qle_bool a b) eqn:E.
  - apply Qle_bool_iff in E. exact E.
  - apply Qle_refl.
Qed.

Lemma Math_max_upper (a b c : Q) : a <= c -> b <= c -> Js.Math_max a b <= c.
Proof. intros A B. unfold Js.Math_max. destruct (Qle_bool a b); assumption. Qed.

Lemma Math_min_upper (a b : Q) : Js.Math_min a b <= b.
Proof.
  unfold Js.Math_min. destruct (Qle_bool a b) eqn:E.
  - apply Qle_bool_iff in E. exact E.
  - apply Qle_refl.
Qed.

Lemma Math_min_lower (a b c : Q) : c <= a -> c <= b -> c <= Js.Math_min a b.
Proof. intros A B. unfold Js.Math_min. destruct (Qle_bool a b); assumption. Qed.

End Rounding.

(** ** The weight invariant, in doubles *)

Section DoubleRounding.

Lemma rint_near (q : Q) :
  q - (1 # 2) <= inject_Z (Ieee.rint q) /\ inject_Z (Ieee.rint q) <= q + (1 # 2).
Proof.
  unfold Ieee.rint.
  pose proof (Qfloor_le q) as Hl. pose proof (Qlt_floor q) as Hu.
  rewrite inject_Z_plus in Hu. change (inject_Z 1) with 1 in Hu.
  destruct (Qcompare (q - inject_Z (Qfloor q)) (1 # 2)) eqn:C.
  - apply Qeq_alt in C. destruct (Z.even (Qfloor q));
      rewrite ?inject_Z_plus; change (inject_Z 1) with 1; split; lra.
  - apply Qlt_alt in C. split; lra.
  - apply Qgt_alt in C. rewrite inject_Z_plus. change (inject_Z 1) with 1. split; lra.
Qed.

Lemma two_neq_0 : ~ 2 == 0.
Proof. discriminate. Qed.

Lemma pow2_pos (e : Z) : 0 < 2 ^ e.
Proof. apply Qpower_0_lt. reflexivity. Qed.

Lemma pow2_succ (e : Z) : 2 ^ (e + 1) == 2 ^ e * 2.
Proof. rewrite Qpower_plus by apply two_neq_0. reflexivity. Qed.

Lemma log2_lower (n : Z) : (0 < n)%Z -> 2 ^ Z.log2 n <= inject_Z n.
Proof.
  intros H. pose proof (Z.log2_spec n H) as [L _].
  rewrite <- (Zpower_Qpower 2 (Z.log2 n)) by apply Z.log2_nonneg.
  rewrite <- Zle_Qle. exact L.
Qed.

Lemma log2_upper (n : Z) : (0 < n)%Z -> inject_Z n <= 2 ^ (Z.log2 n + 1).
Proof.
  intros H. pose proof (Z.log2_spec n H) as [_ U].
  assert (E : (0 <= Z.log2 n + 1)%Z) by (pose proof (Z.log2_nonneg n); lia).
  rewrite <- (Zpower_Qpower 2 (Z.log2 n + 1)) by exact E.
  rewrite <- Zle_Qle. unfold Z.succ in U. lia.
Qed.

(** The significand of a positive number has at least 53 bits. *)
Lemma exponent_lower (a : Q) : 0 < a -> 2 ^ 52 * 2 ^ Ieee.exponent a <= a.
Proof.
  intros Ha. unfold Ieee.exponent.
  set (e := (Z.log2 (Qnum a) - Z.log2 (Z.pos (Qden a)) - 53)%Z).
  pose proof (pow2_pos e) as Pe.
  destruct (Qle_bool (2 ^ 53) (a / 2 ^ e)) eqn:T.
  - apply Qle_bool_iff in T. rewrite pow2_succ.
    apply (Qmult_le_compat_r _ _ (2 ^ e)) in T; [| lra].
    assert (E : a / 2 ^ e * 2 ^ e == a) by (field; lra).
    rewrite E in T. change (2 ^ 53) with (2 ^ 52 * 2) in T. lra.
  - clear T.
    assert (Hn : (0 < Qnum a)%Z).
    { destruct a as [n d]. unfold Qlt in Ha. cbn in *. lia. }
    pose proof (log2_lower (Qnum a) Hn) as L.
    pose proof (log2_upper (Z.pos (Qden a)) eq_refl) as U.
    assert (Hd : 0 < inject_Z (Z.pos (Qden a))) by reflexivity.
    assert (Ee : 2 ^ 52 * 2 ^ e
                 == 2 ^ Z.log2 (Qnum a) / 2 ^ (Z.log2 (Z.pos (Qden a)) + 1)).
    { rewrite <- Qpower_plus by apply two_neq_0.
      rewrite <- Qpower_minus by apply two_neq_0.
      apply Qpower_comp; [reflexivity | unfold e; lia]. }
    rewrite Ee.
    apply (Qle_trans _ (inject_Z (Qnum a) / inject_Z (Z.pos (Qden a))));
      [| destruct a as [n d]; cbn [Qnum Qden]; rewrite <- Qmake_Qdiv; apply Qle_refl].
    pose proof (pow2_pos (Z.log2 (Qnum a))) as P1.
    pose proof (pow2_pos (Z.log2 (Z.pos (Qden a)) + 1)) as P2.
    apply Qle_shift_div_l; [exact Hd |].
    assert (E3 : 2 ^ Z.log2 (Qnum a) / 2 ^ (Z.log2 (Z.pos (Qden a)) + 1)
                 * inject_Z (Z.pos (Qden a))
                 == 2 ^ Z.log2 (Qnum a)
                    * (inject_Z (Z.pos (Qden a)) / 2 ^ (Z.log2 (Z.pos (Qden a)) + 1)))
      by (field; lra).
    rewrite E3.
    assert (R : inject_Z (Z.pos (Qden a)) / 2 ^ (Z.log2 (Z.pos (Qden a)) + 1) <= 1).
    { apply Qle_shift_div_r; [exact P2 | lra]. }
    assert (R0 : 0 <= inject_Z (Z.pos (Qden a)) / 2 ^ (Z.log2 (Z.pos (Qden a)) + 1)).
    { apply Qle_shift_div_l; [exact P2 | lra]. }
    eapply Qle_trans; [| exact L].
    rewrite <- (Qmult_1_r (2 ^ Z.log2 (Qnum a))) at 2.
    apply Qmult_le_l; [exact P1 | exact R].
Qed.



Lemma exponent_upper (a : Q) : 0 < a -> a < 2 ^ 53 * 2 ^ Ieee.exponent a.
Proof.
  intros Ha. unfold Ieee.exponent.
  set (e := (Z.log2 (Qnum a) - Z.log2 (Z.pos (Qden a)) - 53)%Z).
  pose proof (pow2_pos e) as Pe.
  destruct (Qle_bool (2 ^ 53) (a / 2 ^ e)) eqn:T.
  - clear T. rewrite pow2_succ.
    assert (Hn : (0 < Qnum a)%Z).
    { destruct a as [n d]. unfold Qlt in Ha. cbn in *. lia. }
    pose proof (Z.log2_spec (Qnum a) Hn) as [_ U].
    pose proof (log2_lower (Z.pos (Qden a)) eq_refl) as L.
    assert (U' : inject_Z (Qnum a) < 2 ^ (Z.log2 (Qnum a) + 1)).
    { assert (E : (0 <= Z.log2 (Qnum a) + 1)%Z)
        by (pose proof (Z.log2_nonneg (Qnum a)); lia).
      rewrite <- (Zpower_Qpower 2 (Z.log2 (Qnum a) + 1)) by exact E.
      rewrite <- Zlt_Qlt. unfold Z.succ in U. exact U. }
    assert (Hd : 0 < inject_Z (Z.pos (Qden a))) by reflexivity.
    assert (Ee : 2 ^ 53 * (2 ^ e * 2)
                 == 2 ^ (Z.log2 (Qnum a) + 1) / 2 ^ Z.log2 (Z.pos (Qden a))).
    { rewrite <- pow2_succ. rewrite <- Qpower_plus by apply two_neq_0.
      rewrite <- Qpower_minus by apply two_neq_0.
      apply Qpower_comp; [reflexivity | unfold e; lia]. }
    rewrite Ee.
    apply (Qle_lt_trans _ (inject_Z (Qnum a) / inject_Z (Z.pos (Qden a))));
      [destruct a as [n d]; cbn [Qnum Qden]; rewrite <- Qmake_Qdiv; apply Qle_refl |].
    pose proof (pow2_pos (Z.log2 (Z.pos (Qden a)))) as P2.
    pose proof (pow2_pos (Z.log2 (Qnum a) + 1)) as P1.
    apply Qlt_shift_div_r; [exact Hd |].
    assert (E3 : 2 ^ (Z.log2 (Qnum a) + 1) / 2 ^ Z.log2 (Z.pos (Qden a))
                 * inject_Z (Z.pos (Qden a))
                 == 2 ^ (Z.log2 (Qnum a) + 1)
                    * (inject_Z (Z.pos (Qden a)) / 2 ^ Z.log2 (Z.pos (Qden a))))
      by (field; lra).
    rewrite E3.
    assert (R : 1 <= inject_Z (Z.pos (Qden a)) / 2 ^ Z.log2 (Z.pos (Qden a))).
    { apply Qle_shift_div_l; [exact P2 | lra]. }
    eapply Qlt_le_trans; [exact U' |].
    rewrite <- (Qmult_1_r (2 ^ (Z.log2 (Qnum a) + 1))) at 1.
    apply Qmult_le_l; [exact P1 | exact R].
  - assert (L : a / 2 ^ e < 2 ^ 53).
    { destruct (Qlt_le_dec (a / 2 ^ e) (2 ^ 53)) as [L | L]; [exact L |].
      apply Qle_bool_iff in L. congruence. }
    apply (Qmult_lt_compat_r _ _ (2 ^ e)) in L; [| exact Pe].
    assert (E : a / 2 ^ e * 2 ^ e == a) by (field; lra).
    rewrite E in L. exact L.
Qed.

(** [double x] is a binary floating-point number with a significand of 53
    bits, and no such number is nearer to [x] than half a unit in the
    last place. *)
Lemma double_format (x : Q) :
  ~ x == 0 ->
  exists (m e : Z),
    Qabs (Ieee.double x) == inject_Z m * 2 ^ e
    /\ (2 ^ 52 <= m <= 2 ^ 53)%Z
    /\ Qabs (inject_Z m * 2 ^ e - Qabs x) <= (1 # 2) * 2 ^ e.
Proof.
  intros Hx. unfold Ieee.double.
  assert (Z0 : Qeq_bool x 0 = false).
  { destruct (Qeq_bool x 0) eqn:E; [| reflexivity]. apply Qeq_bool_iff in E. tauto. }
  rewrite Z0. set (a := Qabs x).
  assert (Ha : 0 < a).
  { unfold a. destruct (Qlt_le_dec 0 x) as [L | L].
    - rewrite Qabs_pos by lra. exact L.
    - destruct (Qlt_le_dec x 0) as [L' | L'].
      + rewrite Qabs_neg by lra. lra.
      + exfalso. apply Hx. lra. }
  pose proof (exponent_lower a Ha) as EL. pose proof (exponent_upper a Ha) as EU.
  set (e := Ieee.exponent a) in *. pose proof (pow2_pos e) as Pe.
  destruct (rint_near (a / 2 ^ e)) as [R1 R2].
  exists (Ieee.rint (a / 2 ^ e)), e.
  set (m := Ieee.rint (a / 2 ^ e)) in *.
  assert (Q1 : 2 ^ 52 <= a / 2 ^ e) by (apply Qle_shift_div_l; [exact Pe | exact EL]).
  assert (Q2 : a / 2 ^ e < 2 ^ 53) by (apply Qlt_shift_div_r; [exact Pe | exact EU]).
  assert (M : (2 ^ 52 <= m <= 2 ^ 53)%Z).
  { change (2 ^ 52) with (inject_Z (2 ^ 52)) in Q1.
    change (2 ^ 53) with (inject_Z (2 ^ 53)) in Q2.
    assert (A : inject_Z (2 ^ 52 - 1) < inject_Z m).
    { unfold Z.sub. rewrite inject_Z_plus. change (inject_Z (- (1))) with (-1). lra. }
    assert (B : inject_Z m < inject_Z (2 ^ 53 + 1)).
    { rewrite inject_Z_plus. change (inject_Z 1) with 1. lra. }
    rewrite <- Zlt_Qlt in A, B. lia. }
  assert (Hm : 0 <= inject_Z m * 2 ^ e).
  { apply Qmult_le_0_compat; [| lra]. change 0 with (inject_Z 0). rewrite <- Zle_Qle. lia. }
  split; [| split; [exact M |]].
  - rewrite Qred_correct. destruct (Qle_bool 0 x).
    + apply Qabs_pos, Hm.
    + rewrite Qabs_opp. apply Qabs_pos, Hm.
  - apply Qabs_Qle_condition.
    apply (Qmult_le_compat_r _ _ (2 ^ e)) in R1; [| lra].
    apply (Qmult_le_compat_r _ _ (2 ^ e)) in R2; [| lra].
    assert (E1 : (a / 2 ^ e - (1 # 2)) * 2 ^ e == a - (1 # 2) * 2 ^ e)
      by (field; lra).
    assert (E2 : (a / 2 ^ e + (1 # 2)) * 2 ^ e == a + (1 # 2) * 2 ^ e)
      by (field; lra).
    rewrite E1 in R1. rewrite E2 in R2. split; lra.
Qed.









End DoubleRounding.




(** Scenario A of the specification: the vacancy requires SQL and PYTHON,
    the worker has SQL; the single-pair skill score is 50. *)
Example scenario_A_skill_score :
  Service.calculateSkillScore (Samples.skill "SQL" :: nil)
    (Samples.wanted "SQL" true :: Samples.wanted "PYTHON" true :: nil)
    (requiredOf (Samples.wanted "SQL" true :: Samples.wanted "PYTHON" true :: nil))
  == 50.
Proof. reflexivity. Qed.

(** Scenario B: a minimum of 5 years against 2 years of experience scores
    [100 - 100 * (3 / 5) = 40] in the single-pair path. *)
Example scenario_B_experience_score :
  Service.calculateExperienceScore 2026
    ({| wx_userId := "w1"; wx_startYear := Some 2020%Z; wx_endYear := Some 2022%Z |} :: nil)
    Samples.needsFiveYears
  == 40.
Proof. reflexivity. Qed.

(** ** Sub-score facts *)

Section SubScores.

Lemma Math_max_comp (a b b' : Q) : b == b' -> Js.Math_max a b == Js.Math_max a b'.
Proof.
  intros E. unfold Js.Math_max.
  destruct (Qle_bool a b) eqn:L, (Qle_bool a b') eqn:L'; try assumption; try reflexivity.
  - apply Qle_bool_iff in L. rewrite E in L. apply Qle_bool_iff in L. congruence.
  - apply Qle_bool_iff in L'. rewrite <- E in L'. apply Qle_bool_iff in L'. congruence.
Qed.

Lemma Math_max_0_neg (b : Q) : b <= 0 -> Js.Math_max 0 b == 0.
Proof.
  intros L. unfold Js.Math_max. destruct (Qle_bool 0 b) eqn:E; [| reflexivity].
  apply Qle_bool_iff in E. lra.
Qed.

Lemma Qeq_bool_false_neq (a b : Q) : Qeq_bool a b = false -> ~ a == b.
Proof. intros E H. apply Qeq_bool_iff in H. congruence. Qed.

End SubScores.

(** Above the default window the single-pair path takes 10 points off per
    year in excess. *)
Lemma experience_single_pair_above_window
    (thisYear : Z) (workerExperience : list WorkerExperience) (vacancy : Vacancy) :
  experienceMinYears vacancy = None ->
  experienceMaxYears vacancy = None ->
  (10 < totalYears thisYear workerExperience)%Z ->
  Service.calculateExperienceScore thisYear workerExperience vacancy
  == Js.Math_max 0 (100 - 10 * inject_Z (totalYears thisYear workerExperience - 10)).
Proof.
  intros Hmin Hmax L. unfold Service.calculateExperienceScore.
  rewrite Hmin, Hmax. cbn [Js.orZ]. change (0 + 10)%Z with 10%Z. cbn [Z.eqb andb].
  set (total := totalYears thisYear workerExperience) in *.
  destruct (Z.leb_spec 0 total); [| lia].
  destruct (Z.leb_spec total 10); [lia |]. cbn [andb].
  destruct (Z.ltb_spec total 0); [lia |].
  apply Math_max_comp. change (inject_Z 10) with 10. field.
Qed.

(** C3 (as amended). When the vacancy declares neither a minimum nor a
    maximum experience, the batch path scores 50 for every experience list;
    the single-pair path instead falls back to the window of 0 to 10 years
    and scores 100 whenever the worker's total lies in that window, so for
    an empty experience list. *)
Theorem experience_score_without_bounds
    (thisYear : Z) (workerExperience : list WorkerExperience) (vacancy : Vacancy) :
  experienceMinYears vacancy = None ->
  experienceMaxYears vacancy = None ->
  Repository.calculateExperienceScore thisYear workerExperience vacancy = 50
  /\ ((0 <= totalYears thisYear workerExperience <= 10)%Z ->
      Service.calculateExperienceScore thisYear workerExperience vacancy = 100)
  /\ Service.calculateExperienceScore thisYear nil vacancy = 100.
Proof.
  intros Hmin Hmax.
  unfold Repository.calculateExperienceScore, Service.calculateExperienceScore.
  rewrite Hmin, Hmax. cbn [Js.truthyZ Js.orZ negb andb].
  change (0 + 10)%Z with 10%Z. cbn [Z.eqb andb].
  split; [reflexivity |]. split; [| reflexivity].
  intros [L U].
  destruct (Z.leb_spec 0 (totalYears thisYear workerExperience)); [| lia].
  destruct (Z.leb_spec (totalYears thisYear workerExperience) 10); [| lia].
  reflexivity.
Qed.

Lemma experience_score_without_bounds_witness :
  Repository.calculateExperienceScore 2026 nil Samples.noRequirements = 50
  /\ Service.calculateExperienceScore 2026 nil Samples.noRequirements = 100.
Proof.
  destruct (experience_score_without_bounds 2026 nil Samples.noRequirements
              eq_refl eq_refl) as [B [_ S]].
  split; [exact B | exact S].
Defined.

(** C3 as stated fails in the single-pair path: with no declared bounds and
    no experience records the score is 100, not 50. *)
Lemma experience_single_pair_not_neutral :
  experienceMinYears Samples.noRequirements = None
  /\ experienceMaxYears Samples.noRequirements = None
  /\ Service.calculateExperienceScore 2026 nil Samples.noRequirements == 100
  /\ ~ Service.calculateExperienceScore 2026 nil Samples.noRequirements == 50.
Proof.
  repeat split; try reflexivity.
  intros H. vm_compute in H. discriminate H.
Qed.

(** C4. The single-pair path recommends exactly when the total score is at
    least 70; the batch path recommends exactly when the total score is at
    least 70 and the worker skills matching a required skill number at
    least half the required skills; the two policies are distinct: on one
    and the same input both totals reach 70 and only the single-pair path
    recommends. *)
Theorem recommendation_policies :
  (forall thisYear workerSkills workerEducation workerExperience vacancySkills
          vacancy workerProfile,
     let single := Service.computeScore thisYear workerSkills workerEducation
                     workerExperience vacancySkills vacancy workerProfile in
     isRecommended single = true <-> 70 <= totalScore single)
  /\ (forall thisYear workerSkills workerEducation workerExperience vacancySkills
             vacancy workerProfile,
     let batch := Repository.calculateScoreComponents thisYear workerSkills
                     workerEducation workerExperience vacancySkills vacancy
                     workerProfile in
     isRecommended batch = true <->
       70 <= totalScore batch
       /\ 0.5 * nlen (requiredOf vacancySkills)
          <= nlen (Repository.matchedRequiredSkills workerSkills vacancySkills))
  /\ (exists thisYear workerSkills workerEducation workerExperience vacancySkills
             vacancy workerProfile,
     let single := Service.computeScore thisYear workerSkills workerEducation
                     workerExperience vacancySkills vacancy workerProfile in
     let batch := Repository.calculateScoreComponents thisYear workerSkills
                     workerEducation workerExperience vacancySkills vacancy
                     workerProfile in
     70 <= totalScore single /\ 70 <= totalScore batch
     /\ isRecommended single = true /\ isRecommended batch = false).
Proof.
  split; [| split].
  - intros. subst single. cbn [isRecommended totalScore Service.computeScore].
    unfold Service.MIN_SCORE_THRESHOLD. apply Qle_bool_iff.
  - intros. subst batch.
    cbn [isRecommended totalScore Repository.calculateScoreComponents].
    rewrite andb_true_iff, !Qle_bool_iff.
    assert (E : nlen (requiredOf vacancySkills) * 0.5 == 0.5 * nlen (requiredOf vacancySkills))
      by ring.
    rewrite E. reflexivity.
  - exists 2026%Z,
      (Samples.skill "A" :: Samples.skill "B" :: Samples.skill "C" :: nil),
      (Samples.master :: nil), (Samples.fiveYears :: nil),
      (Samples.wanted "R" true :: Samples.wanted "A" false
         :: Samples.wanted "B" false :: Samples.wanted "C" false :: nil),
      Samples.tashkentJob, (Some Samples.inTashkent).
    cbv zeta. repeat split; try (vm_compute; congruence).
Qed.

Section Salary.

(** The deviation formula of the single-pair path on a positive midpoint:
    [distance / deviation] is 2, so the score is [max(0, -100)]. *)
Lemma salary_formula_positive_midpoint (vacancy : Vacancy) :
  0 < Service.midPointOf vacancy ->
  (if (Qeq_bool (Service.salaryMinOf vacancy) 0
       && Qeq_bool (Service.salaryMaxOf vacancy) 0)%bool
   then 50
   else if Qeq_bool ((1 # 2) * Service.midPointOf vacancy) 0 then 100
   else Js.Math_max 0
          (Js.Math_round
             ((1 - Qabs (0 - Service.midPointOf vacancy)
                   / ((1 # 2) * Service.midPointOf vacancy)) * 100 * 100) / 100))
  == 0.
Proof.
  intros Hmid.
  destruct (Qeq_bool (Service.salaryMinOf vacancy) 0) eqn:E1,
           (Qeq_bool (Service.salaryMaxOf vacancy) 0) eqn:E2; cbn [andb].
  1: { apply Qeq_bool_iff in E1, E2. unfold Service.midPointOf in Hmid.
       rewrite E1, E2 in Hmid. vm_compute in Hmid. discriminate Hmid. }
  all: destruct (Qeq_bool ((1 # 2) * Service.midPointOf vacancy) 0) eqn:E3;
    [ apply Qeq_bool_iff in E3; lra | ].
  all: apply Math_max_0_neg.
  all: assert (A : Qabs (0 - Service.midPointOf vacancy) == Service.midPointOf vacancy)
    by (rewrite Qabs_neg; lra).
  all: assert (R : Js.Math_round
         ((1 - Qabs (0 - Service.midPointOf vacancy)
               / ((1 # 2) * Service.midPointOf vacancy)) * 100 * 100)
         == inject_Z (-10000))
    by (rewrite <- Math_round_Z; apply Math_round_comp; rewrite A;
        change (inject_Z (-10000)) with (-10000); field; lra).
  all: rewrite R; vm_compute; discriminate.
Qed.

End Salary.

(** C10. In the single-pair path, a vacancy that is not negotiable, declares
    a minimum or a maximum salary and has a positive salary midpoint gets
    the salary score 0 whatever the worker profile is. *)
Theorem single_pair_salary_score_is_zero
    (workerProfile other : option WorkerProfile) (vacancy : Vacancy) :
  salaryIsNegotiable vacancy = false ->
  salaryMin vacancy <> None \/ salaryMax vacancy <> None ->
  0 < Service.midPointOf vacancy ->
  Service.calculateSalaryScore workerProfile vacancy == 0
  /\ Service.calculateSalaryScore other vacancy
     = Service.calculateSalaryScore workerProfile vacancy.
Proof.
  intros Hneg Hdecl Hmid. split; [| reflexivity].
  pose proof (salary_formula_positive_midpoint vacancy Hmid) as G.
  unfold Service.calculateSalaryScore. rewrite Hneg.
  destruct (salaryMin vacancy), (salaryMax vacancy); try exact G.
  destruct Hdecl as [H | H]; congruence.
Qed.

Lemma single_pair_salary_score_is_zero_witness :
  Service.calculateSalaryScore (Some Samples.inTashkent) Samples.fixedSalaryJob == 0.
Proof.
  apply (single_pair_salary_score_is_zero (Some Samples.inTashkent) None
           Samples.fixedSalaryJob).
  - reflexivity.
  - left. discriminate.
  - vm_compute. reflexivity.
Defined.

(** ** The cache writes *)

Section CacheWrites.

Import Cache.

Lemma insert_desc_perm (a : CachedMatchScore) (l : list CachedMatchScore) :
  Permutation (insert_desc a l) (a :: l).
Proof.
  induction l as [| b r IH]; cbn [insert_desc].
  - apply Permutation_refl.
  - destruct (Qle_bool (cm_totalScore b) (cm_totalScore a)).
    + apply Permutation_refl.
    + eapply Permutation_trans; [apply perm_skip, IH | apply perm_swap].
Qed.

Lemma sort_desc_perm (l : list CachedMatchScore) : Permutation (sort_desc l) l.
Proof.
  induction l as [| a r IH]; cbn [sort_desc].
  - apply Permutation_refl.
  - eapply Permutation_trans; [apply insert_desc_perm | apply perm_skip, IH].
Qed.

Lemma insert_desc_sorted (a : CachedMatchScore) (l : list CachedMatchScore) :
  sortedDesc l -> sortedDesc (insert_desc a l).
Proof.
  unfold sortedDesc. induction l as [| b r IH]; intros S; cbn [insert_desc].
  - repeat constructor.
  - apply StronglySorted_inv in S as [Sr Hb].
    destruct (Qle_bool (cm_totalScore b) (cm_totalScore a)) eqn:E.
    + apply Qle_bool_iff in E. constructor.
      * constructor; assumption.
      * constructor; [exact E |].
        rewrite List.Forall_forall in Hb |- *. intros x Hx.
        eapply Qle_trans; [apply (Hb x Hx) | exact E].
    + assert (L : cm_totalScore a <= cm_totalScore b).
      { destruct (Qlt_le_dec (cm_totalScore a) (cm_totalScore b)) as [Hlt | Hge].
        - apply Qlt_le_weak, Hlt.
        - apply Qle_bool_iff in Hge. congruence. }
      constructor; [apply IH, Sr |].
      rewrite List.Forall_forall in Hb |- *. intros x Hx.
      apply (Permutation_in _ (insert_desc_perm a r)) in Hx.
      destruct Hx as [<- | Hx]; [exact L | apply Hb, Hx].
Qed.

Lemma sort_desc_sorted (l : list CachedMatchScore) : sortedDesc (sort_desc l).
Proof.
  induction l as [| a r IH]; cbn [sort_desc].
  - constructor.
  - apply insert_desc_sorted, IH.
Qed.

Lemma sortedDesc_firstn (n : nat) (l : list CachedMatchScore) :
  sortedDesc l -> sortedDesc (firstn n l).
Proof.
  unfold sortedDesc. revert n. induction l as [| a r IH]; intros [| n] S; cbn [firstn];
    try constructor.
  - apply IH. apply StronglySorted_inv in S. tauto.
  - apply StronglySorted_inv in S as [_ Ha].
    rewrite List.Forall_forall in Ha |- *. intros x Hx.
    apply Ha. rewrite <- (firstn_skipn n r). apply in_or_app. left. exact Hx.
Qed.

Lemma sortedDesc_restamp (now : string) (l : list CachedMatchScore) :
  sortedDesc l -> sortedDesc (map (restamp now) l).
Proof.
  unfold sortedDesc. induction 1 as [| a r S IH Ha]; cbn [map]; constructor.
  - exact IH.
  - rewrite List.Forall_forall in Ha |- *. intros x Hx.
    apply in_map_iff in Hx as [y [<- Hy]]. apply (Ha y Hy).
Qed.

Lemma cacheData_bounded (now : string) (matches : list CachedMatchScore) :
  (length (cacheData now matches) <= 50)%nat.
Proof.
  unfold cacheData, Js.slice, CACHE_LIMIT. rewrite length_map, length_firstn. lia.
Qed.

Lemma cacheData_sorted (now : string) (matches : list CachedMatchScore) :
  sortedDesc (cacheData now matches).
Proof.
  unfold cacheData, Js.slice. apply sortedDesc_restamp, sortedDesc_firstn.
  cbn [skipn]. apply sort_desc_sorted.
Qed.

Lemma setMatches_persisted (now key : string) (matches : list CachedMatchScore)
    (r : redis) :
  persistedBy now key matches r (setMatches now key matches r).
Proof.
  unfold persistedBy, setMatches. destruct matches as [| m ms].
  - left. split; reflexivity.
  - right. split; [discriminate |].
    exists (sort_desc (m :: ms)), (cacheData now (m :: ms)).
    split; [apply sort_desc_perm |]. split; [apply sort_desc_sorted |].
    split; [reflexivity |]. split; [reflexivity |].
    split; [apply cacheData_bounded | apply cacheData_sorted].
Qed.

Lemma setMatches_wellFormed (now key : string) (matches : list CachedMatchScore)
    (r : redis) :
  cacheWellFormed r -> cacheWellFormed (setMatches now key matches r).
Proof.
  intros W k l. unfold setMatches.
  destruct (Nat.eqb (length matches) 0); [apply W |].
  destruct (decide (key = k)) as [-> | Hne].
  - rewrite lookup_insert_eq. intros [= <-].
    split; [apply cacheData_bounded | apply cacheData_sorted].
  - rewrite lookup_insert_ne by exact Hne. apply W.
Qed.

End CacheWrites.

(** C5. For every input list, [setWorkerMatches] and [setVacancyMatches]
    either write nothing (empty input) or write the first 50 entries of the
    input sorted descending by total score; the written list has at most 50
    entries and is in descending order, so a store whose match lists are
    all bounded by 50 and descending stays so after either write. *)
Theorem persisted_matches_top50_sorted
    (now id : string) (matches : list Cache.CachedMatchScore)
    (r : gmap string Cache.rvalue) :
  persistedBy now (Cache.workerKey id) matches r (Cache.setWorkerMatches now id matches r)
  /\ persistedBy now (Cache.vacancyKey id) matches r (Cache.setVacancyMatches now id matches r)
  /\ (cacheWellFormed r ->
      cacheWellFormed (Cache.setWorkerMatches now id matches r)
      /\ cacheWellFormed (Cache.setVacancyMatches now id matches r)).
Proof.
  unfold Cache.setWorkerMatches, Cache.setVacancyMatches.
  split; [apply setMatches_persisted |]. split; [apply setMatches_persisted |].
  intros W. split; apply setMatches_wellFormed, W.
Qed.

Lemma persisted_matches_top50_sorted_witness :
  cacheWellFormed (Cache.setWorkerMatches "t1" "w1" CacheSamples.three ∅)
  /\ cacheWellFormed (Cache.setVacancyMatches "t1" "w1" CacheSamples.three ∅).
Proof.
  apply (persisted_matches_top50_sorted "t1" "w1" CacheSamples.three ∅).
  intros key l H. rewrite lookup_empty in H. discriminate H.
Defined.

(** ** The lease lock *)

Section Lock.

Import Cache.

Lemma holder_Some (key owner : string) (r : redis) :
  holder key r = Some owner <-> r !! lockKeyOf key = Some (RString owner).
Proof.
  unfold holder. split.
  - destruct (r !! lockKeyOf key) as [[l | s] |]; intros [= ->]; reflexivity.
  - intros ->. reflexivity.
Qed.

Lemma releaseLock_match (key owner : string) (r : redis) :
  holder key r = Some owner -> releaseLock key owner r = delete (lockKeyOf key) r.
Proof.
  intros H. apply holder_Some in H. unfold releaseLock. rewrite H.
  rewrite String.eqb_refl. reflexivity.
Qed.

Lemma releaseLock_mismatch (key owner : string) (r : redis) :
  holder key r <> Some owner -> releaseLock key owner r = r.
Proof.
  intros H. unfold releaseLock, holder in *.
  destruct (r !! lockKeyOf key) as [[l | s] |]; try reflexivity.
  destruct (String.eqb_spec s owner) as [-> | Hne]; [congruence | reflexivity].
Qed.

Lemma acquireLock_free (key owner : string) (r : redis) :
  r !! lockKeyOf key = None ->
  acquireLock key owner r = (true, <[lockKeyOf key := RString owner]> r).
Proof. intros H. unfold acquireLock. rewrite H. reflexivity. Qed.

End Lock.

(** C6. [releaseLock] deletes the lock entry exactly when the stored holder
    token equals the releaser's token, and then touches no other key; when
    the tokens differ or the key has no lock the store is unchanged.  In
    particular, once the lease of [old] has expired and [new] has acquired
    the lock, the release by [old] leaves the lock with [new]. *)
Theorem releaseLock_compare_and_delete
    (key owner : string) (r : gmap string Cache.rvalue) :
  (holder key r = Some owner ->
     Cache.releaseLock key owner r = delete (Cache.lockKeyOf key) r
     /\ holder key (Cache.releaseLock key owner r) = None)
  /\ (holder key r <> Some owner -> Cache.releaseLock key owner r = r)
  /\ (forall other, other <> Cache.lockKeyOf key ->
        Cache.releaseLock key owner r !! other = r !! other)
  /\ (forall new, new <> owner -> holder key r = Some owner ->
        let expired := Cache.expire (Cache.lockKeyOf key) r in
        let reacquired := Cache.acquireLock key new expired in
        reacquired.1 = true
        /\ Cache.releaseLock key owner reacquired.2 = reacquired.2
        /\ holder key (Cache.releaseLock key owner reacquired.2) = Some new).
Proof.
  split; [| split; [| split]].
  - intros H. rewrite (releaseLock_match _ _ _ H). split; [reflexivity |].
    unfold holder. rewrite lookup_delete_eq. reflexivity.
  - apply releaseLock_mismatch.
  - intros other Hne.
    destruct (decide (holder key r = Some owner)) as [H | H].
    + rewrite (releaseLock_match _ _ _ H). apply lookup_delete_ne. congruence.
    + rewrite (releaseLock_mismatch _ _ _ H). reflexivity.
  - intros new Hne H. cbv zeta. unfold Cache.expire.
    rewrite acquireLock_free by apply lookup_delete_eq. cbn [fst snd].
    assert (Hh : holder key (<[Cache.lockKeyOf key := Cache.RString new]>
                               (delete (Cache.lockKeyOf key) r)) = Some new).
    { unfold holder. rewrite lookup_insert_eq. reflexivity. }
    rewrite releaseLock_mismatch by (rewrite Hh; congruence).
    split; [reflexivity |]. split; [reflexivity | exact Hh].
Qed.

Lemma releaseLock_compare_and_delete_witness :
  let r : gmap string Cache.rvalue :=
    <[Cache.lockKeyOf "worker:w1" := Cache.RString "owner-1"]> ∅ in
  Cache.releaseLock "worker:w1" "owner-1" r = delete (Cache.lockKeyOf "worker:w1") r
  /\ Cache.releaseLock "worker:w1" "owner-2" r = r.
Proof.
  cbv zeta.
  pose proof (releaseLock_compare_and_delete "worker:w1" "owner-1"
                (<[Cache.lockKeyOf "worker:w1" := Cache.RString "owner-1"]> ∅)) as [A _].
  pose proof (releaseLock_compare_and_delete "worker:w1" "owner-2"
                (<[Cache.lockKeyOf "worker:w1" := Cache.RString "owner-1"]> ∅)) as [_ [B _]].
  split.
  - apply A. unfold holder. rewrite lookup_insert_eq. reflexivity.
  - apply B. unfold holder. rewrite lookup_insert_eq. intros [= H].
Defined.

(** ** Not-found in [calculateScore] *)

(** C9 (as amended). [calculateScore] raises the not-found error
    [VACANCY_NOT_FOUND] whenever the vacancy is missing, before any
    match-score row is written and without any other change of state.  A
    missing worker profile raises nothing: when the vacancy exists the call
    returns the single-pair scores (with the neutral location score 50 when
    the profile is missing) and has upserted them under the pair. *)
Theorem calculateScore_not_found
    (thisYear : Z) (now workerId vacancyId : string) (w : Service.World) :
  (Repository.getVacancy (Service.db w) vacancyId = None ->
     Service.calculateScore thisYear now workerId vacancyId w
     = (w, Service.NotFoundException "VACANCY_NOT_FOUND"))
  /\ (forall vacancy,
        Repository.getVacancy (Service.db w) vacancyId = Some vacancy ->
        let scores :=
          Service.computeScore thisYear
            (Repository.getWorkerSkills (Service.db w) workerId)
            (Repository.getWorkerEducation (Service.db w) workerId)
            (Repository.getWorkerExperience (Service.db w) workerId)
            (Repository.getVacancySkills (Service.db w) vacancyId)
            vacancy
            (Repository.getWorkerProfile (Service.db w) workerId) in
        let after := (Service.calculateScore thisYear now workerId vacancyId w).1 in
        (Service.calculateScore thisYear now workerId vacancyId w).2
        = Service.Returned {| Service.sr_workerId := workerId;
                              Service.sr_vacancyId := vacancyId;
                              Service.sr_scores := scores |}
        /\ Repository.t_matchScore (Service.db after) !! (workerId, vacancyId)
           = Some {| Repository.ms_scores := scores;
                     Repository.ms_calculatedAt := now |}
        /\ (Repository.getWorkerProfile (Service.db w) workerId = None ->
            locationScore scores = 50)).
Proof.
  split.
  - intros H. unfold Service.calculateScore. rewrite H. reflexivity.
  - intros vacancy H. cbv zeta. unfold Service.calculateScore. rewrite H.
    cbn [fst snd Service.db Service.auditService_log Repository.t_matchScore
         Repository.upsertMatchScore Repository.with_matchScore].
    split; [reflexivity |]. split; [apply lookup_insert_eq |].
    intros ->. cbn [locationScore Service.computeScore].
    unfold Service.calculateLocationScore. destruct (locationCity vacancy); reflexivity.
Qed.

Lemma calculateScore_not_found_witness :
  Service.calculateScore 2026 "t1" "w1" "v1" WorldSamples.onlyWorker
  = (WorldSamples.onlyWorker, Service.NotFoundException "VACANCY_NOT_FOUND").
Proof.
  apply (calculateScore_not_found 2026 "t1" "w1" "v1" WorldSamples.onlyWorker).
  reflexivity.
Defined.

(** C9 as stated fails for a missing worker: with the vacancy present and no
    profile for the worker, the call returns scores and writes the row. *)
Lemma calculateScore_missing_worker_is_scored :
  Repository.getWorkerProfile (Service.db WorldSamples.onlyVacancy) "w1" = None
  /\ (exists scores,
        (Service.calculateScore 2026 "t1" "w1" "v1" WorldSamples.onlyVacancy).2
        = Service.Returned scores)
  /\ (forall code,
        (Service.calculateScore 2026 "t1" "w1" "v1" WorldSamples.onlyVacancy).2
        <> Service.NotFoundException code)
  /\ is_Some (Repository.t_matchScore
                (Service.db (Service.calculateScore 2026 "t1" "w1" "v1"
                               WorldSamples.onlyVacancy).1)
              !! ("w1"%string, "v1"%string)).
Proof.
  split; [reflexivity |]. split; [eexists; reflexivity |].
  split; [intros code H; discriminate H |].
  cbn. rewrite lookup_insert_eq. eexists; reflexivity.
Qed.

(** ** Paging *)

Section Chunks.

Context {T : Type}.

Lemma chunksFrom_concat (fuel : nat) (l : list T) :
  (length l <= fuel)%nat -> concat (Repository.chunksFrom fuel l) = l.
Proof.
  revert l. induction fuel as [| f IH]; intros l Hl.
  - destruct l; [reflexivity | cbn in Hl; lia].
  - destruct l as [| x r]; [reflexivity |].
    change (Repository.chunksFrom (S f) (x :: r))
      with (firstn Repository.CONCURRENCY_LIMIT (x :: r)
            :: Repository.chunksFrom f (skipn Repository.CONCURRENCY_LIMIT (x :: r))).
    cbn [concat]. rewrite IH.
    + apply firstn_skipn.
    + rewrite length_skipn. unfold Repository.CONCURRENCY_LIMIT. cbn [length] in *. lia.
Qed.

Lemma chunks_concat (l : list T) : concat (Repository.chunks l) = l.
Proof. apply chunksFrom_concat. apply Nat.le_refl. Qed.

End Chunks.

Section RunChunks.

Variable process : string -> Repository.Db -> Repository.Db * nat.

Let runOne := processOne process.

Lemma runChunk_fold (chunk : list string) (acc : Repository.Db * nat) :
  Repository.runChunk process chunk acc = fold_left runOne chunk acc.
Proof.
  unfold Repository.runChunk. revert acc.
  induction chunk as [| id r IH]; intros acc; [reflexivity |].
  cbn [fold_left]. rewrite IH. destruct acc as [d n]. reflexivity.
Qed.

Lemma fold_left_concat (ls : list (list string)) (acc : Repository.Db * nat) :
  fold_left (fun a chunk => fold_left runOne chunk a) ls acc
  = fold_left runOne (concat ls) acc.
Proof.
  revert acc. induction ls as [| c r IH]; intros acc; [reflexivity |].
  cbn [fold_left concat]. rewrite fold_left_app. apply IH.
Qed.

Lemma runChunks_flat (ids : list string) (d : Repository.Db) :
  Repository.runChunks process ids d = fold_left runOne ids (d, O).
Proof.
  unfold Repository.runChunks.
  rewrite <- (chunks_concat ids) at 2. rewrite <- fold_left_concat.
  generalize (d, O). generalize (Repository.chunks ids).
  induction l as [| c r IH]; intros acc; [reflexivity |].
  cbn [fold_left]. rewrite runChunk_fold. apply IH.
Qed.

(** When every id of the batch is processed with count 1 and processing
    keeps an invariant of the store, the batch counts its ids. *)
Lemma runChunks_counts (Inv : Repository.Db -> Prop) (ids : list string)
    (d : Repository.Db) :
  Inv d ->
  (forall id d0, In id ids -> Inv d0 ->
     Inv (process id d0).1 /\ (process id d0).2 = 1%nat) ->
  Inv (Repository.runChunks process ids d).1
  /\ (Repository.runChunks process ids d).2 = length ids.
Proof.
  intros Hd Hp. rewrite runChunks_flat.
  assert (G : forall l acc, incl l ids -> Inv acc.1 ->
            Inv (fold_left runOne l acc).1
            /\ (fold_left runOne l acc).2 = (acc.2 + length l)%nat).
  { induction l as [| id r IH]; intros [d0 n] Hin Hacc; cbn [fold_left length fst snd] in *.
    - split; [exact Hacc | lia].
    - destruct (Hp id d0 (Hin id (or_introl eq_refl)) Hacc) as [Hi Hc].
      destruct (process id d0) as [d1 k] eqn:E. cbn [fst snd] in *. subst k.
      assert (R : runOne (d0, n) id = (d1, (n + 1)%nat))
        by (unfold runOne, processOne; rewrite E; reflexivity).
      rewrite R.
      destruct (IH (d1, (n + 1)%nat)) as [Hi' Hc'].
      + intros x Hx. apply Hin. right. exact Hx.
      + exact Hi.
      + split; [exact Hi' |]. rewrite Hc'. cbn [snd]. lia. }
  destruct (G ids (d, O) (incl_refl ids) Hd) as [A B].
  split; [exact A | rewrite B; reflexivity].
Qed.

End RunChunks.

Section Batches.

Lemma mapBy_lookup {T} (key : T -> string) (rows : list T) (k : string) :
  (exists r, In r rows /\ key r = k) -> is_Some (Repository.mapBy key rows !! k).
Proof.
  unfold Repository.mapBy.
  assert (G : forall (m : gmap string T),
            is_Some (m !! k) \/ (exists r, In r rows /\ key r = k) ->
            is_Some (fold_left (fun m r => <[key r := r]> m) rows m !! k)).
  { induction rows as [| r rs IH]; intros m [H | [x [Hx Hk]]]; cbn [fold_left].
    - exact H.
    - destruct Hx.
    - apply IH. left. destruct (decide (key r = k)) as [-> | Hne].
      + rewrite lookup_insert_eq. eexists; reflexivity.
      + rewrite lookup_insert_ne by exact Hne. exact H.
    - apply IH. destruct Hx as [<- | Hx].
      + left. rewrite Hk, lookup_insert_eq. eexists; reflexivity.
      + right. exists x. split; assumption. }
  intros H. apply G. right. exact H.
Qed.

Lemma inIds_In (ids : list string) (x : string) : In x ids -> Repository.inIds ids x = true.
Proof.
  intros H. unfold Repository.inIds. apply existsb_exists.
  exists x. split; [exact H | apply String.eqb_refl].
Qed.

Lemma sameTables_refl (d : Repository.Db) : sameTables d d.
Proof. repeat split. Qed.

Lemma sameTables_upsert (now workerId vacancyId : string) (scores : ScoreComponents)
    (d d' : Repository.Db) :
  sameTables d d' ->
  sameTables d (Repository.upsertMatchScore now workerId vacancyId scores d').
Proof. intros H. exact H. Qed.

(** A batch for a worker counts every id that names a visible vacancy. *)
Lemma recalculateBatchForWorker_counts (thisYear : Z) (now workerId : string)
    (vacancyIds : list string) (d0 d : Repository.Db) :
  sameTables d0 d ->
  incl vacancyIds (map v_id (Repository.t_vacancy d0)) ->
  sameTables d0 (Repository.recalculateBatchForWorker thisYear now workerId vacancyIds d).1
  /\ (Repository.recalculateBatchForWorker thisYear now workerId vacancyIds d).2
     = length vacancyIds.
Proof.
  intros Hs Hin. unfold Repository.recalculateBatchForWorker.
  apply (runChunks_counts _ (sameTables d0)); [exact Hs |].
  intros id d1 Hid Hd1.
  destruct (mapBy_lookup v_id
              (List.filter (fun v => Repository.inIds vacancyIds (v_id v))
                 (Repository.t_vacancy d)) id) as [v Hv].
  { pose proof (Hin _ Hid) as Hm. apply in_map_iff in Hm as [v [Hv Hvin]].
    exists v. split; [| exact Hv]. apply filter_In. split.
    - destruct Hs as [Ht _]. rewrite Ht. exact Hvin.
    - apply inIds_In. rewrite Hv. exact Hid. }
  rewrite Hv. cbn [fst snd]. split; [apply sameTables_upsert, Hd1 | reflexivity].
Qed.

(** A batch for an existing vacancy counts every id it is given. *)
Lemma recalculateBatchForVacancy_counts (thisYear : Z) (now vacancyId : string)
    (workerIds : list string) (d0 d : Repository.Db) :
  sameTables d0 d ->
  Repository.getVacancy d0 vacancyId <> None ->
  sameTables d0 (Repository.recalculateBatchForVacancy thisYear now vacancyId workerIds d).1
  /\ (Repository.recalculateBatchForVacancy thisYear now vacancyId workerIds d).2
     = length workerIds.
Proof.
  intros Hs Hv. unfold Repository.recalculateBatchForVacancy.
  assert (E : Repository.getVacancy d vacancyId = Repository.getVacancy d0 vacancyId).
  { unfold Repository.getVacancy. destruct Hs as [-> _]. reflexivity. }
  rewrite E. destruct (Repository.getVacancy d0 vacancyId) as [vacancy |]; [| congruence].
  apply (runChunks_counts _ (sameTables d0)); [exact Hs |].
  intros id d1 _ Hd1. cbn [fst snd].
  split; [apply sameTables_upsert, Hd1 | reflexivity].
Qed.

End Batches.

Section PagedLoop.

Lemma ceilDiv_0 : Repository.ceilDiv 0 200 = 0%nat.
Proof. reflexivity. Qed.

Lemma ceilDiv_small (n : nat) : (0 < n < 200)%nat -> Repository.ceilDiv n 200 = 1%nat.
Proof.
  intros H. unfold Repository.ceilDiv. symmetry.
  apply (Nat.div_unique _ _ _ (n - 1)); lia.
Qed.

Lemma ceilDiv_step (n : nat) :
  (200 <= n)%nat -> Repository.ceilDiv n 200 = S (Repository.ceilDiv (n - 200) 200).
Proof.
  intros H. unfold Repository.ceilDiv.
  replace (n + 200 - 1)%nat with ((n - 200 + 200 - 1) + 1 * 200)%nat by lia.
  rewrite Nat.div_add by lia. lia.
Qed.

Lemma div_step (n : nat) : (200 <= n)%nat -> (n / 200 = S ((n - 200) / 200))%nat.
Proof.
  intros H. replace n with ((n - 200) + 1 * 200)%nat at 1 by lia.
  rewrite Nat.div_add by lia. lia.
Qed.

Variable fetch : Repository.Db -> nat -> list string.
Variable recalc : list string -> Repository.Db -> Repository.Db * nat.
Variable pop : list string.
Variable Inv : Repository.Db -> Prop.

Hypothesis fetch_page : forall d p,
  Inv d -> fetch d p = firstn 200 (skipn ((p - 1) * 200) pop).

Hypothesis recalc_counts : forall d ids,
  Inv d -> incl ids pop ->
  Inv (recalc ids d).1 /\ (recalc ids d).2 = length ids.

Lemma page_incl (p : nat) : incl (firstn 200 (skipn ((p - 1) * 200) pop)) pop.
Proof.
  intros x Hx.
  assert (In x (skipn ((p - 1) * 200) pop)).
  { rewrite <- (firstn_skipn 200 (skipn ((p - 1) * 200) pop)).
    apply in_or_app. left. exact Hx. }
  rewrite <- (firstn_skipn ((p - 1) * 200) pop). apply in_or_app. right. assumption.
Qed.

(** Enough fuel for the pages that are left gives the count of the ids that
    are left, in as many batches as there are non-empty pages. *)
Lemma pagedLoop_result (fuel : nat) :
  forall p tot bat d,
    Inv d -> (1 <= p)%nat ->
    (length (skipn ((p - 1) * 200) pop) / 200 < fuel)%nat ->
    exists d',
      pagedLoop fetch recalc fuel p tot bat d
      = Some (d', (tot + length (skipn ((p - 1) * 200) pop))%nat,
              (bat + Repository.ceilDiv (length (skipn ((p - 1) * 200) pop)) 200)%nat)
      /\ Inv d'.
Proof.
  induction fuel as [| f IH]; intros p tot bat d Hd Hp Hf; [lia |].
  cbn [pagedLoop]. rewrite (fetch_page d p Hd).
  set (rest := skipn ((p - 1) * 200) pop) in *.
  assert (Hlen : length (firstn 200 rest) = Nat.min 200 (length rest))
    by apply length_firstn.
  destruct (Nat.eqb_spec (length (firstn 200 rest)) 0) as [Hz | Hnz].
  - exists d. assert (length rest = 0)%nat as -> by lia.
    rewrite ceilDiv_0, !Nat.add_0_r. split; [reflexivity | exact Hd].
  - destruct (recalc_counts d (firstn 200 rest) Hd (page_incl p)) as [Hi Hc].
    destruct (recalc (firstn 200 rest) d) as [d1 k] eqn:E. cbn [fst snd] in Hi, Hc.
    subst k. unfold Service.BATCH_SIZE.
    destruct (Nat.ltb_spec (length (firstn 200 rest)) 200) as [Hshort | Hfull].
    + exists d1. assert (length (firstn 200 rest) = length rest) as -> by lia.
      rewrite ceilDiv_small by lia. split; [f_equal; f_equal; lia | exact Hi].
    + assert (Hge : (200 <= length rest)%nat) by lia.
      assert (Hrest : skipn ((S p - 1) * 200) pop = skipn 200 rest).
      { unfold rest. rewrite skipn_skipn. f_equal. lia. }
      destruct (IH (S p) (tot + length (firstn 200 rest))%nat (S bat) d1 Hi) as [d' [R Hd']].
      * lia.
      * rewrite Hrest, length_skipn. rewrite (div_step _ Hge) in Hf. lia.
      * exists d'. split; [| exact Hd'].
        rewrite R, Hrest, length_skipn, (ceilDiv_step _ Hge).
        f_equal. f_equal; [f_equal |]; lia.
Qed.

(** With less fuel than pages to fetch the loop is still running: every
    page before the last one is full. *)
Lemma pagedLoop_starved (fuel : nat) :
  forall p tot bat d,
    Inv d -> (1 <= p)%nat ->
    (fuel <= length (skipn ((p - 1) * 200) pop) / 200)%nat ->
    pagedLoop fetch recalc fuel p tot bat d = None.
Proof.
  induction fuel as [| f IH]; intros p tot bat d Hd Hp Hf; [reflexivity |].
  cbn [pagedLoop]. rewrite (fetch_page d p Hd).
  set (rest := skipn ((p - 1) * 200) pop) in *.
  assert (Hge : (200 <= length rest)%nat).
  { destruct (Nat.lt_ge_cases (length rest) 200) as [L | L]; [| exact L].
    rewrite (Nat.div_small _ _ L) in Hf. lia. }
  assert (Hlen : length (firstn 200 rest) = 200%nat)
    by (rewrite length_firstn; lia).
  rewrite Hlen. change (Nat.eqb 200 0) with false. cbv iota.
  destruct (recalc_counts d (firstn 200 rest) Hd (page_incl p)) as [Hi _].
  destruct (recalc (firstn 200 rest) d) as [d1 k]. cbn [fst] in Hi.
  unfold Service.BATCH_SIZE. change (Nat.ltb 200 200) with false. cbv iota.
  apply IH; [exact Hi | lia |].
  assert (Hrest : skipn ((S p - 1) * 200) pop = skipn 200 rest).
  { unfold rest. rewrite skipn_skipn. f_equal. lia. }
  rewrite Hrest, length_skipn. rewrite (div_step _ Hge) in Hf. lia.
Qed.

End PagedLoop.

Section Recalc.

Variables (thisYear : Z) (now : string).

Lemma recalcForWorker_loop_paged (workerId : string) (fuel : nat) :
  forall p tot bat d,
    Service.recalcForWorker_loop fuel thisYear now workerId p tot bat d
    = pagedLoop
        (fun d p => map v_id (Repository.items
                                (Repository.getActiveVacanciesForWorker d workerId p
                                   Service.BATCH_SIZE)))
        (fun ids d => Repository.recalculateBatchForWorker thisYear now workerId ids d)
        fuel p tot bat d.
Proof.
  induction fuel as [| f IH]; intros p tot bat d; [reflexivity |].
  cbn [Service.recalcForWorker_loop pagedLoop]. rewrite !length_map.
  destruct (Nat.eqb _ 0); [reflexivity |].
  destruct (Repository.recalculateBatchForWorker _ _ _ _ _) as [d1 k].
  destruct (Nat.ltb _ _); [reflexivity | apply IH].
Qed.

Lemma recalcForVacancy_loop_paged (vacancyId : string) (fuel : nat) :
  forall p tot bat d,
    Service.recalcForVacancy_loop fuel thisYear now vacancyId p tot bat d
    = pagedLoop
        (fun d p => map wp_userId (Repository.items
                                     (Repository.getActiveWorkersForVacancy d vacancyId p
                                        Service.BATCH_SIZE)))
        (fun ids d => Repository.recalculateBatchForVacancy thisYear now vacancyId ids d)
        fuel p tot bat d.
Proof.
  induction fuel as [| f IH]; intros p tot bat d; [reflexivity |].
  cbn [Service.recalcForVacancy_loop pagedLoop]. rewrite !length_map.
  destruct (Nat.eqb _ 0); [reflexivity |].
  destruct (Repository.recalculateBatchForVacancy _ _ _ _ _) as [d1 k].
  destruct (Nat.ltb _ _); [reflexivity | apply IH].
Qed.

Lemma paginate_items {T} (rows : list T) (p : nat) :
  Repository.items (Repository.paginate rows p Service.BATCH_SIZE)
  = firstn 200 (skipn ((p - 1) * 200) rows).
Proof. reflexivity. Qed.

Lemma worker_pages (workerId : string) (d0 d : Repository.Db) (p : nat) :
  sameTables d0 d ->
  map v_id (Repository.items
              (Repository.getActiveVacanciesForWorker d workerId p Service.BATCH_SIZE))
  = firstn 200 (skipn ((p - 1) * 200) (map v_id (Repository.openVacancies d0))).
Proof.
  intros Hs. unfold Repository.getActiveVacanciesForWorker.
  rewrite paginate_items, skipn_map, firstn_map.
  unfold Repository.openVacancies. destruct Hs as [-> _]. reflexivity.
Qed.

Lemma worker_batch (workerId : string) (d0 d : Repository.Db) (ids : list string) :
  sameTables d0 d ->
  incl ids (map v_id (Repository.openVacancies d0)) ->
  sameTables d0 (Repository.recalculateBatchForWorker thisYear now workerId ids d).1
  /\ (Repository.recalculateBatchForWorker thisYear now workerId ids d).2 = length ids.
Proof.
  intros Hs Hin. apply recalculateBatchForWorker_counts; [exact Hs |].
  intros x Hx. apply Hin in Hx. apply in_map_iff in Hx as [v [<- Hv]].
  apply in_map. unfold Repository.openVacancies in Hv.
  apply filter_In in Hv. tauto.
Qed.

Lemma vacancy_pages (vacancyId : string) (d0 d : Repository.Db) (p : nat) :
  sameTables d0 d ->
  map wp_userId (Repository.items
                   (Repository.getActiveWorkersForVacancy d vacancyId p Service.BATCH_SIZE))
  = firstn 200 (skipn ((p - 1) * 200) (map wp_userId (Repository.activeWorkers d0))).
Proof.
  intros Hs. unfold Repository.getActiveWorkersForVacancy.
  rewrite paginate_items, skipn_map, firstn_map.
  unfold Repository.activeWorkers. destruct Hs as [_ [_ [-> _]]]. reflexivity.
Qed.

Lemma first_page_rest {T} (l : list T) : skipn ((1 - 1) * 200) l = l.
Proof. reflexivity. Qed.

Lemma recalcForWorker_loop_total (workerId : string) (d : Repository.Db) (fuel : nat) :
  (length (Repository.openVacancies d) / 200 < fuel)%nat ->
  exists d',
    Service.recalcForWorker_loop fuel thisYear now workerId 1 0 0 d
    = Some (d', length (Repository.openVacancies d),
            Repository.ceilDiv (length (Repository.openVacancies d)) 200)
    /\ sameTables d d'.
Proof.
  intros Hf. rewrite recalcForWorker_loop_paged.
  destruct (pagedLoop_result
              (fun d p => map v_id (Repository.items
                                      (Repository.getActiveVacanciesForWorker d workerId p
                                         Service.BATCH_SIZE)))
              (fun ids d => Repository.recalculateBatchForWorker thisYear now workerId ids d)
              (map v_id (Repository.openVacancies d)) (sameTables d)
              (fun d1 p => worker_pages workerId d d1 p)
              (fun d1 ids => worker_batch workerId d d1 ids)
              fuel 1%nat 0%nat 0%nat d (sameTables_refl d) (Nat.le_refl 1))
    as [d' [R Hd']].
  - rewrite first_page_rest, length_map. exact Hf.
  - exists d'. split; [| exact Hd'].
    rewrite R, first_page_rest, length_map. reflexivity.
Qed.

Lemma recalcForWorker_loop_starved (workerId : string) (d : Repository.Db) (fuel : nat) :
  (fuel <= length (Repository.openVacancies d) / 200)%nat ->
  Service.recalcForWorker_loop fuel thisYear now workerId 1 0 0 d = None.
Proof.
  intros Hf. rewrite recalcForWorker_loop_paged.
  apply (pagedLoop_starved
              (fun d p => map v_id (Repository.items
                                      (Repository.getActiveVacanciesForWorker d workerId p
                                         Service.BATCH_SIZE)))
              (fun ids d => Repository.recalculateBatchForWorker thisYear now workerId ids d)
              (map v_id (Repository.openVacancies d)) (sameTables d)
           (fun d1 p => worker_pages workerId d d1 p)
           (fun d1 ids => worker_batch workerId d d1 ids)
           fuel 1%nat 0%nat 0%nat d (sameTables_refl d) (Nat.le_refl 1)).
  rewrite first_page_rest, length_map. exact Hf.
Qed.

Lemma recalcForVacancy_loop_total (vacancyId : string) (d : Repository.Db) (fuel : nat) :
  Repository.getVacancy d vacancyId <> None ->
  (length (Repository.activeWorkers d) / 200 < fuel)%nat ->
  exists d',
    Service.recalcForVacancy_loop fuel thisYear now vacancyId 1 0 0 d
    = Some (d', length (Repository.activeWorkers d),
            Repository.ceilDiv (length (Repository.activeWorkers d)) 200)
    /\ sameTables d d'.
Proof.
  intros Hv Hf. rewrite recalcForVacancy_loop_paged.
  destruct (pagedLoop_result
              (fun d p => map wp_userId (Repository.items
                                           (Repository.getActiveWorkersForVacancy d vacancyId p
                                              Service.BATCH_SIZE)))
              (fun ids d => Repository.recalculateBatchForVacancy thisYear now vacancyId ids d)
              (map wp_userId (Repository.activeWorkers d)) (sameTables d)
              (fun d1 p => vacancy_pages vacancyId d d1 p)
              (fun d1 ids Hd1 _ =>
                 recalculateBatchForVacancy_counts thisYear now vacancyId ids d d1 Hd1 Hv)
              fuel 1%nat 0%nat 0%nat d (sameTables_refl d) (Nat.le_refl 1))
    as [d' [R Hd']].
  - rewrite first_page_rest, length_map. exact Hf.
  - exists d'. split; [| exact Hd'].
    rewrite R, first_page_rest, length_map. reflexivity.
Qed.

Lemma recalcForVacancy_loop_starved (vacancyId : string) (d : Repository.Db) (fuel : nat) :
  Repository.getVacancy d vacancyId <> None ->
  (fuel <= length (Repository.activeWorkers d) / 200)%nat ->
  Service.recalcForVacancy_loop fuel thisYear now vacancyId 1 0 0 d = None.
Proof.
  intros Hv Hf. rewrite recalcForVacancy_loop_paged.
  apply (pagedLoop_starved
              (fun d p => map wp_userId (Repository.items
                                           (Repository.getActiveWorkersForVacancy d vacancyId p
                                              Service.BATCH_SIZE)))
              (fun ids d => Repository.recalculateBatchForVacancy thisYear now vacancyId ids d)
              (map wp_userId (Repository.activeWorkers d)) (sameTables d)
           (fun d1 p => vacancy_pages vacancyId d d1 p)
           (fun d1 ids Hd1 _ =>
              recalculateBatchForVacancy_counts thisYear now vacancyId ids d d1 Hd1 Hv)
           fuel 1%nat 0%nat 0%nat d (sameTables_refl d) (Nat.le_refl 1)).
  rewrite first_page_rest, length_map. exact Hf.
Qed.

End Recalc.

(** C7. With the population unchanged during the call, [recalcForWorker]
    and [recalcForVacancy] end after exactly [n / 200 + 1] page fetches
    ([n] the number of open vacancies, resp. active workers; [fuel] counts
    the fetches): the loop stops at the first page with fewer than 200
    items.  The returned [calculated] is [n] and [batch] is the number of
    non-empty pages.  ([recalcForVacancy] returns a count only for an
    existing vacancy; for a missing one it raises [VACANCY_NOT_FOUND] before
    any page is fetched.)  With 450 active workers the pages have 200, 200
    and 50 items, two fetches do not suffice, and [calculated] is 450. *)
Theorem recalc_terminates_with_population_count
    (thisYear : Z) (now id : string) (w : Service.World) :
  let opened := length (Repository.openVacancies (Service.db w)) in
  let active := length (Repository.activeWorkers (Service.db w)) in
  (forall fuel,
     if Nat.ltb (opened / 200) fuel
     then exists w',
            Service.recalcForWorker fuel thisYear now id w
            = Some (w', {| Service.calculated := opened;
                           Service.batch := Repository.ceilDiv opened 200 |})
     else Service.recalcForWorker fuel thisYear now id w = None)
  /\ (forall fuel,
        match Repository.getVacancy (Service.db w) id with
        | Some _ =>
          if Nat.ltb (active / 200) fuel
          then exists w',
                 Service.recalcForVacancy fuel thisYear now id w
                 = Some (w', Service.Returned
                               {| Service.calculated := active;
                                  Service.batch := Repository.ceilDiv active 200 |})
          else Service.recalcForVacancy fuel thisYear now id w = None
        | None =>
          Service.recalcForVacancy fuel thisYear now id w
          = Some (w, Service.NotFoundException "VACANCY_NOT_FOUND")
        end)
  /\ (active = 450%nat ->
      Repository.getVacancy (Service.db w) id <> None ->
      workerPageSizes (Service.db w) id 3 = (200 :: 200 :: 50 :: nil)%nat
      /\ Service.recalcForVacancy 2 thisYear now id w = None
      /\ exists w',
           Service.recalcForVacancy 3 thisYear now id w
           = Some (w', Service.Returned {| Service.calculated := 450;
                                           Service.batch := 3 |})).
Proof.
  cbv zeta.
  assert (V : forall fuel v,
            Repository.getVacancy (Service.db w) id = Some v ->
            if Nat.ltb (length (Repository.activeWorkers (Service.db w)) / 200) fuel
            then exists w',
                   Service.recalcForVacancy fuel thisYear now id w
                   = Some (w', Service.Returned
                                 {| Service.calculated :=
                                      length (Repository.activeWorkers (Service.db w));
                                    Service.batch :=
                                      Repository.ceilDiv
                                        (length (Repository.activeWorkers (Service.db w)))
                                        200 |})
            else Service.recalcForVacancy fuel thisYear now id w = None).
  { intros fuel v Ev. unfold Service.recalcForVacancy. rewrite Ev.
    assert (Hv : Repository.getVacancy (Service.db w) id <> None) by congruence.
    destruct (Nat.ltb_spec (length (Repository.activeWorkers (Service.db w)) / 200) fuel)
      as [Hf | Hf].
    - destruct (recalcForVacancy_loop_total thisYear now id (Service.db w) fuel Hv Hf)
        as [d' [R _]].
      rewrite R. eexists. reflexivity.
    - rewrite (recalcForVacancy_loop_starved thisYear now id (Service.db w) fuel Hv Hf).
      reflexivity. }
  split; [| split].
  - intros fuel. unfold Service.recalcForWorker.
    destruct (Nat.ltb_spec (length (Repository.openVacancies (Service.db w)) / 200) fuel)
      as [Hf | Hf].
    + destruct (recalcForWorker_loop_total thisYear now id (Service.db w) fuel Hf)
        as [d' [R _]].
      rewrite R. eexists. reflexivity.
    + rewrite (recalcForWorker_loop_starved thisYear now id (Service.db w) fuel Hf).
      reflexivity.
  - intros fuel.
    destruct (Repository.getVacancy (Service.db w) id) as [v |] eqn:Ev.
    + apply (V fuel v eq_refl).
    + unfold Service.recalcForVacancy. rewrite Ev. reflexivity.
  - intros Hn Hv. split; [| split].
    + unfold workerPageSizes, Repository.getActiveWorkersForVacancy.
      cbn [seq map]. rewrite !paginate_items, !length_firstn, !length_skipn, Hn.
      reflexivity.
    + destruct (Repository.getVacancy (Service.db w) id) as [v |] eqn:Ev; [| congruence].
      pose proof (V 2%nat v eq_refl) as H2. rewrite Hn in H2. exact H2.
    + destruct (Repository.getVacancy (Service.db w) id) as [v |] eqn:Ev; [| congruence].
      pose proof (V 3%nat v eq_refl) as H3. rewrite Hn in H3. exact H3.
Qed.

Lemma recalc_terminates_with_population_count_witness :
  workerPageSizes (Service.db PopulationSamples.workers450) "v1" 3
  = (200 :: 200 :: 50 :: nil)%nat
  /\ Service.recalcForVacancy 2 2026 "t1" "v1" PopulationSamples.workers450 = None
  /\ exists w',
       Service.recalcForVacancy 3 2026 "t1" "v1" PopulationSamples.workers450
       = Some (w', Service.Returned {| Service.calculated := 450; Service.batch := 3 |}).
Proof.
  destruct (recalc_terminates_with_population_count 2026 "t1" "v1"
              PopulationSamples.workers450) as [_ [_ H]].
  apply H.
  - vm_compute. reflexivity.
  - vm_compute. discriminate.
Defined.

(** ** Score ranges *)

Section Ranges.

Lemma inRange_50 : inRange 50.  Proof. split; discriminate. Qed.
Lemma inRange_100 : inRange 100. Proof. split; discriminate. Qed.
Lemma inRange_0 : inRange 0. Proof. split; discriminate. Qed.

Lemma inRange_max0 (b : Q) : b <= 100 -> inRange (Js.Math_max 0 b).
Proof.
  intros H. split; [apply Math_max_lower | apply Math_max_upper; [discriminate | exact H]].
Qed.

Lemma inRange_comp (a b : Q) : a == b -> inRange b -> inRange a.
Proof. unfold inRange. intros ->. tauto. Qed.

Lemma nlen_nonneg {A} (l : list A) : 0 <= nlen l.
Proof. unfold nlen. change 0 with (inject_Z 0). rewrite <- Zle_Qle. lia. Qed.

Lemma nlen_pos {A} (l : list A) : length l <> O -> 0 < nlen l.
Proof. intros H. unfold nlen. change 0 with (inject_Z 0). rewrite <- Zlt_Qlt. lia. Qed.

Lemma nlen_le {A B} (l : list A) (l' : list B) :
  (length l <= length l')%nat -> nlen l <= nlen l'.
Proof. intros H. unfold nlen. rewrite <- Zle_Qle. lia. Qed.

Lemma indexOf_from_range (i : Z) (l : list string) (x : string) :
  (0 <= i)%Z -> Js.indexOf_from i l x = (-1)%Z \/ (0 <= Js.indexOf_from i l x)%Z.
Proof.
  revert i. induction l as [| y r IH]; intros i Hi; cbn [Js.indexOf_from].
  - left. reflexivity.
  - destruct (String.eqb y x); [right; exact Hi | apply IH; lia].
Qed.

Lemma education_inRange (idx : Z) (hit : bool) :
  idx = (-1)%Z \/ (0 <= idx)%Z ->
  inRange (if (idx =? -1)%Z then 50
           else if hit then 100 else Js.Math_max 0 (100 - inject_Z (idx * 25)%Z)).
Proof.
  intros H. destruct (Z.eqb_spec idx (-1)) as [E | E]; [apply inRange_50 |].
  destruct hit; [apply inRange_100 |]. apply inRange_max0.
  assert (0 <= inject_Z (idx * 25)).
  { change 0 with (inject_Z 0). rewrite <- Zle_Qle. lia. }
  lra.
Qed.

Lemma Service_education_inRange (workerEducation : list WorkerEducation) (vacancy : Vacancy) :
  inRange (Service.calculateEducationScore workerEducation vacancy).
Proof.
  unfold Service.calculateEducationScore.
  destruct (educationMinLevel vacancy) as [lvl |]; [| apply inRange_50].
  destruct (String.eqb lvl EmptyString); [apply inRange_50 |].
  apply education_inRange. apply indexOf_from_range. lia.
Qed.

Lemma Repository_education_inRange (workerEducation : list WorkerEducation) (vacancy : Vacancy) :
  inRange (Repository.calculateEducationScore workerEducation vacancy).
Proof.
  unfold Repository.calculateEducationScore.
  destruct (educationMinLevel vacancy) as [lvl |]; [| apply inRange_50].
  destruct (String.eqb lvl EmptyString); [apply inRange_50 |].
  apply education_inRange. apply indexOf_from_range. lia.
Qed.

Lemma Service_location_inRange (workerProfile : option WorkerProfile) (vacancy : Vacancy) :
  inRange (Service.calculateLocationScore workerProfile vacancy).
Proof.
  unfold Service.calculateLocationScore.
  repeat match goal with
         | |- inRange (match ?x with _ => _ end) => destruct x
         | |- inRange (if ?x then _ else _) => destruct x
         end; split; discriminate.
Qed.

Lemma Repository_location_inRange (workerProfile : option WorkerProfile) (vacancy : Vacancy) :
  inRange (Repository.calculateLocationScore workerProfile vacancy).
Proof.
  unfold Repository.calculateLocationScore.
  repeat match goal with
         | |- inRange (match ?x with _ => _ end) => destruct x
         | |- inRange (if ?x then _ else _) => destruct x
         end; split; discriminate.
Qed.

Lemma Repository_salary_inRange (workerProfile : option WorkerProfile) (vacancy : Vacancy) :
  inRange (Repository.calculateSalaryScore workerProfile vacancy).
Proof.
  unfold Repository.calculateSalaryScore.
  destruct (salaryMin vacancy), (salaryMax vacancy);
    repeat match goal with
           | |- inRange (if ?x then _ else _) => destruct x
           end; split; discriminate.
Qed.

Lemma Repository_experience_inRange (thisYear : Z)
    (workerExperience : list WorkerExperience) (vacancy : Vacancy) :
  inRange (Repository.calculateExperienceScore thisYear workerExperience vacancy).
Proof.
  unfold Repository.calculateExperienceScore.
  set (total := totalYears thisYear workerExperience).
  destruct (negb _ && negb _)%bool; [apply inRange_50 |].
  destruct (Js.truthyZ (experienceMinYears vacancy)); cbn [andb].
  - destruct (Z.ltb_spec total (Js.orZ (experienceMinYears vacancy) 0)) as [L | L].
    + apply inRange_max0.
      assert (0 <= inject_Z (Js.orZ (experienceMinYears vacancy) 0 - total)).
      { change 0 with (inject_Z 0). rewrite <- Zle_Qle. lia. }
      lra.
    + destruct (Js.truthyZ (experienceMaxYears vacancy)); cbn [andb]; [| apply inRange_100].
      destruct (Z.ltb_spec (Js.orZ (experienceMaxYears vacancy) 0) total) as [U | U];
        [| apply inRange_100].
      apply inRange_max0.
      assert (0 <= inject_Z (total - Js.orZ (experienceMaxYears vacancy) 0)).
      { change 0 with (inject_Z 0). rewrite <- Zle_Qle. lia. }
      lra.
  - destruct (Js.truthyZ (experienceMaxYears vacancy)); cbn [andb]; [| apply inRange_100].
    destruct (Z.ltb_spec (Js.orZ (experienceMaxYears vacancy) 0) total) as [U | U];
      [| apply inRange_100].
    apply inRange_max0.
    assert (0 <= inject_Z (total - Js.orZ (experienceMaxYears vacancy) 0)).
    { change 0 with (inject_Z 0). rewrite <- Zle_Qle. lia. }
    lra.
Qed.

Lemma penalty_inRange (num den : Z) :
  (0 <= num)%Z -> (0 < den)%Z ->
  inRange (Js.Math_max 0 (100 - inject_Z num / inject_Z den * 100)).
Proof.
  intros Hn Hd. apply inRange_max0.
  assert (A : 0 <= inject_Z num) by (change 0 with (inject_Z 0); rewrite <- Zle_Qle; lia).
  assert (B : 0 < inject_Z den) by (change 0 with (inject_Z 0); rewrite <- Zlt_Qlt; lia).
  assert (C : 0 <= inject_Z num / inject_Z den).
  { apply Qle_shift_div_l; [exact B | lra]. }
  lra.
Qed.

Lemma Service_experience_inRange (thisYear : Z)
    (workerExperience : list WorkerExperience) (vacancy : Vacancy) :
  nonNegZ (experienceMinYears vacancy) -> nonNegZ (experienceMaxYears vacancy) ->
  inRange (Service.calculateExperienceScore thisYear workerExperience vacancy).
Proof.
  intros Hmin Hmax. unfold Service.calculateExperienceScore.
  set (total := totalYears thisYear workerExperience).
  set (minYears := Js.orZ (experienceMinYears vacancy) 0).
  set (maxYears := Js.orZ (experienceMaxYears vacancy) (minYears + 10)).
  assert (Hm : (0 <= minYears)%Z).
  { unfold minYears, Js.orZ, nonNegZ in *.
    destruct (experienceMinYears vacancy) as [n |]; [| lia].
    destruct (Z.eqb_spec n 0); lia. }
  assert (HM : (0 < maxYears)%Z).
  { unfold maxYears, Js.orZ, nonNegZ in *.
    destruct (experienceMaxYears vacancy) as [n |]; [| lia].
    destruct (Z.eqb_spec n 0); lia. }
  destruct ((minYears =? 0)%Z && (maxYears =? 0)%Z)%bool; [apply inRange_100 |].
  destruct (Z.leb_spec minYears total) as [L | L]; cbn [andb].
  - destruct (Z.leb_spec total maxYears) as [U | U]; [apply inRange_100 |].
    destruct (Z.ltb_spec total minYears) as [L' | L']; [lia |].
    destruct (Z.eqb_spec maxYears 0); [apply inRange_0 |].
    apply penalty_inRange; lia.
  - destruct (Z.ltb_spec total minYears) as [L' | L']; [| lia].
    destruct (Z.eqb_spec minYears 0); [apply inRange_0 |].
    apply penalty_inRange; lia.
Qed.

Lemma Service_salary_inRange (workerProfile : option WorkerProfile) (vacancy : Vacancy) :
  nonNegQ (salaryMin vacancy) -> nonNegQ (salaryMax vacancy) ->
  inRange (Service.calculateSalaryScore workerProfile vacancy).
Proof.
  intros Hmin Hmax.
  assert (A : 0 <= Service.salaryMinOf vacancy).
  { unfold Service.salaryMinOf, nonNegQ in *.
    destruct (salaryMin vacancy) as [q |]; [| discriminate].
    destruct (Qeq_bool q 0); [discriminate | exact Hmin]. }
  assert (B : 0 <= Service.salaryMaxOf vacancy).
  { unfold Service.salaryMaxOf, nonNegQ in *.
    destruct (salaryMax vacancy) as [q |]; [destruct (Qeq_bool q 0) |]; try exact Hmax; lra. }
  assert (C : 0 <= Service.midPointOf vacancy).
  { unfold Service.midPointOf. apply Qle_shift_div_l; lra. }
  assert (G : inRange
    (if salaryIsNegotiable vacancy then 80
     else if (Qeq_bool (Service.salaryMinOf vacancy) 0
              && Qeq_bool (Service.salaryMaxOf vacancy) 0)%bool
     then 50
     else if Qeq_bool ((1 # 2) * Service.midPointOf vacancy) 0 then 100
     else Js.Math_max 0
            (Js.Math_round
               ((1 - Qabs (0 - Service.midPointOf vacancy)
                     / ((1 # 2) * Service.midPointOf vacancy)) * 100 * 100) / 100))).
  { destruct (salaryIsNegotiable vacancy); [split; discriminate |].
    destruct (Qlt_le_dec 0 (Service.midPointOf vacancy)) as [Hpos | Hle].
    - eapply inRange_comp;
        [apply salary_formula_positive_midpoint, Hpos | apply inRange_0].
    - assert (M : Service.midPointOf vacancy == 0) by lra.
      destruct (_ && _)%bool; [apply inRange_50 |].
      destruct (Qeq_bool ((1 # 2) * Service.midPointOf vacancy) 0) eqn:E;
        [apply inRange_100 |].
      apply Qeq_bool_false_neq in E. exfalso. apply E. rewrite M. reflexivity. }
  unfold Service.calculateSalaryScore.
  destruct (salaryMin vacancy), (salaryMax vacancy); try exact G. apply inRange_50.
Qed.

Lemma Service_skill_inRange (workerSkills : list WorkerSkill)
    (vacancySkills requiredSkills : list VacancySkill) :
  inRange (Service.calculateSkillScore workerSkills vacancySkills requiredSkills).
Proof.
  unfold Service.calculateSkillScore.
  destruct (Nat.eqb_spec (length requiredSkills) 0) as [E | E]; [apply inRange_100 |].
  destruct (Nat.eqb (length vacancySkills) 0); [apply inRange_50 |].
  apply (round2_bounds
           (Js.Math_min (nlen (matchedAgainst workerSkills vacancySkills)
                         / nlen requiredSkills) 1 * 100)).
  pose proof (nlen_nonneg (matchedAgainst workerSkills vacancySkills)) as A.
  pose proof (nlen_pos requiredSkills E) as B.
  assert (C : 0 <= nlen (matchedAgainst workerSkills vacancySkills) / nlen requiredSkills).
  { apply Qle_shift_div_l; [exact B | lra]. }
  pose proof (Math_min_upper
                (nlen (matchedAgainst workerSkills vacancySkills) / nlen requiredSkills) 1) as U.
  pose proof (Math_min_lower
                (nlen (matchedAgainst workerSkills vacancySkills) / nlen requiredSkills) 1 0
                C ltac:(discriminate)) as L.
  split; lra.
Qed.

(** Worker skills with pairwise distinct codes match at most as many
    vacancy skills as there are. *)
Lemma matchedAgainst_bounded (workerSkills : list WorkerSkill)
    (vacancySkills : list VacancySkill) :
  List.NoDup (map ws_skillCode workerSkills) ->
  (length (matchedAgainst workerSkills vacancySkills) <= length vacancySkills)%nat.
Proof.
  intros Hnd.
  rewrite <- (length_map ws_skillCode), <- (length_map vs_skillCode vacancySkills).
  apply List.NoDup_incl_length.
  - unfold matchedAgainst. clear -Hnd.
    induction workerSkills as [| w r IH]; cbn [List.filter map] in *; [constructor |].
    apply List.NoDup_cons_iff in Hnd as [Hw Hr].
    destruct (existsb _ vacancySkills); [| apply IH, Hr].
    cbn [map]. constructor; [| apply IH, Hr].
    intros Hin. apply Hw. apply in_map_iff in Hin as [x [Hx Hxin]].
    apply filter_In in Hxin as [Hxin _]. rewrite <- Hx. apply in_map, Hxin.
  - intros c Hc. apply in_map_iff in Hc as [w [<- Hw]].
    unfold matchedAgainst in Hw. apply filter_In in Hw as [_ Hw].
    apply existsb_exists in Hw as [v [Hv Heq]]. apply String.eqb_eq in Heq.
    rewrite <- Heq. apply in_map, Hv.
Qed.

Lemma Repository_skill_inRange (workerSkills : list WorkerSkill)
    (vacancySkills : list VacancySkill) :
  List.NoDup (map ws_skillCode workerSkills) ->
  inRange (Repository.calculateSkillScore workerSkills vacancySkills).
Proof.
  intros Hnd. unfold Repository.calculateSkillScore.
  destruct (Nat.eqb_spec (length vacancySkills) 0) as [E | E]; [apply inRange_50 |].
  apply (round2_bounds
           (nlen (matchedAgainst workerSkills vacancySkills) / nlen vacancySkills * 100)).
  pose proof (nlen_nonneg (matchedAgainst workerSkills vacancySkills)) as A.
  pose proof (nlen_pos vacancySkills E) as B.
  pose proof (nlen_le _ _ (matchedAgainst_bounded workerSkills vacancySkills Hnd)) as C.
  assert (L : 0 <= nlen (matchedAgainst workerSkills vacancySkills) / nlen vacancySkills).
  { apply Qle_shift_div_l; [exact B | lra]. }
  assert (U : nlen (matchedAgainst workerSkills vacancySkills) / nlen vacancySkills <= 1).
  { apply Qle_shift_div_r; [exact B | lra]. }
  split; lra.
Qed.

Lemma total_inRange (a b c d e : Q) :
  inRange a -> inRange b -> inRange c -> inRange d -> inRange e ->
  inRange (Js.Math_round ((a * 0.40 + b * 0.25 + c * 0.15 + d * 0.10 + e * 0.10) * 100) / 100).
Proof.
  unfold inRange. intros Ha Hb Hc Hd He.
  apply (round2_bounds (a * 0.40 + b * 0.25 + c * 0.15 + d * 0.10 + e * 0.10)).
  split; lra.
Qed.

(** The single-pair path keeps every score in [0, 100] on the vacancies the
    DTO validation admits. *)
Lemma Service_scores_inRange (thisYear : Z) workerSkills workerEducation
    workerExperience vacancySkills (vacancy : Vacancy) workerProfile :
  validVacancy vacancy ->
  scoresInRange (Service.computeScore thisYear workerSkills workerEducation
                   workerExperience vacancySkills vacancy workerProfile).
Proof.
  intros [H1 [H2 [H3 H4]]]. unfold scoresInRange, Service.computeScore.
  cbn [skillScore experienceScore educationScore locationScore salaryScore totalScore].
  pose proof (Service_skill_inRange workerSkills vacancySkills (requiredOf vacancySkills)).
  pose proof (Service_experience_inRange thisYear workerExperience vacancy H1 H2).
  pose proof (Service_education_inRange workerEducation vacancy).
  pose proof (Service_location_inRange workerProfile vacancy).
  pose proof (Service_salary_inRange workerProfile vacancy H3 H4).
  do 5 (split; [assumption |]). apply total_inRange; assumption.
Qed.

(** So does the batch path, as long as the worker's skill codes are
    pairwise distinct. *)
Lemma Repository_scores_inRange (thisYear : Z) workerSkills workerEducation
    workerExperience vacancySkills (vacancy : Vacancy) workerProfile :
  List.NoDup (map ws_skillCode workerSkills) ->
  scoresInRange (Repository.calculateScoreComponents thisYear workerSkills workerEducation
                   workerExperience vacancySkills vacancy workerProfile).
Proof.
  intros Hnd. unfold scoresInRange, Repository.calculateScoreComponents.
  cbn [skillScore experienceScore educationScore locationScore salaryScore totalScore].
  pose proof (Repository_skill_inRange workerSkills vacancySkills Hnd).
  pose proof (Repository_experience_inRange thisYear workerExperience vacancy).
  pose proof (Repository_education_inRange workerEducation vacancy).
  pose proof (Repository_location_inRange workerProfile vacancy).
  pose proof (Repository_salary_inRange workerProfile vacancy).
  do 5 (split; [assumption |]). apply total_inRange; assumption.
Qed.

End Ranges.

(** C2 (broken by the batch path). Every sub-score and the total score are
    to lie in [0, 100].  For a worker who lists the skill SQL twice and a
    vacancy whose only skill is SQL, the batch path divides 2 matched skills
    by 1 vacancy skill without clamping: its skill score is 200 and its
    total 138.  The single-pair path clamps the ratio and stays in range on
    the same input. *)
Theorem batch_skill_score_exceeds_100 :
  let workerSkills := Samples.skill "SQL" :: Samples.skill "SQL" :: nil in
  let vacancySkills := Samples.wanted "SQL" true :: nil in
  let batch := Repository.calculateScoreComponents 2026 workerSkills
                 (Samples.master :: nil) (Samples.fiveYears :: nil) vacancySkills
                 Samples.tashkentJob (Some Samples.inTashkent) in
  let single := Service.computeScore 2026 workerSkills
                 (Samples.master :: nil) (Samples.fiveYears :: nil) vacancySkills
                 Samples.tashkentJob (Some Samples.inTashkent) in
  validVacancy Samples.tashkentJob
  /\ skillScore batch == 200 /\ totalScore batch == 138
  /\ ~ scoresInRange batch
  /\ skillScore single == 100 /\ scoresInRange single.
Proof.
  cbv zeta.
  assert (V : validVacancy Samples.tashkentJob).
  { repeat split; cbn; try lia; discriminate. }
  split; [exact V |]. split; [reflexivity |]. split; [reflexivity |].
  split; [| split; [reflexivity | apply Service_scores_inRange, V]].
  intros [[_ H] _]. vm_compute in H. apply H. reflexivity.
Qed.

(** ** Single flight *)

Section OneCaller.

Import Cache.

Variables (fetcher : nat -> list CachedMatchScore) (now key owner : string).

Ltac counters :=
  unfold acquired, denied, lockedFetches, fallbackFetches in *;
  cbn [trace at_pc count_event List.filter length] in *.

Lemma traceShape_initial : traceShape initial.
Proof. repeat split. Qed.

Lemma traceShape_loopHead (n : nat) (t : list event) :
  (n <= 5)%nat ->
  acquired {| at_pc := Start; trace := t |} = O ->
  denied {| at_pc := Start; trace := t |} = n ->
  lockedFetches {| at_pc := Start; trace := t |} = O ->
  fallbackFetches {| at_pc := Start; trace := t |} = O ->
  traceShape {| at_pc := loopHead n; trace := t |}.
Proof.
  intros Hn Ha Hd Hl Hf. unfold loopHead, LOCK_MAX_RETRIES.
  destruct (Nat.ltb_spec n 5) as [L | L]; unfold traceShape; cbn [at_pc]; counters.
  - repeat split; assumption.
  - repeat split; try assumption. lia.
Qed.

Lemma traceShape_step (p : proc) (s : shared) :
  traceShape p -> traceShape (step fetcher now key owner p s).1.
Proof.
  destruct p as [c t]. unfold step. cbn [at_pc trace].
  destruct c as [| n | | | m | m | n | n | | m]; intros W.
  - destruct (getMatches key (store s)); cbn [fst].
    + unfold traceShape in *. cbn [at_pc] in *. counters. left. lia.
    + unfold traceShape in W. cbn [at_pc] in W. counters.
      apply traceShape_loopHead; counters; lia.
  - destruct (acquireLock key owner (store s)) as [[|] r]; cbn [fst];
      unfold traceShape in *; cbn [at_pc] in *; counters; lia.
  - destruct (getMatches key (store s)); cbn [fst];
      unfold traceShape in *; cbn [at_pc] in *; counters; lia.
  - cbn [fst]. unfold traceShape in *. cbn [at_pc] in *. counters. lia.
  - cbn [fst]. unfold traceShape in *. cbn [at_pc] in *. counters. lia.
  - cbn [fst]. unfold traceShape in *. cbn [at_pc] in *. counters. left. lia.
  - cbn [fst]. unfold traceShape in *. cbn [at_pc] in *. counters. lia.
  - destruct (getMatches key (store s)); cbn [fst].
    + unfold traceShape in *. cbn [at_pc] in *. counters. left. lia.
    + unfold traceShape in W. cbn [at_pc] in W. counters.
      apply traceShape_loopHead; counters; lia.
  - cbn [fst]. unfold traceShape in *. cbn [at_pc] in *. counters. right. lia.
  - cbn [fst]. exact W.
Qed.

Lemma reachable_traceShape (p : proc) :
  reachable fetcher now key owner p -> traceShape p.
Proof.
  induction 1 as [| p s R IH]; [apply traceShape_initial | apply traceShape_step, IH].
Qed.

(** Whatever the other callers do: a caller fetches at most once, under the
    lock only after its own successful acquisition, and on the fallback
    only after five denied attempts and no acquisition. *)
Lemma traceShape_single_flight (p : proc) :
  traceShape p ->
  (lockedFetches p <= acquired p)%nat /\ (acquired p <= 1)%nat
  /\ (lockedFetches p + fallbackFetches p <= 1)%nat
  /\ (fallbackFetches p = 1%nat -> denied p = 5%nat /\ acquired p = O).
Proof.
  unfold traceShape. destruct (at_pc p); intros W; lia.
Qed.

End OneCaller.

Section TwoCallers.

Import Cache.

Variables (fetcher : nat -> list CachedMatchScore) (now key : string).

Hypothesis fetcher_nonempty : forall n, fetcher n <> nil.

Lemma lockKey_fresh : lockKeyOf key <> key.
Proof.
  intros E. apply (f_equal String.length) in E.
  unfold lockKeyOf in E.
  change (S (S (S (S (S (String.length key))))) = String.length key) in E. lia.
Qed.

Lemma getMatches_insert_lock (v : rvalue) (r : redis) :
  getMatches key (<[lockKeyOf key := v]> r) = getMatches key r.
Proof. unfold getMatches. rewrite lookup_insert_ne by apply lockKey_fresh. reflexivity. Qed.

Lemma getMatches_delete_lock (r : redis) :
  getMatches key (delete (lockKeyOf key) r) = getMatches key r.
Proof. unfold getMatches. rewrite lookup_delete_ne by apply lockKey_fresh. reflexivity. Qed.

Lemma lock_setMatches (m : list CachedMatchScore) (r : redis) :
  setMatches now key m r !! lockKeyOf key = r !! lockKeyOf key.
Proof.
  unfold setMatches. destruct (Nat.eqb (length m) 0); [reflexivity |].
  apply lookup_insert_ne. intros E. apply lockKey_fresh. symmetry. exact E.
Qed.

Lemma holder_setMatches (m : list CachedMatchScore) (r : redis) :
  holder key (setMatches now key m r) = holder key r.
Proof. unfold holder. rewrite lock_setMatches. reflexivity. Qed.

Lemma getMatches_setMatches (m : list CachedMatchScore) (r : redis) :
  m <> nil -> getMatches key (setMatches now key m r) = Some (cacheData now m).
Proof.
  intros H. unfold setMatches, getMatches. destruct m as [| x m]; [congruence |].
  cbn [length Nat.eqb]. rewrite lookup_insert_eq. reflexivity.
Qed.

Lemma holder_lookup (owner : string) (r : redis) :
  holder key r = Some owner -> r !! lockKeyOf key <> None.
Proof. intros H E. unfold holder in H. rewrite E in H. discriminate H. Qed.

End TwoCallers.

Section TwoCallersInvariant.

Import Cache.

Variables (fetcher : nat -> list CachedMatchScore) (now key : string).

Hypothesis fetcher_nonempty : forall n, fetcher n <> nil.

Ltac counters :=
  unfold acquired, denied, lockedFetches, fallbackFetches in *;
  cbn [trace at_pc count_event List.filter length] in *.

Ltac duo :=
  unfold duoInv, held in *; cbn [at_pc store calls] in *; counters;
  intuition (try discriminate; try congruence; try lia).

(** The other caller's half survives a step that leaves the cached list
    alone and does not undo a fallback fetch. *)
Lemma callerInv_other (p p' q : proc) (s s' : shared) :
  callerInv fetcher now key q p s ->
  getMatches key (store s') = getMatches key (store s) ->
  (fallbackFetches p' = O -> fallbackFetches p = O) ->
  callerInv fetcher now key q p' s'.
Proof.
  intros [W H] HC Hfb. split; [exact W |].
  destruct (at_pc q); rewrite ?HC; try exact H.
  - destruct H as [H1 [H2 H3]]. split; [exact H1 |]. split; [| exact H3].
    intros F. apply H2, Hfb, F.
  - destruct H as [H1 H2]. split; [| exact H2].
    intros F. destruct (H1 F) as [A B]. split; [exact A |]. intros G. apply B, Hfb, G.
  - destruct H as [H1 H2]. split; [| exact H2].
    intros F. destruct (H1 F) as [A B]. split; [exact A |]. intros G. apply B, Hfb, G.
Qed.

(** A caller that has fetched under the lock and left [Store] has filled
    the cache. *)
Lemma fetched_fills (p q : proc) (s : shared) :
  callerInv fetcher now key q p s ->
  lockedFetches q = 1%nat ->
  held q = false ->
  getMatches key (store s) <> None.
Proof.
  intros [W H] F Hh. unfold traceShape in W. unfold held in Hh.
  destruct (at_pc q); try discriminate Hh; try lia.
  destruct H as [H1 _]. destruct (H1 F) as [-> _]. discriminate.
Qed.

Lemma callers_step (ownerP ownerQ : string) (p q : proc) (s : shared) :
  ownerP <> ownerQ ->
  callerInv fetcher now key p q s ->
  callerInv fetcher now key q p s ->
  duoInv key ownerP ownerQ p q s ->
  callerInv fetcher now key (step fetcher now key ownerP p s).1 q
    (step fetcher now key ownerP p s).2
  /\ callerInv fetcher now key q (step fetcher now key ownerP p s).1
       (step fetcher now key ownerP p s).2
  /\ duoInv key ownerP ownerQ (step fetcher now key ownerP p s).1 q
       (step fetcher now key ownerP p s).2.
Proof.
  intros Hneq [Wp Hp] Hq [Lp [Lq [Lfree [Hcalls [Hexcl Hfill]]]]].
  pose proof (traceShape_step fetcher now key ownerP p s Wp) as Wp'.
  assert (Hmutex : held p = true -> held q = false).
  { intros A. destruct (held q) eqn:B; [| reflexivity].
    rewrite (Lp A) in Lq. specialize (Lq eq_refl). congruence. }
  destruct p as [c t]. unfold step in *. cbn [at_pc trace] in *.
  destruct c as [| n | | | m | m | n | n | | m].
  - (* Start *)
    destruct (getMatches key (store s)) as [cached |] eqn:EC; cbn [fst snd] in *.
    + split; [| split].
      * split; [exact Wp' |]. cbn [at_pc]. counters.
        unfold traceShape in Wp. cbn [at_pc] in Wp. counters.
        split; [lia | intros; exact EC].
      * eapply callerInv_other; [exact Hq | reflexivity | counters; tauto].
      * duo.
    + split; [| split].
      * split; [exact Wp' | reflexivity].
      * eapply callerInv_other; [exact Hq | reflexivity | counters; tauto].
      * duo.
  - (* Acquire *)
    unfold acquireLock in *.
    destruct (store s !! lockKeyOf key) as [v |] eqn:EL; cbn [fst snd] in *.
    + split; [| split].
      * split; [exact Wp' | exact I].
      * eapply callerInv_other; [exact Hq | reflexivity | counters; tauto].
      * duo.
    + split; [| split].
      * split; [exact Wp' | exact I].
      * eapply callerInv_other; [exact Hq | | counters; tauto].
        cbn [store]. apply getMatches_insert_lock.
      * assert (Hhq : held q = false).
        { destruct (held q) eqn:B; [| reflexivity].
          apply holder_lookup in Lq; [congruence | reflexivity]. }
        unfold duoInv. cbn [at_pc store calls]. counters.
        rewrite getMatches_insert_lock.
        split; [intros _; unfold holder; rewrite lookup_insert_eq; reflexivity |].
        split; [rewrite Hhq; discriminate |].
        split; [unfold held; cbn [at_pc]; discriminate |].
        repeat split; assumption.
  - (* DoubleCheck *)
    unfold traceShape in Wp. cbn [at_pc] in Wp.
    destruct (getMatches key (store s)) as [cached |] eqn:EC; cbn [fst snd] in *.
    + split; [| split].
      * split; [exact Wp' |]. cbn [at_pc]. counters.
        split; [lia | intros; exact EC].
      * eapply callerInv_other; [exact Hq | reflexivity | counters; tauto].
      * duo.
    + split; [| split].
      * split; [exact Wp' | exact EC].
      * eapply callerInv_other; [exact Hq | reflexivity | counters; tauto].
      * duo.
  - (* Fetch *)
    unfold traceShape in Wp. cbn [at_pc] in Wp, Hp. cbn [fst snd].
    assert (Hq0 : lockedFetches q = O).
    { destruct (Nat.eq_dec (lockedFetches q) O) as [E | E]; [exact E |].
      exfalso. apply (fetched_fills _ q s Hq); [counters; lia | | exact Hp].
      apply Hmutex. reflexivity. }
    split; [| split].
    + split; [exact Wp' |]. cbn [at_pc store].
      split; [apply fetcher_nonempty |]. split; [| exact Hp].
      intros F. f_equal. rewrite Hcalls. counters. lia.
    + eapply callerInv_other; [exact Hq | reflexivity | counters; tauto].
    + unfold duoInv. cbn [store calls]. counters.
      split; [intros _; apply Lp; reflexivity |].
      split; [exact Lq |].
      split; [unfold held; cbn [at_pc]; discriminate |].
      split; [lia |]. split; [lia |].
      intros A. rewrite Hp in A. congruence.
  - (* Store *)
    unfold traceShape in Wp. cbn [at_pc] in Wp, Hp. cbn [fst snd].
    destruct Hp as [Hm [Hf0 HC]].
    assert (Hhq : held q = false) by (apply Hmutex; reflexivity).
    split; [| split].
    + split; [exact Wp' |]. cbn [at_pc store]. counters.
      split; [| lia]. intros _.
      split; [apply getMatches_setMatches, Hm | exact Hf0].
    + destruct Hq as [Wq Hq]. split; [exact Wq |].
      unfold held in Hhq. unfold traceShape in Wq.
      destruct (at_pc q); try discriminate Hhq; try exact Hq.
      cbn [store]. destruct Hq as [H1 H2]. split.
      * intros F. counters. lia.
      * intros F G. specialize (H2 F G). congruence.
    + unfold duoInv. cbn [store calls]. counters.
      rewrite holder_setMatches, lock_setMatches.
      split; [intros _; apply Lp; reflexivity |].
      split; [exact Lq |].
      split; [unfold held; cbn [at_pc]; discriminate |].
      split; [exact Hcalls |]. split; [exact Hexcl |].
      intros _. lia.
  - (* Release *)
    unfold traceShape in Wp. cbn [at_pc] in Wp, Hp. cbn [fst snd].
    assert (Hhq : held q = false) by (apply Hmutex; reflexivity).
    assert (ER : releaseLock key ownerP (store s) = delete (lockKeyOf key) (store s)).
    { apply releaseLock_match, Lp. reflexivity. }
    split; [| split].
    + split; [exact Wp' |]. cbn [at_pc store]. rewrite ER, getMatches_delete_lock.
      exact Hp.
    + eapply callerInv_other; [exact Hq | | counters; tauto].
      cbn [store]. rewrite ER. apply getMatches_delete_lock.
    + unfold duoInv. cbn [store calls]. rewrite ER, getMatches_delete_lock.
      split; [unfold held; cbn [at_pc]; discriminate |].
      split; [rewrite Hhq; discriminate |].
      split; [intros _ _; apply lookup_delete_eq |].
      repeat split; assumption.
  - (* Sleep *)
    cbn [fst snd]. split; [| split].
    + split; [exact Wp' | exact I].
    + eapply callerInv_other; [exact Hq | reflexivity | counters; tauto].
    + duo.
  - (* Retry *)
    unfold traceShape in Wp. cbn [at_pc] in Wp.
    destruct (getMatches key (store s)) as [cached |] eqn:EC; cbn [fst snd] in *.
    + split; [| split].
      * split; [exact Wp' |]. cbn [at_pc]. counters.
        split; [lia | intros; exact EC].
      * eapply callerInv_other; [exact Hq | reflexivity | counters; tauto].
      * duo.
    + assert (Hh : held {| at_pc := loopHead (S n); trace := t |} = false).
      { unfold loopHead, held. cbn [at_pc]. destruct (Nat.ltb (S n) LOCK_MAX_RETRIES); reflexivity. }
      split; [| split].
      * split; [exact Wp' |]. cbn [at_pc]. unfold loopHead.
        destruct (Nat.ltb (S n) LOCK_MAX_RETRIES); exact I.
      * eapply callerInv_other; [exact Hq | reflexivity | counters; tauto].
      * unfold duoInv. rewrite Hh. cbn [store calls]. counters.
        split; [discriminate |]. split; [exact Lq |].
        split; [intros _; apply Lfree; reflexivity |].
        split; [exact Hcalls |]. split; [exact Hexcl |].
        intros A. congruence.
  - (* Fallback *)
    unfold traceShape in Wp. cbn [at_pc] in Wp. cbn [fst snd].
    split; [| split].
    + split; [exact Wp' |]. cbn [at_pc store]. counters.
      split; [lia | intros _ F; discriminate F].
    + eapply callerInv_other; [exact Hq | reflexivity | counters; discriminate].
    + unfold duoInv. cbn [store calls]. counters.
      split; [exact Lp |]. split; [exact Lq |]. split; [exact Lfree |].
      split; [lia |]. split; [exact Hexcl | exact Hfill].
  - (* Done *)
    cbn [fst snd]. split; [split; assumption |]. split; [exact Hq |].
    duo.
Qed.

End TwoCallersInvariant.

Section TwoCallersRun.

Import Cache.

Variables (fetcher : nat -> list CachedMatchScore) (now key ownerA ownerB : string).

Hypothesis fetcher_nonempty : forall n, fetcher n <> nil.
Hypothesis owners_differ : ownerA <> ownerB.

Let duoAll := twoCallersInv fetcher now key ownerA ownerB.

Lemma duoInv_swap (p q : proc) (s : shared) :
  duoInv key ownerA ownerB p q s -> duoInv key ownerB ownerA q p s.
Proof.
  unfold duoInv. intros [H1 [H2 [H3 [H4 [H5 H6]]]]].
  split; [exact H2 |]. split; [exact H1 |].
  split; [intros A B; apply H3; assumption |].
  split; [lia |]. split; [lia |]. intros A. specialize (H6 A). lia.
Qed.

Lemma duoInv_swap_back (p q : proc) (s : shared) :
  duoInv key ownerB ownerA q p s -> duoInv key ownerA ownerB p q s.
Proof.
  unfold duoInv. intros [H1 [H2 [H3 [H4 [H5 H6]]]]].
  split; [exact H2 |]. split; [exact H1 |].
  split; [intros A B; apply H3; assumption |].
  split; [lia |]. split; [lia |]. intros A. specialize (H6 A). lia.
Qed.

Lemma duoAll_initial : duoAll (duo_initial ∅).
Proof.
  unfold duoAll, twoCallersInv, duo_initial, callerInv, duoInv.
  cbn [callerA callerB world store calls].
  split; [split; [apply traceShape_initial | exact I] |].
  split; [split; [apply traceShape_initial | exact I] |].
  unfold held, holder, getMatches. cbn [initial at_pc]. rewrite !lookup_empty.
  repeat split; try discriminate; try reflexivity; auto. intros A. congruence.
Qed.

Lemma duoAll_step (who : bool) (d : duo) :
  duoAll d -> duoAll (duo_step fetcher now key ownerA ownerB who d).
Proof.
  intros [HA [HB HD]]. unfold duo_step. destruct who.
  - pose proof (callers_step fetcher now key fetcher_nonempty ownerA ownerB
                  (callerA d) (callerB d) (world d) owners_differ HA HB HD) as [A [B D]].
    destruct (step fetcher now key ownerA (callerA d) (world d)) as [p s].
    unfold duoAll, twoCallersInv. cbn [callerA callerB world fst snd] in *. tauto.
  - assert (Hne : ownerB <> ownerA) by congruence.
    pose proof (callers_step fetcher now key fetcher_nonempty ownerB ownerA
                  (callerB d) (callerA d) (world d) Hne HB HA (duoInv_swap _ _ _ HD))
      as [A [B D]].
    destruct (step fetcher now key ownerB (callerB d) (world d)) as [p s].
    unfold duoAll, twoCallersInv. cbn [callerA callerB world fst snd] in *.
    split; [exact B |]. split; [exact A |]. apply duoInv_swap_back, D.
Qed.

Lemma duoAll_run (schedule : list bool) (d : duo) :
  duoAll d -> duoAll (duo_run fetcher now key ownerA ownerB schedule d).
Proof.
  unfold duo_run. revert d. induction schedule as [| who r IH]; intros d H; cbn [fold_left].
  - exact H.
  - apply IH, duoAll_step, H.
Qed.

(** The outcome of two finished callers that did not fall back. *)
Lemma duoAll_outcome (d : duo) (rA rB : list CachedMatchScore) :
  duoAll d ->
  result_of (callerA d) = Some rA ->
  result_of (callerB d) = Some rB ->
  fallbackFetches (callerA d) = O ->
  fallbackFetches (callerB d) = O ->
  calls (world d) = 1%nat
  /\ ((rA = fetcher O /\ rB = cacheData now (fetcher O))
      \/ (rB = fetcher O /\ rA = cacheData now (fetcher O))).
Proof.
  intros [[WA HA] [[WB HB] HD]] EA EB FA FB. unfold result_of in EA, EB.
  destruct (at_pc (callerA d)) eqn:PA; try discriminate EA.
  destruct (at_pc (callerB d)) eqn:PB; try discriminate EB.
  injection EA as ->. injection EB as ->.
  destruct HD as [_ [_ [_ [Hcalls [Hexcl Hfill]]]]].
  destruct HA as [A1 A0]. destruct HB as [B1 B0].
  unfold traceShape in WA, WB. rewrite PA in WA. rewrite PB in WB.
  destruct (Nat.eq_dec (lockedFetches (callerA d)) 1%nat) as [LA | LA].
  - destruct (A1 LA) as [CA VA].
    assert (LB : lockedFetches (callerB d) = O) by lia.
    specialize (B0 LB FB). rewrite CA in B0. injection B0 as <-.
    split; [lia |]. left. rewrite (VA FB). split; reflexivity.
  - assert (LA0 : lockedFetches (callerA d) = O) by lia.
    specialize (A0 LA0 FA).
    assert (LB : lockedFetches (callerB d) = 1%nat).
    { assert (N : getMatches key (store (world d)) <> None) by (rewrite A0; discriminate).
      specialize (Hfill N). lia. }
    destruct (B1 LB) as [CB VB]. rewrite CB in A0. injection A0 as <-.
    split; [lia |]. right. rewrite (VB FA). split; reflexivity.
Qed.

End TwoCallersRun.

(** C8 (as amended).  Whatever the other callers do, one call of
    [getOrSetWorkerCache] / [getOrSetVacancyCache] invokes the fetcher at
    most once: under the lock only after its own successful acquisition, on
    the fallback only after five denied attempts.  For two concurrent calls
    on an empty store, with a fetcher that never returns an empty list and
    no key expiring meanwhile, at most one fetch happens under the lock;
    when both calls have returned and neither fell back, the fetcher ran
    exactly once, the caller that fetched returns the fetcher's list and the
    other returns the list persisted from it. *)
Theorem single_flight :
  (forall fetcher now key owner p,
     Cache.reachable fetcher now key owner p ->
     (lockedFetches p <= acquired p)%nat /\ (acquired p <= 1)%nat
     /\ (lockedFetches p + fallbackFetches p <= 1)%nat
     /\ (fallbackFetches p = 1%nat -> denied p = 5%nat /\ acquired p = O))
  /\ (forall fetcher now key ownerA ownerB schedule,
        ownerA <> ownerB ->
        (forall n, fetcher n <> nil) ->
        let d := Cache.duo_run fetcher now key ownerA ownerB schedule
                   (Cache.duo_initial ∅) in
        (lockedFetches (Cache.callerA d) + lockedFetches (Cache.callerB d) <= 1)%nat
        /\ forall rA rB,
             Cache.result_of (Cache.callerA d) = Some rA ->
             Cache.result_of (Cache.callerB d) = Some rB ->
             fallbackFetches (Cache.callerA d) = O ->
             fallbackFetches (Cache.callerB d) = O ->
             Cache.calls (Cache.world d) = 1%nat
             /\ ((rA = fetcher O /\ rB = Cache.cacheData now (fetcher O))
                 \/ (rB = fetcher O /\ rA = Cache.cacheData now (fetcher O)))).
Proof.
  split.
  - intros fetcher now key owner p R.
    apply traceShape_single_flight. eapply reachable_traceShape, R.
  - intros fetcher now key ownerA ownerB schedule Hne Hf d.
    pose proof (duoAll_run fetcher now key ownerA ownerB Hf Hne schedule
                  (Cache.duo_initial ∅) (duoAll_initial fetcher now key ownerA ownerB)) as H.
    fold d in H. split.
    + destruct H as [_ [_ [_ [_ [_ [_ [E _]]]]]]]. exact E.
    + intros rA rB. apply (duoAll_outcome fetcher now key ownerA ownerB d rA rB H).
Qed.

Lemma single_flight_witness :
  let fetcher := fun _ : nat => CacheSamples.three in
  let d := Cache.duo_run fetcher "t1" (Cache.vacancyKey "v1") "a" "b"
             FlightSamples.aThenB_hit (Cache.duo_initial ∅) in
  Cache.calls (Cache.world d) = 1%nat
  /\ Cache.result_of (Cache.callerA d) = Some CacheSamples.three
  /\ Cache.result_of (Cache.callerB d) = Some (Cache.cacheData "t1" CacheSamples.three).
Proof.
  cbv zeta.
  pose proof (proj2 single_flight (fun _ : nat => CacheSamples.three) "t1"
                (Cache.vacancyKey "v1") "a" "b" FlightSamples.aThenB_hit) as H.
  cbv zeta in H.
  destruct H as [_ H]; [discriminate | intros n; discriminate |].
  destruct (H CacheSamples.three (Cache.cacheData "t1" CacheSamples.three))
    as [C _]; try (vm_compute; reflexivity).
  split; [exact C |]. split; vm_compute; reflexivity.
Defined.

(** C8 as stated fails when the fetcher finds nothing: an empty list is not
    cached, so the second caller acquires the lock after the first released
    it, misses again and fetches too (two invocations, no fallback).  And
    with a hit, the two callers return different lists when the fetched
    list is not already in cache form. *)
Lemma single_flight_empty_fetch_twice :
  (let d := Cache.duo_run (fun _ => nil) "t1" (Cache.vacancyKey "v1") "a" "b"
              FlightSamples.aThenB_miss (Cache.duo_initial ∅) in
   Cache.result_of (Cache.callerA d) = Some nil
   /\ Cache.result_of (Cache.callerB d) = Some nil
   /\ fallbackFetches (Cache.callerA d) = O /\ fallbackFetches (Cache.callerB d) = O
   /\ Cache.calls (Cache.world d) = 2%nat)
  /\ (let d := Cache.duo_run (fun _ => CacheSamples.three) "t1" (Cache.vacancyKey "v1")
                 "a" "b" FlightSamples.aThenB_hit (Cache.duo_initial ∅) in
      exists rA rB,
        Cache.result_of (Cache.callerA d) = Some rA
        /\ Cache.result_of (Cache.callerB d) = Some rB
        /\ Cache.calls (Cache.world d) = 1%nat
        /\ rA <> rB).
Proof.
  split.
  - cbv zeta. repeat split; vm_compute; reflexivity.
  - cbv zeta. exists CacheSamples.three, (Cache.cacheData "t1" CacheSamples.three).
    split; [vm_compute; reflexivity |]. split; [vm_compute; reflexivity |].
    split; [vm_compute; reflexivity |].
    intros E. vm_compute in E. discriminate E.
Qed.

(** * Further properties of the modelled code *)

(** ** Cache entries: writing, reading back, key spaces *)

Section CacheEntries.

Import Cache.

Lemma workerKey_not_vacancyKey (a b : string) : workerKey a <> vacancyKey b.
Proof.
  intros E. apply (f_equal (String.get 0)) in E. vm_compute in E. discriminate E.
Qed.

Lemma workerKey_not_lock (a k : string) : workerKey a <> lockKeyOf k.
Proof.
  intros E. apply (f_equal (String.get 0)) in E. vm_compute in E. discriminate E.
Qed.

Lemma vacancyKey_not_lock (b k : string) : vacancyKey b <> lockKeyOf k.
Proof.
  intros E. apply (f_equal (String.get 0)) in E. vm_compute in E. discriminate E.
Qed.

Lemma workerKey_inj (a b : string) : workerKey a = workerKey b -> a = b.
Proof. unfold workerKey. cbv [String.append]. intros E. injection E. tauto. Qed.

Lemma vacancyKey_inj (a b : string) : vacancyKey a = vacancyKey b -> a = b.
Proof. unfold vacancyKey. cbv [String.append]. intros E. injection E. tauto. Qed.

Lemma lockKeyOf_inj (a b : string) : lockKeyOf a = lockKeyOf b -> a = b.
Proof. unfold lockKeyOf. cbv [String.append]. intros E. injection E. tauto. Qed.

Lemma setMatches_other (now key other : string) (m : list CachedMatchScore) (r : redis) :
  other <> key -> setMatches now key m r !! other = r !! other.
Proof.
  intros H. unfold setMatches. destruct (Nat.eqb (length m) 0); [reflexivity |].
  apply lookup_insert_ne. congruence.
Qed.

Lemma getMatches_setMatches_eq (now key : string) (m : list CachedMatchScore) (r : redis) :
  getMatches key (setMatches now key m r)
  = match m with nil => getMatches key r | _ => Some (cacheData now m) end.
Proof.
  unfold setMatches, getMatches. destruct m as [| x m]; [reflexivity |].
  cbn [length Nat.eqb]. rewrite lookup_insert_eq. reflexivity.
Qed.

End CacheEntries.

Ltac keys :=
  first
    [ apply workerKey_not_vacancyKey | apply not_eq_sym, workerKey_not_vacancyKey
    | apply workerKey_not_lock | apply not_eq_sym, workerKey_not_lock
    | apply vacancyKey_not_lock | apply not_eq_sym, vacancyKey_not_lock
    | let E := fresh in
      intros E;
      first [ apply workerKey_inj in E | apply vacancyKey_inj in E
            | apply lockKeyOf_inj in E ];
      congruence ].

(** X1. Reading back after a write: a non-empty list is read back as its
    cached form (at most 50 entries, descending); an empty list leaves
    whatever was cached before in place; after an invalidation the read
    misses. *)
Theorem cache_write_then_read
    (now id : string) (matches : list Cache.CachedMatchScore)
    (r : gmap string Cache.rvalue) :
  (matches <> nil ->
     Cache.getWorkerMatches id (Cache.setWorkerMatches now id matches r)
     = Some (Cache.cacheData now matches)
     /\ Cache.getVacancyMatches id (Cache.setVacancyMatches now id matches r)
        = Some (Cache.cacheData now matches)
     /\ (length (Cache.cacheData now matches) <= 50)%nat
     /\ sortedDesc (Cache.cacheData now matches))
  /\ Cache.getWorkerMatches id (Cache.setWorkerMatches now id nil r)
     = Cache.getWorkerMatches id r
  /\ Cache.getVacancyMatches id (Cache.setVacancyMatches now id nil r)
     = Cache.getVacancyMatches id r
  /\ Cache.getWorkerMatches id (Cache.invalidateWorkerCache id r) = None
  /\ Cache.getVacancyMatches id (Cache.invalidateVacancyCache id r) = None.
Proof.
  unfold Cache.getWorkerMatches, Cache.getVacancyMatches, Cache.setWorkerMatches,
    Cache.setVacancyMatches, Cache.invalidateWorkerCache, Cache.invalidateVacancyCache.
  split; [| split; [| split; [| split]]].
  - intros H. rewrite !getMatches_setMatches_eq.
    destruct matches; [congruence |].
    split; [reflexivity |]. split; [reflexivity |].
    split; [apply cacheData_bounded | apply cacheData_sorted].
  - reflexivity.
  - reflexivity.
  - unfold Cache.getMatches. rewrite lookup_delete_eq. reflexivity.
  - unfold Cache.getMatches. rewrite lookup_delete_eq. reflexivity.
Qed.

Lemma cache_write_then_read_witness :
  Cache.getWorkerMatches "w1" (Cache.setWorkerMatches "t1" "w1" CacheSamples.three ∅)
  = Some (Cache.cacheData "t1" CacheSamples.three).
Proof.
  apply (cache_write_then_read "t1" "w1" CacheSamples.three ∅). discriminate.
Defined.

(** X2. The three key spaces do not meet.  Writing or invalidating the
    cache entry of one worker changes no other worker's entry, no vacancy
    entry and no lock; likewise for vacancies; acquiring or releasing a
    lock changes no cache entry and no other lock. *)
Theorem cache_key_spaces_are_separate
    (now id other key owner : string) (matches : list Cache.CachedMatchScore)
    (r : gmap string Cache.rvalue) :
  let afterWorker :=
    (Cache.setWorkerMatches now id matches r, Cache.invalidateWorkerCache id r) in
  let afterVacancy :=
    (Cache.setVacancyMatches now id matches r, Cache.invalidateVacancyCache id r) in
  let afterLock :=
    ((Cache.acquireLock key owner r).2, Cache.releaseLock key owner r) in
  (forall r', r' = afterWorker.1 \/ r' = afterWorker.2 ->
     Cache.getVacancyMatches other r' = Cache.getVacancyMatches other r
     /\ holder other r' = holder other r
     /\ (other <> id -> Cache.getWorkerMatches other r' = Cache.getWorkerMatches other r))
  /\ (forall r', r' = afterVacancy.1 \/ r' = afterVacancy.2 ->
        Cache.getWorkerMatches other r' = Cache.getWorkerMatches other r
        /\ holder other r' = holder other r
        /\ (other <> id ->
            Cache.getVacancyMatches other r' = Cache.getVacancyMatches other r))
  /\ (forall r', r' = afterLock.1 \/ r' = afterLock.2 ->
        Cache.getWorkerMatches other r' = Cache.getWorkerMatches other r
        /\ Cache.getVacancyMatches other r' = Cache.getVacancyMatches other r
        /\ (other <> key -> holder other r' = holder other r)).
Proof.
  cbv zeta. cbn [fst snd].
  unfold Cache.getWorkerMatches, Cache.getVacancyMatches, Cache.setWorkerMatches,
    Cache.setVacancyMatches, Cache.invalidateWorkerCache, Cache.invalidateVacancyCache,
    Cache.getMatches, holder.
  split; [| split].
  - intros r' [-> | ->]; (split; [| split]); intros;
      rewrite ?setMatches_other, ?lookup_delete_ne by keys; reflexivity.
  - intros r' [-> | ->]; (split; [| split]); intros;
      rewrite ?setMatches_other, ?lookup_delete_ne by keys; reflexivity.
  - intros r' [-> | ->]; unfold Cache.acquireLock, Cache.releaseLock;
      destruct (r !! Cache.lockKeyOf key) as [[l | h] |] eqn:E; cbn [snd];
      try destruct (String.eqb h owner);
      (split; [| split]); intros;
      rewrite ?lookup_insert_ne, ?lookup_delete_ne by keys; reflexivity.
Qed.

Lemma cache_key_spaces_are_separate_witness :
  Cache.getVacancyMatches "w1" (Cache.setWorkerMatches "t1" "w1" CacheSamples.three ∅)
  = Cache.getVacancyMatches "w1" ∅.
Proof.
  destruct (cache_key_spaces_are_separate "t1" "w1" "w1" "k" "o" CacheSamples.three ∅)
    as [H _].
  apply (H (Cache.setWorkerMatches "t1" "w1" CacheSamples.three ∅)).
  left. reflexivity.
Defined.

(** ** Cached lists that are already in order *)

Section CacheOrder.

Import Cache.

Lemma sort_desc_sorted_id (l : list CachedMatchScore) :
  sortedDesc l -> sort_desc l = l.
Proof.
  unfold sortedDesc. induction 1 as [| a r S IH Ha]; cbn [sort_desc]; [reflexivity |].
  rewrite IH. destruct r as [| b r']; cbn [insert_desc]; [reflexivity |].
  apply Forall_inv in Ha. apply Qle_bool_iff in Ha. rewrite Ha. reflexivity.
Qed.

Lemma restamp_restamp (now : string) (m : CachedMatchScore) :
  restamp now (restamp now m) = restamp now m.
Proof. reflexivity. Qed.

Lemma cacheData_of_sorted (now : string) (l : list CachedMatchScore) :
  sortedDesc l -> cacheData now l = map (restamp now) (firstn 50 l).
Proof.
  intros S. unfold cacheData, Js.slice, CACHE_LIMIT. rewrite (sort_desc_sorted_id l S).
  rewrite List.skipn_0. reflexivity.
Qed.

End CacheOrder.

(** X3. A list that is already in descending order of total score (what
    the repository queries return) is cached as its first 50 entries, in
    the same order, with only [cachedAt] renewed; in particular entries
    of equal score keep their order, and caching a cached list again at
    the same instant changes nothing. *)
Theorem cacheData_keeps_descending_input
    (now : string) (matches : list Cache.CachedMatchScore) :
  sortedDesc matches ->
  Cache.cacheData now matches = map (Cache.restamp now) (firstn 50 matches)
  /\ Cache.cacheData now (Cache.cacheData now matches) = Cache.cacheData now matches.
Proof.
  intros S. split; [apply cacheData_of_sorted, S |].
  rewrite (cacheData_of_sorted now (Cache.cacheData now matches))
    by apply cacheData_sorted.
  rewrite firstn_all2 by apply cacheData_bounded.
  unfold Cache.cacheData. rewrite map_map. apply map_ext. intros a. reflexivity.
Qed.

Lemma cacheData_keeps_descending_input_witness :
  Cache.cacheData "t2" (Cache.cacheData "t1" CacheSamples.three)
  = map (Cache.restamp "t2") (firstn 50 (Cache.cacheData "t1" CacheSamples.three)).
Proof.
  apply (cacheData_keeps_descending_input "t2" (Cache.cacheData "t1" CacheSamples.three)).
  apply cacheData_sorted.
Defined.

(** ** The lock on its own *)

(** X4. Taking a free lock and releasing it with the same token gives the
    store back exactly as it was.  While the lock is taken every further
    [acquireLock] is refused and changes nothing, whoever asks (the lock
    is not re-entrant), and a release with another token changes nothing. *)
Theorem lock_acquire_release_round_trip
    (key owner other : string) (r : gmap string Cache.rvalue) :
  r !! Cache.lockKeyOf key = None ->
  let r1 := (Cache.acquireLock key owner r).2 in
  (Cache.acquireLock key owner r).1 = true
  /\ holder key r1 = Some owner
  /\ Cache.releaseLock key owner r1 = r
  /\ Cache.acquireLock key other r1 = (false, r1)
  /\ Cache.acquireLock key owner r1 = (false, r1)
  /\ (other <> owner -> Cache.releaseLock key other r1 = r1).
Proof.
  intros Hfree. unfold Cache.acquireLock at 1 2. rewrite Hfree. cbn [fst snd]. cbv zeta.
  unfold holder, Cache.releaseLock, Cache.acquireLock. rewrite !lookup_insert_eq.
  rewrite String.eqb_refl.
  split; [reflexivity |]. split; [reflexivity |].
  split; [apply delete_insert_id, Hfree |].
  split; [reflexivity |]. split; [reflexivity |].
  intros Hne. destruct (String.eqb owner other) eqn:E; [| reflexivity].
  apply String.eqb_eq in E. congruence.
Qed.

Lemma lock_acquire_release_round_trip_witness :
  Cache.releaseLock "k" "a" (Cache.acquireLock "k" "a" ∅).2 = ∅.
Proof.
  apply (lock_acquire_release_round_trip "k" "a" "b" ∅). reflexivity.
Defined.

(** ** How long a call takes *)

Section BoundedWait.

Import Cache.

Variables (fetcher : nat -> list CachedMatchScore) (now key owner : string).

Lemma step_stepsLeft (p : proc) (s : shared) :
  attemptsOk (at_pc p) ->
  attemptsOk (at_pc (step fetcher now key owner p s).1)
  /\ (stepsLeft (at_pc (step fetcher now key owner p s).1)
      <= Nat.pred (stepsLeft (at_pc p)))%nat.
Proof.
  destruct p as [c t]. unfold step. cbn [at_pc trace].
  destruct c as [| n | | | m | m | n | n | | m]; cbn [attemptsOk]; intros H.
  - destruct (getMatches key (store s)); cbn; split; try exact I; lia.
  - destruct (acquireLock key owner (store s)) as [[|] r]; cbn [fst at_pc attemptsOk stepsLeft];
      split; try exact I; try exact H; lia.
  - destruct (getMatches key (store s)); cbn; split; try exact I; lia.
  - cbn. split; [exact I | lia].
  - cbn. split; [exact I | lia].
  - cbn. split; [exact I | lia].
  - cbn [fst at_pc attemptsOk stepsLeft]. split; [exact H | lia].
  - destruct (getMatches key (store s)); cbn [fst at_pc attemptsOk stepsLeft];
      [split; [exact I | lia] |].
    unfold loopHead, LOCK_MAX_RETRIES.
    destruct (Nat.ltb (S n) 5) eqn:E; cbn [attemptsOk stepsLeft].
    + apply Nat.ltb_lt in E. split; [exact E | lia].
    + split; [exact I | lia].
  - cbn. split; [exact I | lia].
  - cbn. split; [exact I | lia].
Qed.

Lemma runWith_stepsLeft (found : list shared) (p : proc) :
  attemptsOk (at_pc p) ->
  attemptsOk (at_pc (runWith fetcher now key owner found p))
  /\ (stepsLeft (at_pc (runWith fetcher now key owner found p))
      <= stepsLeft (at_pc p) - length found)%nat.
Proof.
  unfold runWith. revert p. induction found as [| s rest IH]; intros p H; cbn [fold_left length].
  - split; [exact H | lia].
  - destruct (step_stepsLeft p s H) as [A B].
    destruct (IH _ A) as [C D]. split; [exact C | lia].
Qed.

Lemma stepsLeft_0 (c : pc) :
  attemptsOk c -> stepsLeft c = O -> exists result, c = Done result.
Proof.
  destruct c as [| n | | | m | m | n | n | | m]; cbn [attemptsOk stepsLeft]; intros H E;
    try discriminate E; try lia.
  exists m. reflexivity.
Qed.

Lemma runAlone_runWith (n : nat) (p : proc) (s : shared) :
  exists found, length found = n
    /\ (runAlone fetcher now key owner n p s).1 = runWith fetcher now key owner found p.
Proof.
  revert p s. induction n as [| n IH]; intros p s; cbn [runAlone].
  - exists nil. split; reflexivity.
  - destruct (step fetcher now key owner p s) as [p' s'] eqn:E.
    destruct (IH p' s') as [found [L R]].
    exists (s :: found). split; [cbn [length]; lia |].
    rewrite R. unfold runWith. cbn [fold_left]. rewrite E. reflexivity.
Qed.

End BoundedWait.

(** X5. A call returns after at most 18 of its own steps (one per
    [await]), whatever the other callers and key expiry do to the store
    in between: it never waits for the lock more than five times. *)
Theorem getOrSet_returns_within_18_steps
    (fetcher : nat -> list Cache.CachedMatchScore) (now key owner : string)
    (found : list Cache.shared) :
  (Cache.MAX_STEPS <= length found)%nat ->
  exists result,
    Cache.at_pc (Cache.runWith fetcher now key owner found Cache.initial)
    = Cache.Done result.
Proof.
  intros L. unfold Cache.MAX_STEPS in L.
  destruct (runWith_stepsLeft fetcher now key owner found Cache.initial I) as [A B].
  apply stepsLeft_0; [exact A |].
  cbn [Cache.initial Cache.at_pc stepsLeft] in B. lia.
Qed.

Lemma getOrSet_returns_within_18_steps_witness :
  exists result,
    Cache.at_pc
      (Cache.runWith (fun _ => CacheSamples.three) "t1" "worker:w1" "a"
         (repeat {| Cache.store := ∅; Cache.calls := 0 |} 18) Cache.initial)
    = Cache.Done result.
Proof.
  apply (getOrSet_returns_within_18_steps (fun _ => CacheSamples.three) "t1" "worker:w1" "a"
           (repeat {| Cache.store := ∅; Cache.calls := 0 |} 18)).
  cbn [repeat length]. unfold Cache.MAX_STEPS. lia.
Defined.

(** ** A call with nobody else around *)

Section Alone.

Import Cache.

Variables (fetcher : list CachedMatchScore) (now key owner : string).

Lemma getOrSetAlone_hit (r : redis) (cached : list CachedMatchScore) :
  getMatches key r = Some cached ->
  getOrSetAlone fetcher now key owner r = Some (cached, r).
Proof.
  intros H. unfold getOrSetAlone, MAX_STEPS. cbn [runAlone].
  unfold step at 1. cbn [at_pc initial store]. rewrite H. reflexivity.
Qed.

Lemma getOrSetAlone_miss_free (r : redis) :
  getMatches key r = None ->
  r !! lockKeyOf key = None ->
  getOrSetAlone fetcher now key owner r = Some (fetcher, setMatches now key fetcher r).
Proof.
  intros H Hfree. unfold getOrSetAlone, MAX_STEPS.
  cbn [runAlone]. unfold step at 1. cbn [at_pc initial store trace]. rewrite H.
  unfold loopHead, LOCK_MAX_RETRIES. cbn [Nat.ltb Nat.leb].
  unfold step at 1. cbn [at_pc store trace calls]. unfold acquireLock. rewrite Hfree.
  unfold step at 1. cbn [at_pc store trace calls].
  rewrite getMatches_insert_lock, H.
  unfold step at 1. cbn [at_pc store trace calls].
  unfold step at 1. cbn [at_pc store trace calls].
  unfold step at 1. cbn [at_pc store trace calls].
  cbn [step at_pc store].
  f_equal. f_equal. unfold releaseLock.
  rewrite lock_setMatches, lookup_insert_eq, String.eqb_refl.
  unfold setMatches. destruct (Nat.eqb (length fetcher) 0).
  - apply delete_insert_id, Hfree.
  - rewrite delete_insert_ne by apply lockKey_fresh.
    rewrite delete_insert_id by exact Hfree. reflexivity.
Qed.

Lemma getOrSetAlone_lock_taken (r : redis) :
  getMatches key r = None ->
  r !! lockKeyOf key <> None ->
  getOrSetAlone fetcher now key owner r = Some (fetcher, r).
Proof.
  intros H Htaken. unfold getOrSetAlone, MAX_STEPS.
  destruct (r !! lockKeyOf key) as [v |] eqn:E; [clear Htaken | congruence].
  cbn [runAlone]. unfold step at 1. cbn [at_pc initial store trace]. rewrite H.
  unfold loopHead, LOCK_MAX_RETRIES. cbn [Nat.ltb Nat.leb].
  do 5 (unfold step at 1; cbn [at_pc store trace calls]; unfold acquireLock; rewrite E;
        unfold step at 1; cbn [at_pc store trace calls];
        unfold step at 1; cbn [at_pc store trace calls]; rewrite H;
        unfold loopHead, LOCK_MAX_RETRIES; cbn [Nat.ltb Nat.leb]).
  cbn [step at_pc store]. reflexivity.
Qed.

End Alone.

(** X6. The outcome of a call that runs with nobody else touching the
    store.  It always returns.  On a hit it returns the cached list and
    writes nothing.  On a miss it returns what the fetcher gave; if the
    lock was free the store afterwards is the one [set...Matches] leaves
    (nothing written for an empty list) with the lock released again, and
    if the lock was taken (and stays taken) the store is untouched: the
    fallback fetch is not cached. *)
Theorem lone_call_outcome
    (fetcher : list Cache.CachedMatchScore) (now key owner : string)
    (r : gmap string Cache.rvalue) :
  exists result r',
    Cache.getOrSetAlone fetcher now key owner r = Some (result, r')
    /\ r' !! Cache.lockKeyOf key = r !! Cache.lockKeyOf key
    /\ match Cache.getMatches key r with
       | Some cached => result = cached /\ r' = r
       | None =>
         result = fetcher
         /\ (r !! Cache.lockKeyOf key = None ->
               r' = Cache.setMatches now key fetcher r)
         /\ (r !! Cache.lockKeyOf key <> None -> r' = r)
       end.
Proof.
  destruct (Cache.getMatches key r) as [cached |] eqn:H.
  - exists cached, r. rewrite (getOrSetAlone_hit _ _ _ _ _ _ H). tauto.
  - destruct (r !! Cache.lockKeyOf key) as [v |] eqn:E.
    + exists fetcher, r. rewrite getOrSetAlone_lock_taken by congruence.
      rewrite E. repeat split; try reflexivity. intros A. discriminate A.
    + exists fetcher, (Cache.setMatches now key fetcher r).
      rewrite (getOrSetAlone_miss_free _ _ _ _ _ H E).
      rewrite lock_setMatches, E. repeat split; try reflexivity. intros A. congruence.
Qed.



(** ** The lock under two callers, whatever the fetcher returns *)

Section LockInvariant.

Import Cache.

Variables (fetcher : nat -> list CachedMatchScore) (now key : string).

Lemma lockInv_swap (ownerP ownerQ : string) (p q : proc) (r : redis) :
  lockInv key ownerP ownerQ p q r -> lockInv key ownerQ ownerP q p r.
Proof. unfold lockInv. intros [A [B C]]. auto. Qed.

Lemma lockInv_step (ownerP ownerQ : string) (p q : proc) (s : shared) :
  ownerP <> ownerQ ->
  lockInv key ownerP ownerQ p q (store s) ->
  lockInv key ownerP ownerQ (step fetcher now key ownerP p s).1 q
    (store (step fetcher now key ownerP p s).2).
Proof.
  intros Hneq [Lp [Lq Lfree]].
  assert (Hmutex : held p = true -> held q = false).
  { intros A. destruct (held q) eqn:B; [| reflexivity].
    rewrite (Lp A) in Lq. specialize (Lq eq_refl). congruence. }
  destruct p as [c t]. unfold lockInv, step, held in *. cbn [at_pc trace] in *.
  destruct c as [| n | | | m | m | n | n | | m].
  - destruct (getMatches key (store s)); cbn [fst snd at_pc loopHead];
      [| unfold loopHead; destruct (Nat.ltb 0 LOCK_MAX_RETRIES)];
      cbn [fst snd at_pc]; auto.
  - unfold acquireLock. destruct (store s !! lockKeyOf key) as [v |] eqn:E;
      cbn [fst snd at_pc store].
    + rewrite E. auto.
    + unfold holder. rewrite lookup_insert_eq. split; [reflexivity |].
      split; [| discriminate].
      intros A. specialize (Lq A). unfold holder in Lq. rewrite E in Lq. discriminate Lq.
  - destruct (getMatches key (store s)); cbn [fst snd at_pc]; auto.
  - cbn [fst snd at_pc store]. auto.
  - cbn [fst snd at_pc store]. rewrite holder_setMatches, lock_setMatches. auto.
  - cbn [fst snd at_pc store]. specialize (Lp eq_refl). specialize (Hmutex eq_refl).
    split; [discriminate |]. split; [intros A; congruence |]. intros _ _.
    unfold releaseLock. unfold holder in Lp.
    destruct (store s !! lockKeyOf key) as [[l | h] |]; try discriminate Lp.
    injection Lp as ->. rewrite String.eqb_refl. apply lookup_delete_eq.
  - cbn [fst snd at_pc]. auto.
  - destruct (getMatches key (store s)); cbn [fst snd at_pc];
      [| unfold loopHead; destruct (Nat.ltb (S n) LOCK_MAX_RETRIES)];
      cbn [fst snd at_pc]; auto.
  - cbn [fst snd at_pc store]. auto.
  - cbn [fst snd at_pc]. auto.
Qed.

Lemma lockInv_run (ownerA ownerB : string) (schedule : list bool) (d : duo) :
  ownerA <> ownerB ->
  lockInv key ownerA ownerB (callerA d) (callerB d) (store (world d)) ->
  let d' := duo_run fetcher now key ownerA ownerB schedule d in
  lockInv key ownerA ownerB (callerA d') (callerB d') (store (world d')).
Proof.
  intros Hneq. cbv zeta. unfold duo_run. revert d.
  induction schedule as [| who rest IH]; intros d H; cbn [fold_left]; [exact H |].
  apply IH. unfold duo_step. destruct who.
  - pose proof (lockInv_step ownerA ownerB _ _ _ Hneq H) as H'.
    destruct (step fetcher now key ownerA (callerA d) (world d)) as [p s].
    exact H'.
  - assert (Hne : ownerB <> ownerA) by congruence.
    pose proof (lockInv_step ownerB ownerA _ _ _ Hne (lockInv_swap _ _ _ _ _ H)) as H'.
    destruct (step fetcher now key ownerB (callerB d) (world d)) as [p s].
    apply lockInv_swap. exact H'.
Qed.

End LockInvariant.

(** X8. Two callers of one key with different tokens, any fetcher (also
    one that returns empty lists), any schedule, the lock free at the
    start and no lease expiring: the two are never both between a granted
    [acquireLock] and their [releaseLock]; whoever is there is the one the
    lock names; and whenever neither is there the lock key is absent, so
    the lock is not left behind once both have returned. *)
Theorem lock_is_exclusive_and_released
    (fetcher : nat -> list Cache.CachedMatchScore) (now key ownerA ownerB : string)
    (schedule : list bool) (r : gmap string Cache.rvalue) :
  ownerA <> ownerB ->
  r !! Cache.lockKeyOf key = None ->
  let d := Cache.duo_run fetcher now key ownerA ownerB schedule (Cache.duo_initial r) in
  (held (Cache.callerA d) && held (Cache.callerB d) = false)
  /\ (held (Cache.callerA d) = true ->
        holder key (Cache.store (Cache.world d)) = Some ownerA)
  /\ (held (Cache.callerB d) = true ->
        holder key (Cache.store (Cache.world d)) = Some ownerB)
  /\ (held (Cache.callerA d) = false -> held (Cache.callerB d) = false ->
        Cache.store (Cache.world d) !! Cache.lockKeyOf key = None).
Proof.
  intros Hneq Hfree.
  assert (H0 : lockInv key ownerA ownerB (Cache.callerA (Cache.duo_initial r))
                 (Cache.callerB (Cache.duo_initial r))
                 (Cache.store (Cache.world (Cache.duo_initial r)))).
  { unfold lockInv, held. cbn. repeat split; try discriminate. intros _ _. exact Hfree. }
  pose proof (lockInv_run fetcher now key ownerA ownerB schedule _ Hneq H0) as H.
  cbv zeta in *.
  destruct H as [A [B C]]. split; [| tauto].
  destruct (held (Cache.callerA _)) eqn:EA; [| reflexivity].
  destruct (held (Cache.callerB _)) eqn:EB; [| reflexivity].
  specialize (A eq_refl). specialize (B eq_refl). congruence.
Qed.

Lemma lock_is_exclusive_and_released_witness :
  let d := Cache.duo_run (fun _ => nil) "t1" "worker:w1" "a" "b"
             (true :: false :: true :: false :: nil) (Cache.duo_initial ∅) in
  held (Cache.callerA d) && held (Cache.callerB d) = false.
Proof.
  apply (lock_is_exclusive_and_released (fun _ => nil) "t1" "worker:w1" "a" "b"
           (true :: false :: true :: false :: nil) ∅).
  - discriminate.
  - reflexivity.
Defined.

(** ** Pages and slices *)

Section Pages.

Context {T : Type}.

Lemma firstn_add_skipn (a b : nat) (l : list T) :
  firstn (a + b) l = firstn a l ++ firstn b (skipn a l).
Proof.
  revert l. induction a as [| a IH]; intros l; [reflexivity |].
  destruct l as [| x r]; cbn [Nat.add firstn skipn app].
  - rewrite firstn_nil. reflexivity.
  - rewrite IH. reflexivity.
Qed.

Lemma pages_concat (size n : nat) (l : list T) :
  concat (map (fun p => firstn size (skipn ((p - 1) * size) l)) (seq 1 n))
  = firstn (n * size) l.
Proof.
  induction n as [| n IH]; [reflexivity |].
  rewrite seq_S, map_app, concat_app, IH. cbn [map concat Nat.add].
  rewrite app_nil_r. replace (S n - 1)%nat with n by lia.
  replace (S n * size)%nat with (n * size + size)%nat by lia.
  symmetry. apply firstn_add_skipn.
Qed.

Lemma ceilDiv_covers (n size : nat) :
  (1 <= size)%nat -> (n <= Repository.ceilDiv n size * size)%nat.
Proof.
  intros H. unfold Repository.ceilDiv.
  pose proof (Nat.div_mod_eq (n + size - 1) size) as E.
  pose proof (Nat.mod_upper_bound (n + size - 1) size) as B. nia.
Qed.

Lemma ceilDiv_tight (n size : nat) :
  (1 <= size)%nat -> (1 <= n)%nat -> ((Repository.ceilDiv n size - 1) * size < n)%nat.
Proof.
  intros H Hn. unfold Repository.ceilDiv.
  pose proof (Nat.div_mod_eq (n + size - 1) size) as E.
  pose proof (Nat.mod_upper_bound (n + size - 1) size) as B. nia.
Qed.

Lemma chunksFrom_bounds (fuel : nat) (l : list T) :
  Forall (fun c => (1 <= length c <= Repository.CONCURRENCY_LIMIT)%nat)
    (Repository.chunksFrom fuel l).
Proof.
  revert l. induction fuel as [| f IH]; intros l; [constructor |].
  destruct l as [| x r]; [constructor |].
  change (Repository.chunksFrom (S f) (x :: r))
    with (firstn Repository.CONCURRENCY_LIMIT (x :: r)
          :: Repository.chunksFrom f (skipn Repository.CONCURRENCY_LIMIT (x :: r))).
  constructor; [| apply IH].
  rewrite length_firstn. unfold Repository.CONCURRENCY_LIMIT. cbn [length]. lia.
Qed.

End Pages.

(** X9. Paging loses and repeats nothing: for a page size of at least 1
    the pages [1 .. totalPages] of a query, put one after the other, are
    exactly its rows, in order.  No page has more than [min pageSize 200]
    rows (the enforced maximum), every page before the last is full, the
    last page is not empty, and every page past [totalPages] is empty. *)
Theorem pages_partition_rows {T : Type} (rows : list T) (pageSize : nat) :
  (1 <= pageSize)%nat ->
  let size := Nat.min pageSize 200 in
  let n := Repository.totalPages (Repository.paginate rows 1 pageSize) in
  let pageOf p := Repository.items (Repository.paginate rows p pageSize) in
  concat (map pageOf (seq 1 n)) = rows
  /\ (forall p, (1 <= p)%nat -> (length (pageOf p) <= size)%nat)
  /\ (forall p, (1 <= p < n)%nat -> length (pageOf p) = size)
  /\ (rows <> nil -> pageOf n <> nil)
  /\ (forall p, (n < p)%nat -> pageOf p = nil).
Proof.
  intros Hs. cbv zeta. unfold Repository.paginate. cbn [Repository.items Repository.totalPages].
  set (size := Nat.min pageSize 200).
  assert (Hsize : (1 <= size)%nat) by (unfold size; lia).
  pose proof (ceilDiv_covers (length rows) size Hsize) as Hc.
  split; [| split; [| split; [| split]]].
  - rewrite pages_concat. apply firstn_all2. exact Hc.
  - intros p _. rewrite length_firstn. lia.
  - intros p [Hp Hn]. rewrite length_firstn, length_skipn.
    assert (Hrows : (1 <= length rows)%nat).
    { destruct rows; [cbn in Hn; unfold Repository.ceilDiv in Hn; cbn [length] in Hn;
                      rewrite Nat.div_small in Hn by lia; lia | cbn [length]; lia]. }
    pose proof (ceilDiv_tight (length rows) size Hsize Hrows) as Ht. nia.
  - intros Hne E. apply (f_equal (@length T)) in E.
    rewrite length_firstn, length_skipn in E. cbn [length] in E.
    assert (Hrows : (1 <= length rows)%nat).
    { destruct rows; [congruence | cbn [length]; lia]. }
    pose proof (ceilDiv_tight (length rows) size Hsize Hrows) as Ht. lia.
  - intros p Hp. rewrite skipn_all2; [apply firstn_nil | nia].
Qed.

Lemma pages_partition_rows_witness :
  concat (map (fun p => Repository.items
                          (Repository.paginate ("a" :: "b" :: "c" :: "d" :: "e" :: nil) p 2))
            (seq 1 3))
  = "a" :: "b" :: "c" :: "d" :: "e" :: nil.
Proof.
  apply (pages_partition_rows ("a" :: "b" :: "c" :: "d" :: "e" :: nil) 2). lia.
Defined.

(** X10. The slices a batch is processed in: put together they are the
    ids of the batch in order, every slice has between 1 and 20 ids, and
    there are [ceil(n / 20)] of them. *)
Theorem chunks_partition_ids {T : Type} (ids : list T) :
  concat (Repository.chunks ids) = ids
  /\ Forall (fun c => (1 <= length c <= 20)%nat) (Repository.chunks ids)
  /\ (length ids <= 20 * length (Repository.chunks ids))%nat
  /\ (20 * length (Repository.chunks ids) < length ids + 20)%nat.
Proof.
  pose proof (chunks_concat ids) as C.
  pose proof (chunksFrom_bounds (length ids) ids) as B.
  fold (Repository.chunks ids) in B. unfold Repository.CONCURRENCY_LIMIT in B.
  split; [exact C |]. split; [exact B |].
  assert (G : forall cs : list (list T),
            Forall (fun c => (1 <= length c <= 20)%nat) cs ->
            (length (concat cs) <= 20 * length cs)%nat).
  { induction 1 as [| c cs Hc _ IH]; cbn [concat length]; [lia |].
    rewrite length_app. lia. }
  split; [rewrite <- C at 1; apply G, B |].
  unfold Repository.chunks.
  assert (F : forall fuel (l : list T),
            (20 * length (Repository.chunksFrom fuel l) < length l + 20)%nat).
  { induction fuel as [| f IH]; intros l; [cbn [Repository.chunksFrom length]; lia |].
    destruct l as [| x r]; [cbn [Repository.chunksFrom length]; lia |].
    change (Repository.chunksFrom (S f) (x :: r))
      with (firstn Repository.CONCURRENCY_LIMIT (x :: r)
            :: Repository.chunksFrom f (skipn Repository.CONCURRENCY_LIMIT (x :: r))).
    cbn [length]. specialize (IH (skipn Repository.CONCURRENCY_LIMIT (x :: r))).
    rewrite length_skipn in IH. unfold Repository.CONCURRENCY_LIMIT in *.
    cbn [length] in IH.
    destruct (Nat.le_gt_cases 20 (S (length r))) as [Hge | Hlt]; [lia |].
    assert (E : skipn 20 (x :: r) = nil).
    { apply skipn_all2. cbn [length]. lia. }
    rewrite E. destruct f; cbn [Repository.chunksFrom length]; lia. }
  apply F.
Qed.

(** ** The lookup tables of a batch *)

Section BatchTables.

Context {T : Type}.

Variable key : T -> string.

Lemma mapBy_snoc (rows : list T) (r : T) :
  Repository.mapBy key (rows ++ r :: nil) = <[key r := r]> (Repository.mapBy key rows).
Proof. unfold Repository.mapBy. rewrite fold_left_app. reflexivity. Qed.

Lemma groupBy_snoc (rows : list T) (r : T) :
  Repository.groupBy key (rows ++ r :: nil)
  = <[key r := default nil (Repository.groupBy key rows !! key r) ++ r :: nil]>
      (Repository.groupBy key rows).
Proof. unfold Repository.groupBy. rewrite fold_left_app. reflexivity. Qed.

Lemma find_snoc (p : T -> bool) (rows : list T) (r : T) :
  List.find p (rows ++ r :: nil)
  = match List.find p rows with
    | Some x => Some x
    | None => if p r then Some r else None
    end.
Proof.
  induction rows as [| x rs IH]; cbn [app List.find]; [reflexivity |].
  destruct (p x); [reflexivity | exact IH].
Qed.

(** With unique keys the map built from the rows answers as a search of
    the rows does. *)
Lemma mapBy_find (rows : list T) (k : string) :
  List.NoDup (map key rows) ->
  Repository.mapBy key rows !! k = List.find (fun r => String.eqb (key r) k) rows.
Proof.
  induction rows as [| r rs IH] using rev_ind; intros N; [apply lookup_empty |].
  rewrite map_app in N. cbn [map] in N.
  pose proof (NoDup_remove_1 _ _ _ N) as N1. rewrite app_nil_r in N1.
  pose proof (NoDup_remove_2 _ _ _ N) as N2. rewrite app_nil_r in N2.
  rewrite mapBy_snoc, find_snoc.
  destruct (String.eqb_spec (key r) k) as [E | E].
  - rewrite E, lookup_insert_eq.
    destruct (List.find (fun r0 => String.eqb (key r0) k) rs) as [x |] eqn:F; [| reflexivity].
    apply find_some in F as [Hx Hk]. apply String.eqb_eq in Hk.
    exfalso. apply N2. rewrite E, <- Hk. apply in_map, Hx.
  - rewrite lookup_insert_ne by exact E. rewrite (IH N1).
    destruct (List.find (fun r0 => String.eqb (key r0) k) rs); reflexivity.
Qed.

(** The group of a key holds the rows with that key, in their order. *)
Lemma groupBy_filter (rows : list T) (k : string) :
  default nil (Repository.groupBy key rows !! k)
  = List.filter (fun r => String.eqb (key r) k) rows.
Proof.
  induction rows as [| r rs IH] using rev_ind;
    [unfold Repository.groupBy; cbn [fold_left]; rewrite lookup_empty; reflexivity |].
  rewrite groupBy_snoc, List.filter_app. cbn [List.filter].
  destruct (String.eqb_spec (key r) k) as [E | E].
  - rewrite E, lookup_insert_eq. cbn [default]. rewrite <- E at 1. rewrite E, IH. reflexivity.
  - rewrite lookup_insert_ne by exact E. rewrite IH, app_nil_r. reflexivity.
Qed.

Lemma find_filter (p q : T -> bool) (rows : list T) :
  (forall r, p r = true -> q r = true) ->
  List.find p (List.filter q rows) = List.find p rows.
Proof.
  intros H. induction rows as [| r rs IH]; cbn [List.filter List.find]; [reflexivity |].
  destruct (q r) eqn:Q; cbn [List.find].
  - rewrite IH. reflexivity.
  - destruct (p r) eqn:P; [rewrite (H r P) in Q; discriminate Q | exact IH].
Qed.

Lemma filter_filter_sub (p q : T -> bool) (rows : list T) :
  (forall r, p r = true -> q r = true) ->
  List.filter p (List.filter q rows) = List.filter p rows.
Proof.
  intros H. induction rows as [| r rs IH]; cbn [List.filter]; [reflexivity |].
  destruct (q r) eqn:Q; cbn [List.filter].
  - rewrite IH. reflexivity.
  - destruct (p r) eqn:P; [rewrite (H r P) in Q; discriminate Q | exact IH].
Qed.

Lemma NoDup_map_filter (q : T -> bool) (rows : list T) :
  List.NoDup (map key rows) -> List.NoDup (map key (List.filter q rows)).
Proof.
  induction rows as [| r rs IH]; cbn [List.filter map]; intros N; [exact N |].
  apply List.NoDup_cons_iff in N as [N1 N2].
  destruct (q r); cbn [map]; [| apply IH, N2].
  apply List.NoDup_cons_iff. split; [| apply IH, N2].
  intros Hin. apply N1. apply in_map_iff in Hin as [x [Hk Hx]].
  apply filter_In in Hx as [Hx _]. rewrite <- Hk. apply in_map, Hx.
Qed.

(** The prefetched group of an id of the batch is what a query for that
    id alone returns. *)
Lemma groupBy_in_batch (ids : list string) (rows : list T) (k : string) :
  In k ids ->
  default nil
    (Repository.groupBy key (List.filter (fun r => Repository.inIds ids (key r)) rows) !! k)
  = List.filter (fun r => String.eqb (key r) k) rows.
Proof.
  intros H. rewrite groupBy_filter. apply filter_filter_sub.
  intros r E. apply String.eqb_eq in E. rewrite E. apply inIds_In, H.
Qed.

Lemma mapBy_in_batch (ids : list string) (rows : list T) (k : string) :
  List.NoDup (map key rows) ->
  In k ids ->
  Repository.mapBy key (List.filter (fun r => Repository.inIds ids (key r)) rows) !! k
  = List.find (fun r => String.eqb (key r) k) rows.
Proof.
  intros N H. rewrite mapBy_find by apply NoDup_map_filter, N. apply find_filter.
  intros r E. apply String.eqb_eq in E. rewrite E. apply inIds_In, H.
Qed.

End BatchTables.

(** ** The rows a batch writes *)

Section BatchRows.

Variable process : string -> Repository.Db -> Repository.Db * nat.
Variable now : string.
Variable keyOf : string -> string * string.
Variable sel : string -> option ScoreComponents.

Hypothesis process_eq : forall id d,
  process id d
  = match sel id with
    | Some sc => (Repository.upsertMatchScore now (keyOf id).1 (keyOf id).2 sc d, 1%nat)
    | None => (d, O)
    end.

Hypothesis keyOf_inj : forall a b, keyOf a = keyOf b -> a = b.

Let selected (id : string) : bool :=
  match sel id with Some _ => true | None => false end.

Lemma fold_rows (ids : list string) (acc : Repository.Db * nat) :
  let res := fold_left (processOne process) ids acc in
  (forall id sc, In id ids -> sel id = Some sc ->
     Repository.t_matchScore res.1 !! keyOf id
     = Some {| Repository.ms_scores := sc; Repository.ms_calculatedAt := now |})
  /\ (forall k, (forall id, In id ids -> sel id <> None -> keyOf id <> k) ->
        Repository.t_matchScore res.1 !! k = Repository.t_matchScore acc.1 !! k)
  /\ sameTables acc.1 res.1
  /\ res.2 = (acc.2 + length (List.filter selected ids))%nat.
Proof.
  cbv zeta. induction ids as [| x rs IH] using rev_ind.
  - cbn [fold_left List.filter length]. split; [intros id sc []|].
    split; [reflexivity |]. split; [apply sameTables_refl | lia].
  - rewrite fold_left_app. cbn [fold_left].
    destruct IH as [I1 [I2 [I3 I4]]].
    destruct (fold_left (processOne process) rs acc) as [d1 n1]. cbn [fst snd] in *.
    unfold processOne. rewrite process_eq. rewrite List.filter_app, length_app.
    cbn [List.filter]. unfold selected at 2.
    destruct (sel x) as [sc |] eqn:Sx; cbn [fst snd length].
    + unfold Repository.upsertMatchScore, Repository.with_matchScore.
      cbn [Repository.t_matchScore].
      assert (K : ((keyOf x).1, (keyOf x).2) = keyOf x) by (destruct (keyOf x); reflexivity).
      rewrite K.
      split; [| split; [| split]].
      * intros id sc' Hin Hsel. destruct (decide (keyOf x = keyOf id)) as [E | E].
        -- apply keyOf_inj in E. subst id. rewrite lookup_insert_eq. congruence.
        -- rewrite lookup_insert_ne by exact E. apply I1; [| exact Hsel].
           apply in_app_or in Hin as [Hin | [-> | []]]; [exact Hin | congruence].
      * intros k Hk. rewrite lookup_insert_ne.
        -- apply I2. intros id Hin. apply Hk, in_or_app. left. exact Hin.
        -- apply Hk; [apply in_or_app; right; left; reflexivity | congruence].
      * exact I3.
      * lia.
    + split; [| split; [| split]].
      * intros id sc' Hin Hsel. apply I1; [| exact Hsel].
        apply in_app_or in Hin as [Hin | [-> | []]]; [exact Hin | congruence].
      * intros k Hk. apply I2. intros id Hin. apply Hk, in_or_app. left. exact Hin.
      * exact I3.
      * lia.
Qed.

Lemma runChunks_rows (ids : list string) (d : Repository.Db) :
  let res := Repository.runChunks process ids d in
  (forall id sc, In id ids -> sel id = Some sc ->
     Repository.t_matchScore res.1 !! keyOf id
     = Some {| Repository.ms_scores := sc; Repository.ms_calculatedAt := now |})
  /\ (forall k, (forall id, In id ids -> sel id <> None -> keyOf id <> k) ->
        Repository.t_matchScore res.1 !! k = Repository.t_matchScore d !! k)
  /\ sameTables d res.1
  /\ res.2 = length (List.filter selected ids).
Proof.
  cbv zeta. rewrite runChunks_flat. apply (fold_rows ids (d, O)).
Qed.

End BatchRows.

Section BatchPostconditions.

Lemma NoDup_one {A} (x : A) : List.NoDup (x :: nil).
Proof. constructor; [intros [] | constructor]. Qed.

End BatchPostconditions.

Section BatchResults.

Variables (thisYear : Z) (now : string).

Lemma recalculateBatchForVacancy_rows (vacancyId : string) (workerIds : list string)
    (d : Repository.Db) (vacancy : Vacancy) :
  List.NoDup (map wp_userId (Repository.t_workerProfile d)) ->
  Repository.getVacancy d vacancyId = Some vacancy ->
  let res := Repository.recalculateBatchForVacancy thisYear now vacancyId workerIds d in
  (forall workerId, In workerId workerIds ->
     Repository.t_matchScore res.1 !! (workerId, vacancyId)
     = Some (batchRow thisYear now d workerId vacancyId vacancy))
  /\ (forall w v, ~ (In w workerIds /\ v = vacancyId) ->
        Repository.t_matchScore res.1 !! (w, v) = Repository.t_matchScore d !! (w, v))
  /\ sameTables d res.1
  /\ res.2 = length workerIds.
Proof.
  intros N Hv. cbv zeta. unfold Repository.recalculateBatchForVacancy. rewrite Hv.
  match goal with
  | |- context [Repository.runChunks ?p workerIds d] => set (process := p)
  end.
  set (sel := fun workerId : string =>
         Some (Repository.calculateScoreComponents thisYear
           (default nil
              (Repository.groupBy ws_userId
                 (List.filter (fun r => Repository.inIds workerIds (ws_userId r))
                    (Repository.t_workerSkill d)) !! workerId))
           (default nil
              (Repository.groupBy we_userId
                 (List.filter (fun r => Repository.inIds workerIds (we_userId r))
                    (Repository.t_workerEducation d)) !! workerId))
           (default nil
              (Repository.groupBy wx_userId
                 (List.filter (fun r => Repository.inIds workerIds (wx_userId r))
                    (Repository.t_workerExperience d)) !! workerId))
           (Repository.getVacancySkills d vacancyId) vacancy
           (Repository.mapBy wp_userId
              (List.filter (fun w => Repository.inIds workerIds (wp_userId w))
                 (Repository.t_workerProfile d)) !! workerId))).
  destruct (runChunks_rows process now (fun id => (id, vacancyId)) sel) with
    (ids := workerIds) (d := d) as [R1 [R2 [R3 R4]]].
  { intros id d0. reflexivity. }
  { intros a b E. congruence. }
  split; [| split; [| split]].
  - intros workerId Hin. rewrite (R1 workerId _ Hin eq_refl). unfold sel, batchRow.
    rewrite !groupBy_in_batch by exact Hin.
    rewrite (mapBy_in_batch _ _ _ _ N Hin). reflexivity.
  - intros w v Hn. apply R2. intros id Hin _ E. apply Hn.
    injection E as <- <-. split; [exact Hin | reflexivity].
  - exact R3.
  - rewrite R4. f_equal. apply forallb_filter_id. apply forallb_forall. reflexivity.
Qed.

Lemma recalculateBatchForWorker_rows (workerId : string) (vacancyIds : list string)
    (d : Repository.Db) :
  List.NoDup (map v_id (Repository.t_vacancy d)) ->
  let res := Repository.recalculateBatchForWorker thisYear now workerId vacancyIds d in
  (forall vacancyId vacancy,
     In vacancyId vacancyIds ->
     Repository.getVacancy d vacancyId = Some vacancy ->
     Repository.t_matchScore res.1 !! (workerId, vacancyId)
     = Some (batchRow thisYear now d workerId vacancyId vacancy))
  /\ (forall w v,
        ~ (w = workerId /\ In v vacancyIds /\ namesVacancy d v = true) ->
        Repository.t_matchScore res.1 !! (w, v) = Repository.t_matchScore d !! (w, v))
  /\ sameTables d res.1
  /\ res.2 = length (List.filter (namesVacancy d) vacancyIds).
Proof.
  intros N. cbv zeta. unfold Repository.recalculateBatchForWorker.
  match goal with
  | |- context [Repository.runChunks ?p vacancyIds d] => set (process := p)
  end.
  set (vacancyMap :=
         Repository.mapBy v_id
           (List.filter (fun v => Repository.inIds vacancyIds (v_id v))
              (Repository.t_vacancy d))) in *.
  set (vacancySkillsMap :=
         Repository.groupBy vs_vacancyId
           (List.filter (fun s => Repository.inIds vacancyIds (vs_vacancyId s))
              (Repository.t_vacancySkill d))) in *.
  set (sel := fun vacancyId : string =>
         match vacancyMap !! vacancyId with
         | Some vacancy =>
           Some (Repository.calculateScoreComponents thisYear
                   (Repository.getWorkerSkills d workerId)
                   (Repository.getWorkerEducation d workerId)
                   (Repository.getWorkerExperience d workerId)
                   (default nil (vacancySkillsMap !! vacancyId)) vacancy
                   (Repository.getWorkerProfile d workerId))
         | None => None
         end).
  assert (M : forall id, In id vacancyIds -> vacancyMap !! id = Repository.getVacancy d id).
  { intros id Hin. unfold vacancyMap. apply (mapBy_in_batch _ _ _ _ N Hin). }
  destruct (runChunks_rows process now (fun id => (workerId, id)) sel) with
    (ids := vacancyIds) (d := d) as [R1 [R2 [R3 R4]]].
  { intros id d0. unfold process, sel. destruct (vacancyMap !! id); reflexivity. }
  { intros a b E. congruence. }
  split; [| split; [| split]].
  - intros vacancyId vacancy Hin Hv.
    rewrite (R1 vacancyId
               (Repository.ms_scores (batchRow thisYear now d workerId vacancyId vacancy))
               Hin); [reflexivity |].
    unfold sel. rewrite (M _ Hin), Hv. unfold vacancySkillsMap.
    rewrite groupBy_in_batch by exact Hin. reflexivity.
  - intros w v Hn. apply R2. intros id Hin Hsel E. apply Hn.
    injection E as <- <-. split; [reflexivity |]. split; [exact Hin |].
    unfold sel in Hsel. rewrite (M _ Hin) in Hsel. unfold namesVacancy.
    destruct (Repository.getVacancy d id); congruence.
  - exact R3.
  - rewrite R4. f_equal. apply filter_ext_in. intros id Hin.
    unfold sel, namesVacancy. rewrite (M _ Hin).
    destruct (Repository.getVacancy d id); reflexivity.
Qed.

End BatchResults.

(** X11. What a batch for a vacancy leaves behind (the vacancy exists;
    profiles are unique per user): for every worker id of the batch the
    row of the pair holds the score components computed from that
    worker's own skills, education, experience and profile, exactly as
    the queries for that one worker return them, stamped with the time of
    the write; every other match-score row and every other table is
    unchanged; the returned count is the number of ids given. *)
Theorem batch_for_vacancy_scores_each_worker
    (thisYear : Z) (now vacancyId : string) (workerIds : list string)
    (d : Repository.Db) (vacancy : Vacancy) :
  List.NoDup (map wp_userId (Repository.t_workerProfile d)) ->
  Repository.getVacancy d vacancyId = Some vacancy ->
  let res := Repository.recalculateBatchForVacancy thisYear now vacancyId workerIds d in
  (forall workerId, In workerId workerIds ->
     Repository.t_matchScore res.1 !! (workerId, vacancyId)
     = Some (batchRow thisYear now d workerId vacancyId vacancy))
  /\ (forall w v, ~ (In w workerIds /\ v = vacancyId) ->
        Repository.t_matchScore res.1 !! (w, v) = Repository.t_matchScore d !! (w, v))
  /\ sameTables d res.1
  /\ res.2 = length workerIds.
Proof. apply recalculateBatchForVacancy_rows. Qed.

Lemma batch_for_vacancy_scores_each_worker_witness :
  Repository.t_matchScore
    (Repository.recalculateBatchForVacancy 2026 "t1" "v1" ("w1" :: nil)
       PairSamples.oneEach).1 !! ("w1", "v1")
  = Some (batchRow 2026 "t1" PairSamples.oneEach "w1" "v1" Samples.tashkentJob).
Proof.
  apply (batch_for_vacancy_scores_each_worker 2026 "t1" "v1" ("w1" :: nil)
           PairSamples.oneEach Samples.tashkentJob).
  - apply NoDup_one.
  - reflexivity.
  - left. reflexivity.
Defined.

(** X12. What a batch for a worker leaves behind (vacancy ids are
    unique): for every id of the batch that names a vacancy, the row of
    the pair holds the score components computed from the worker's
    features and that vacancy's own skills; ids that name no vacancy are
    skipped; every other match-score row and every other table is
    unchanged; the returned count is the number of ids that named a
    vacancy. *)
Theorem batch_for_worker_scores_each_vacancy
    (thisYear : Z) (now workerId : string) (vacancyIds : list string)
    (d : Repository.Db) :
  List.NoDup (map v_id (Repository.t_vacancy d)) ->
  let res := Repository.recalculateBatchForWorker thisYear now workerId vacancyIds d in
  (forall vacancyId vacancy,
     In vacancyId vacancyIds ->
     Repository.getVacancy d vacancyId = Some vacancy ->
     Repository.t_matchScore res.1 !! (workerId, vacancyId)
     = Some (batchRow thisYear now d workerId vacancyId vacancy))
  /\ (forall w v,
        ~ (w = workerId /\ In v vacancyIds /\ namesVacancy d v = true) ->
        Repository.t_matchScore res.1 !! (w, v) = Repository.t_matchScore d !! (w, v))
  /\ sameTables d res.1
  /\ res.2 = length (List.filter (namesVacancy d) vacancyIds).
Proof. apply recalculateBatchForWorker_rows. Qed.

Lemma batch_for_worker_scores_each_vacancy_witness :
  (Repository.recalculateBatchForWorker 2026 "t1" "w1" ("v1" :: "v9" :: nil)
     PairSamples.oneEach).2 = 1%nat.
Proof.
  apply (batch_for_worker_scores_each_vacancy 2026 "t1" "w1" ("v1" :: "v9" :: nil)
           PairSamples.oneEach).
  apply NoDup_one.
Defined.

(** ** What a full recalculation leaves behind *)

Section PagedCover.

Variable fetch : Repository.Db -> nat -> list string.
Variable recalc : list string -> Repository.Db -> Repository.Db * nat.
Variable pop : list string.
Variable Base : Repository.Db -> Prop.
Variable Good : string -> Repository.Db -> Prop.

Hypothesis fetch_page : forall d p,
  Base d -> fetch d p = firstn 200 (skipn ((p - 1) * 200) pop).

Hypothesis recalc_good : forall d ids,
  Base d -> incl ids pop ->
  Base (recalc ids d).1
  /\ (forall id, In id ids -> Good id (recalc ids d).1)
  /\ (forall id, Good id d -> Good id (recalc ids d).1).

(** When the loop ends, every id of the population has been handled. *)
Lemma pagedLoop_covers (fuel : nat) :
  forall p tot bat d out,
    Base d -> (1 <= p)%nat ->
    (forall id, In id (firstn ((p - 1) * 200) pop) -> Good id d) ->
    pagedLoop fetch recalc fuel p tot bat d = Some out ->
    Base out.1.1 /\ (forall id, In id pop -> Good id out.1.1).
Proof.
  induction fuel as [| f IH]; intros p tot bat d out Hd Hp Hdone R; [discriminate R |].
  cbn [pagedLoop] in R. rewrite (fetch_page d p Hd) in R.
  set (rest := skipn ((p - 1) * 200) pop) in *.
  assert (Hsplit : forall id, In id pop ->
            In id (firstn ((p - 1) * 200) pop) \/ In id rest).
  { intros id Hin. rewrite <- (firstn_skipn ((p - 1) * 200) pop) in Hin.
    apply in_app_or in Hin. exact Hin. }
  assert (Hlen : length (firstn 200 rest) = Nat.min 200 (length rest))
    by apply length_firstn.
  destruct (Nat.eqb_spec (length (firstn 200 rest)) 0) as [Hz | Hnz].
  - injection R as <-. cbn [fst]. split; [exact Hd |].
    intros id Hin. destruct (Hsplit id Hin) as [H | H]; [apply Hdone, H |].
    assert (E : rest = nil) by (apply length_zero_iff_nil; lia).
    rewrite E in H. destruct H.
  - assert (Hpage : incl (firstn 200 rest) pop).
    { intros x Hx. rewrite <- (firstn_skipn ((p - 1) * 200) pop). apply in_or_app. right.
      fold rest. rewrite <- (firstn_skipn 200 rest). apply in_or_app. left. exact Hx. }
    destruct (recalc_good d (firstn 200 rest) Hd Hpage) as [Hb [Hg Hk]].
    destruct (recalc (firstn 200 rest) d) as [d1 k]. cbn [fst] in Hb, Hg, Hk.
    unfold Service.BATCH_SIZE in R.
    destruct (Nat.ltb_spec (length (firstn 200 rest)) 200) as [Hshort | Hfull].
    + injection R as <-. cbn [fst]. split; [exact Hb |].
      intros id Hin. destruct (Hsplit id Hin) as [H | H]; [apply Hk, Hdone, H |].
      apply Hg. rewrite firstn_all2 by lia. exact H.
    + apply (IH _ _ _ _ _ Hb) in R; [exact R | lia |].
      intros id Hin. replace ((S p - 1) * 200)%nat with ((p - 1) * 200 + 200)%nat in Hin by lia.
      rewrite firstn_add_skipn in Hin. apply in_app_or in Hin as [H | H].
      * apply Hk, Hdone, H.
      * apply Hg, H.
Qed.

End PagedCover.

Section RecalcRows.

Variables (thisYear : Z) (now : string).

Lemma sameTables_trans (a b c : Repository.Db) :
  sameTables a b -> sameTables b c -> sameTables a c.
Proof.
  unfold sameTables. intros [A1 [A2 [A3 [A4 [A5 [A6 A7]]]]]] [B1 [B2 [B3 [B4 [B5 [B6 B7]]]]]].
  repeat split; congruence.
Qed.

Lemma getVacancy_sameTables (d0 d : Repository.Db) (id : string) :
  sameTables d0 d -> Repository.getVacancy d id = Repository.getVacancy d0 id.
Proof. intros [E _]. unfold Repository.getVacancy. rewrite E. reflexivity. Qed.

Lemma batchRow_sameTables (d0 d : Repository.Db) (workerId vacancyId : string)
    (vacancy : Vacancy) :
  sameTables d0 d ->
  batchRow thisYear now d workerId vacancyId vacancy
  = batchRow thisYear now d0 workerId vacancyId vacancy.
Proof.
  intros [E1 [E2 [E3 [E4 [E5 [E6 E7]]]]]].
  unfold batchRow, Repository.getWorkerSkills, Repository.getWorkerEducation,
    Repository.getWorkerExperience, Repository.getVacancySkills, Repository.getWorkerProfile.
  rewrite E2, E3, E4, E5, E6. reflexivity.
Qed.

Lemma find_unique {T} (key : T -> string) (rows : list T) (r : T) :
  List.NoDup (map key rows) -> In r rows ->
  List.find (fun x => String.eqb (key x) (key r)) rows = Some r.
Proof.
  induction rows as [| x rs IH]; intros N Hin; [destruct Hin |].
  cbn [map] in N. apply List.NoDup_cons_iff in N as [N1 N2]. cbn [List.find].
  destruct Hin as [-> | Hin].
  - rewrite String.eqb_refl. reflexivity.
  - destruct (String.eqb_spec (key x) (key r)) as [E | E]; [| apply IH; assumption].
    exfalso. apply N1. rewrite E. apply in_map, Hin.
Qed.

Lemma recalcForWorker_loop_rows (workerId : string) (d : Repository.Db) (fuel : nat)
    (out : Repository.Db * nat * nat) :
  List.NoDup (map v_id (Repository.t_vacancy d)) ->
  Service.recalcForWorker_loop fuel thisYear now workerId 1 0 0 d = Some out ->
  sameTables d out.1.1
  /\ (forall v, In v (Repository.openVacancies d) ->
        Repository.t_matchScore out.1.1 !! (workerId, v_id v)
        = Some (batchRow thisYear now d workerId (v_id v) v))
  /\ (forall a b,
        ~ (a = workerId /\ In b (map v_id (Repository.openVacancies d))) ->
        Repository.t_matchScore out.1.1 !! (a, b) = Repository.t_matchScore d !! (a, b)).
Proof.
  intros N R. rewrite recalcForWorker_loop_paged in R.
  set (pop := map v_id (Repository.openVacancies d)) in *.
  set (Base := fun d1 : Repository.Db =>
         sameTables d d1
         /\ forall a b, ~ (a = workerId /\ In b pop) ->
              Repository.t_matchScore d1 !! (a, b) = Repository.t_matchScore d !! (a, b)).
  set (Good := fun (id : string) (d1 : Repository.Db) =>
         forall vacancy, Repository.getVacancy d id = Some vacancy ->
           Repository.t_matchScore d1 !! (workerId, id)
           = Some (batchRow thisYear now d workerId id vacancy)).
  assert (Hopen : forall v, In v (Repository.openVacancies d) ->
            Repository.getVacancy d (v_id v) = Some v).
  { intros v Hv. unfold Repository.openVacancies in Hv. apply filter_In in Hv as [Hv _].
    apply (find_unique v_id _ _ N Hv). }
  match type of R with
  | pagedLoop ?f ?r _ _ _ _ _ = _ =>
    destruct (pagedLoop_covers f r pop Base Good) with
      (fuel := fuel) (p := 1%nat) (tot := O) (bat := O) (d := d) (out := out)
      as [[Hs Hframe] Hgood]
  end.
  - intros d1 p [Hs _]. apply (worker_pages workerId d d1 p Hs).
  - intros d1 ids [Hs Hframe] Hin.
    assert (N1 : List.NoDup (map v_id (Repository.t_vacancy d1))).
    { destruct Hs as [E _]. rewrite E. exact N. }
    destruct (recalculateBatchForWorker_rows thisYear now workerId ids d1 N1)
      as [R1 [R2 [R3 _]]].
    split; [split |]; [| | split].
    + apply (sameTables_trans _ _ _ Hs R3).
    + intros a b Hn. rewrite R2; [apply Hframe, Hn |].
      intros [Ha [Hb _]]. apply Hn. split; [exact Ha | apply Hin, Hb].
    + intros id Hid vacancy Hv. rewrite <- (batchRow_sameTables _ _ _ _ _ Hs).
      apply R1; [exact Hid |]. rewrite (getVacancy_sameTables _ _ _ Hs). exact Hv.
    + intros id Hg vacancy Hv.
      destruct (in_dec string_dec id ids) as [Hid | Hid].
      * rewrite <- (batchRow_sameTables _ _ _ _ _ Hs).
        apply R1; [exact Hid |]. rewrite (getVacancy_sameTables _ _ _ Hs). exact Hv.
      * rewrite R2; [apply Hg, Hv |]. intros [_ [Hb _]]. apply Hid, Hb.
  - split; [apply sameTables_refl | reflexivity].
  - lia.
  - intros id [].
  - exact R.
  - split; [exact Hs |]. split; [| exact Hframe].
    intros v Hv. apply Hgood; [apply in_map, Hv | apply Hopen, Hv].
Qed.

Lemma recalcForVacancy_loop_rows (vacancyId : string) (vacancy : Vacancy)
    (d : Repository.Db) (fuel : nat) (out : Repository.Db * nat * nat) :
  List.NoDup (map wp_userId (Repository.t_workerProfile d)) ->
  Repository.getVacancy d vacancyId = Some vacancy ->
  Service.recalcForVacancy_loop fuel thisYear now vacancyId 1 0 0 d = Some out ->
  sameTables d out.1.1
  /\ (forall p, In p (Repository.activeWorkers d) ->
        Repository.t_matchScore out.1.1 !! (wp_userId p, vacancyId)
        = Some (batchRow thisYear now d (wp_userId p) vacancyId vacancy))
  /\ (forall a b,
        ~ (In a (map wp_userId (Repository.activeWorkers d)) /\ b = vacancyId) ->
        Repository.t_matchScore out.1.1 !! (a, b) = Repository.t_matchScore d !! (a, b)).
Proof.
  intros N Hv R. rewrite recalcForVacancy_loop_paged in R.
  set (pop := map wp_userId (Repository.activeWorkers d)) in *.
  set (Base := fun d1 : Repository.Db =>
         sameTables d d1
         /\ forall a b, ~ (In a pop /\ b = vacancyId) ->
              Repository.t_matchScore d1 !! (a, b) = Repository.t_matchScore d !! (a, b)).
  set (Good := fun (id : string) (d1 : Repository.Db) =>
         Repository.t_matchScore d1 !! (id, vacancyId)
         = Some (batchRow thisYear now d id vacancyId vacancy)).
  match type of R with
  | pagedLoop ?f ?r _ _ _ _ _ = _ =>
    destruct (pagedLoop_covers f r pop Base Good) with
      (fuel := fuel) (p := 1%nat) (tot := O) (bat := O) (d := d) (out := out)
      as [[Hs Hframe] Hgood]
  end.
  - intros d1 p [Hs _]. apply (vacancy_pages vacancyId d d1 p Hs).
  - intros d1 ids [Hs Hframe] Hin.
    assert (N1 : List.NoDup (map wp_userId (Repository.t_workerProfile d1))).
    { destruct Hs as [_ [_ [E _]]]. rewrite E. exact N. }
    assert (Hv1 : Repository.getVacancy d1 vacancyId = Some vacancy).
    { rewrite (getVacancy_sameTables _ _ _ Hs). exact Hv. }
    destruct (recalculateBatchForVacancy_rows thisYear now vacancyId ids d1 vacancy N1 Hv1)
      as [R1 [R2 [R3 _]]].
    split; [split |]; [| | split].
    + apply (sameTables_trans _ _ _ Hs R3).
    + intros a b Hn. rewrite R2; [apply Hframe, Hn |].
      intros [Ha Hb]. apply Hn. split; [apply Hin, Ha | exact Hb].
    + intros id Hid. unfold Good. rewrite <- (batchRow_sameTables _ _ _ _ _ Hs).
      apply R1, Hid.
    + intros id Hg. unfold Good in *.
      destruct (in_dec string_dec id ids) as [Hid | Hid].
      * rewrite <- (batchRow_sameTables _ _ _ _ _ Hs). apply R1, Hid.
      * rewrite R2; [exact Hg |]. intros [Ha _]. apply Hid, Ha.
  - split; [apply sameTables_refl | reflexivity].
  - lia.
  - intros id [].
  - exact R.
  - split; [exact Hs |]. split; [| exact Hframe].
    intros p Hp. apply Hgood, in_map, Hp.
Qed.

End RecalcRows.

(** X13. [recalcForWorker], given enough page fetches and unique vacancy
    ids, returns and leaves for every open vacancy the row of the pair,
    computed from the worker's features and that vacancy's skills as they
    were at the start.  Only rows of this worker with an open vacancy
    change; the cached list of this worker is dropped and the rest of the
    cache (other workers, all vacancies, locks) stays; one
    [WORKER_MATCHES_RECALCULATED] event is appended; the other tables are
    as before. *)
Theorem recalcForWorker_scores_every_open_vacancy
    (thisYear : Z) (now workerId : string) (w : Service.World) (fuel : nat) :
  List.NoDup (map v_id (Repository.t_vacancy (Service.db w))) ->
  (length (Repository.openVacancies (Service.db w)) / 200 < fuel)%nat ->
  exists w' res,
    Service.recalcForWorker fuel thisYear now workerId w = Some (w', res)
    /\ (forall v, In v (Repository.openVacancies (Service.db w)) ->
          Repository.t_matchScore (Service.db w') !! (workerId, v_id v)
          = Some (batchRow thisYear now (Service.db w) workerId (v_id v) v))
    /\ (forall a b,
          ~ (a = workerId /\ In b (map v_id (Repository.openVacancies (Service.db w)))) ->
          Repository.t_matchScore (Service.db w') !! (a, b)
          = Repository.t_matchScore (Service.db w) !! (a, b))
    /\ Service.cache w' = Cache.invalidateWorkerCache workerId (Service.cache w)
    /\ (forall key, key <> Cache.workerKey workerId ->
          Service.cache w' !! key = Service.cache w !! key)
    /\ Repository.t_securityEvent (Service.db w')
       = Repository.t_securityEvent (Service.db w)
         ++ {| Repository.se_eventType := "WORKER_MATCHES_RECALCULATED";
               Repository.se_userId := workerId |} :: nil
    /\ sameFeatures (Service.db w) (Service.db w').
Proof.
  intros N Hf.
  destruct (recalcForWorker_loop_total thisYear now workerId (Service.db w) fuel Hf)
    as [d' [R _]].
  destruct (recalcForWorker_loop_rows thisYear now workerId (Service.db w) fuel _ N R)
    as [Hs [Hrows Hframe]].
  cbn [fst] in Hs, Hrows, Hframe.
  unfold Service.recalcForWorker. rewrite R.
  eexists. eexists. split; [reflexivity |]. cbn [Service.db Service.cache].
  split; [exact Hrows |]. split; [exact Hframe |]. split; [reflexivity |].
  split; [intros key Hk; unfold Cache.invalidateWorkerCache;
          apply lookup_delete_ne; congruence |].
  destruct Hs as [E1 [E2 [E3 [E4 [E5 [E6 E7]]]]]].
  unfold Service.auditService_log, sameFeatures.
  cbn [Repository.t_securityEvent Repository.t_vacancy Repository.t_vacancySkill
       Repository.t_workerProfile Repository.t_workerSkill Repository.t_workerEducation
       Repository.t_workerExperience].
  rewrite E7. repeat split; assumption.
Qed.

Lemma recalcForWorker_scores_every_open_vacancy_witness :
  exists w' res,
    Service.recalcForWorker 1 2026 "t1" "w1"
      {| Service.db := PairSamples.oneEach; Service.cache := ∅ |} = Some (w', res)
    /\ Repository.t_matchScore (Service.db w') !! ("w1", "v1")
       = Some (batchRow 2026 "t1" PairSamples.oneEach "w1" "v1" Samples.tashkentJob).
Proof.
  destruct (recalcForWorker_scores_every_open_vacancy 2026 "t1" "w1"
              {| Service.db := PairSamples.oneEach; Service.cache := ∅ |} 1)
    as [w' [res [R [Hrows _]]]].
  - apply NoDup_one.
  - cbn. lia.
  - exists w', res. split; [exact R |].
    apply (Hrows Samples.tashkentJob). left. reflexivity.
Defined.

(** X14. [recalcForVacancy] for an existing vacancy, given enough page
    fetches and one profile per user, returns and leaves for every active
    worker the row of the pair, computed from that worker's own features
    as they were at the start.  Only rows of this vacancy with an active
    worker change; the cached list of this vacancy is dropped and the rest
    of the cache stays; one [VACANCY_MATCHES_RECALCULATED] event of user
    [system] is appended; the other tables are as before. *)
Theorem recalcForVacancy_scores_every_active_worker
    (thisYear : Z) (now vacancyId : string) (vacancy : Vacancy)
    (w : Service.World) (fuel : nat) :
  List.NoDup (map wp_userId (Repository.t_workerProfile (Service.db w))) ->
  Repository.getVacancy (Service.db w) vacancyId = Some vacancy ->
  (length (Repository.activeWorkers (Service.db w)) / 200 < fuel)%nat ->
  exists w' res,
    Service.recalcForVacancy fuel thisYear now vacancyId w
    = Some (w', Service.Returned res)
    /\ (forall p, In p (Repository.activeWorkers (Service.db w)) ->
          Repository.t_matchScore (Service.db w') !! (wp_userId p, vacancyId)
          = Some (batchRow thisYear now (Service.db w) (wp_userId p) vacancyId vacancy))
    /\ (forall a b,
          ~ (In a (map wp_userId (Repository.activeWorkers (Service.db w)))
             /\ b = vacancyId) ->
          Repository.t_matchScore (Service.db w') !! (a, b)
          = Repository.t_matchScore (Service.db w) !! (a, b))
    /\ Service.cache w' = Cache.invalidateVacancyCache vacancyId (Service.cache w)
    /\ (forall key, key <> Cache.vacancyKey vacancyId ->
          Service.cache w' !! key = Service.cache w !! key)
    /\ Repository.t_securityEvent (Service.db w')
       = Repository.t_securityEvent (Service.db w)
         ++ {| Repository.se_eventType := "VACANCY_MATCHES_RECALCULATED";
               Repository.se_userId := "system" |} :: nil
    /\ sameFeatures (Service.db w) (Service.db w').
Proof.
  intros N Hv Hf.
  assert (Hv' : Repository.getVacancy (Service.db w) vacancyId <> None) by congruence.
  destruct (recalcForVacancy_loop_total thisYear now vacancyId (Service.db w) fuel Hv' Hf)
    as [d' [R _]].
  destruct (recalcForVacancy_loop_rows thisYear now vacancyId vacancy (Service.db w) fuel _
              N Hv R) as [Hs [Hrows Hframe]].
  cbn [fst] in Hs, Hrows, Hframe.
  unfold Service.recalcForVacancy. rewrite Hv, R.
  eexists. eexists. split; [reflexivity |]. cbn [Service.db Service.cache].
  split; [exact Hrows |]. split; [exact Hframe |]. split; [reflexivity |].
  split; [intros key Hk; unfold Cache.invalidateVacancyCache;
          apply lookup_delete_ne; congruence |].
  destruct Hs as [E1 [E2 [E3 [E4 [E5 [E6 E7]]]]]].
  unfold Service.auditService_log, sameFeatures.
  cbn [Repository.t_securityEvent Repository.t_vacancy Repository.t_vacancySkill
       Repository.t_workerProfile Repository.t_workerSkill Repository.t_workerEducation
       Repository.t_workerExperience].
  rewrite E7. repeat split; assumption.
Qed.

Lemma recalcForVacancy_scores_every_active_worker_witness :
  exists w' res,
    Service.recalcForVacancy 1 2026 "t1" "v1"
      {| Service.db := PairSamples.oneEach; Service.cache := ∅ |}
    = Some (w', Service.Returned res)
    /\ Repository.t_matchScore (Service.db w') !! ("w1", "v1")
       = Some (batchRow 2026 "t1" PairSamples.oneEach "w1" "v1" Samples.tashkentJob).
Proof.
  destruct (recalcForVacancy_scores_every_active_worker 2026 "t1" "v1" Samples.tashkentJob
              {| Service.db := PairSamples.oneEach; Service.cache := ∅ |} 1)
    as [w' [res [R [Hrows _]]]].
  - apply NoDup_one.
  - reflexivity.
  - cbn. lia.
  - exists w', res. split; [exact R |].
    apply (Hrows Samples.inTashkent). left. reflexivity.
Defined.

(** ** The two score calculators side by side *)

Section TwoCalculators.

Lemma ratio_le_1 (a b : nat) :
  (a <= b)%nat -> (0 < b)%nat ->
  Qle_bool (inject_Z (Z.of_nat a) / inject_Z (Z.of_nat b)) 1 = true.
Proof.
  intros Hab Hb. apply Qle_bool_iff. apply Qle_shift_div_r.
  - change 0 with (inject_Z 0). rewrite <- Zlt_Qlt. lia.
  - rewrite Qmult_1_l. rewrite <- Zle_Qle. lia.
Qed.

Lemma pos_of_nonneg_neq (a : Q) : 0 <= a -> ~ a == 0 -> 0 < a.
Proof.
  intros H N. destruct (Qlt_le_dec 0 a) as [L | L]; [exact L |].
  exfalso. apply N. lra.
Qed.

Lemma salaryMinOf_nonneg (v : Vacancy) : nonNegQ (salaryMin v) -> 0 <= Service.salaryMinOf v.
Proof.
  unfold Service.salaryMinOf, nonNegQ. destruct (salaryMin v) as [d |]; intros H; [| lra].
  destruct (Qeq_bool d 0); [lra | exact H].
Qed.

Lemma salaryMaxOf_nonneg (v : Vacancy) :
  nonNegQ (salaryMin v) -> nonNegQ (salaryMax v) -> 0 <= Service.salaryMaxOf v.
Proof.
  intros Hmin. pose proof (salaryMinOf_nonneg v Hmin) as A.
  unfold Service.salaryMaxOf, nonNegQ. destruct (salaryMax v) as [d |]; intros H; [| lra].
  destruct (Qeq_bool d 0); [lra | exact H].
Qed.

Lemma single_salary_values (wp : option WorkerProfile) (v : Vacancy) :
  nonNegQ (salaryMin v) -> nonNegQ (salaryMax v) ->
  Service.calculateSalaryScore wp v == 0
  \/ Service.calculateSalaryScore wp v == 50
  \/ Service.calculateSalaryScore wp v == 80.
Proof.
  intros Hmin Hmax.
  pose proof (salaryMinOf_nonneg v Hmin) as A.
  pose proof (salaryMaxOf_nonneg v Hmin Hmax) as B.
  assert (G : (if salaryIsNegotiable v then 80
               else if (Qeq_bool (Service.salaryMinOf v) 0
                        && Qeq_bool (Service.salaryMaxOf v) 0)%bool
                    then 50
                    else if Qeq_bool ((1 # 2) * Service.midPointOf v) 0 then 100
                         else Js.Math_max 0
                                (Js.Math_round
                                   ((1 - Qabs (0 - Service.midPointOf v)
                                         / ((1 # 2) * Service.midPointOf v)) * 100 * 100)
                                 / 100)) == 0
            \/ (if salaryIsNegotiable v then 80
                else if (Qeq_bool (Service.salaryMinOf v) 0
                         && Qeq_bool (Service.salaryMaxOf v) 0)%bool
                     then 50
                     else if Qeq_bool ((1 # 2) * Service.midPointOf v) 0 then 100
                          else Js.Math_max 0
                                 (Js.Math_round
                                    ((1 - Qabs (0 - Service.midPointOf v)
                                          / ((1 # 2) * Service.midPointOf v)) * 100 * 100)
                                  / 100)) == 50
            \/ (if salaryIsNegotiable v then 80
                else if (Qeq_bool (Service.salaryMinOf v) 0
                         && Qeq_bool (Service.salaryMaxOf v) 0)%bool
                     then 50
                     else if Qeq_bool ((1 # 2) * Service.midPointOf v) 0 then 100
                          else Js.Math_max 0
                                 (Js.Math_round
                                    ((1 - Qabs (0 - Service.midPointOf v)
                                          / ((1 # 2) * Service.midPointOf v)) * 100 * 100)
                                  / 100)) == 80).
  { destruct (salaryIsNegotiable v); [right; right; reflexivity |].
    destruct (Qeq_bool (Service.salaryMinOf v) 0 && Qeq_bool (Service.salaryMaxOf v) 0)%bool
      eqn:E; [right; left; reflexivity |].
    left.
    assert (Hmid : 0 < Service.midPointOf v).
    { apply andb_false_iff in E. unfold Service.midPointOf.
      destruct E as [E | E]; apply Qeq_bool_false_neq in E;
        [apply (pos_of_nonneg_neq _ A) in E | apply (pos_of_nonneg_neq _ B) in E];
        (apply Qlt_shift_div_l; [reflexivity | lra]). }
    pose proof (salary_formula_positive_midpoint v Hmid) as F.
    rewrite E in F. exact F. }
  unfold Service.calculateSalaryScore.
  destruct (salaryMin v), (salaryMax v); try exact G.
  right. left. reflexivity.
Qed.

End TwoCalculators.

(** X15. Where the single-pair calculator and the batch calculator give
    the same sub-score: the education score and the location score always;
    the skill score when the vacancy has skills, all of them required, and
    the worker's matching skills are not more than those; the experience
    score, 100 in both, when both bounds are set and positive and the
    worker's total years lie between them. *)
Theorem calculators_agree
    (thisYear : Z) (workerSkills : list WorkerSkill) (workerEducation : list WorkerEducation)
    (workerExperience : list WorkerExperience) (vacancySkills : list VacancySkill)
    (vacancy : Vacancy) (workerProfile : option WorkerProfile) :
  Service.calculateEducationScore workerEducation vacancy
  = Repository.calculateEducationScore workerEducation vacancy
  /\ Service.calculateLocationScore workerProfile vacancy
     = Repository.calculateLocationScore workerProfile vacancy
  /\ (vacancySkills <> nil ->
      requiredOf vacancySkills = vacancySkills ->
      (length (matchedAgainst workerSkills vacancySkills) <= length vacancySkills)%nat ->
      Service.calculateSkillScore workerSkills vacancySkills (requiredOf vacancySkills)
      = Repository.calculateSkillScore workerSkills vacancySkills)
  /\ (forall lo hi,
        experienceMinYears vacancy = Some lo ->
        experienceMaxYears vacancy = Some hi ->
        (0 < lo)%Z ->
        (lo <= totalYears thisYear workerExperience <= hi)%Z ->
        Service.calculateExperienceScore thisYear workerExperience vacancy = 100
        /\ Repository.calculateExperienceScore thisYear workerExperience vacancy = 100).
Proof.
  split; [reflexivity |]. split; [reflexivity |]. split.
  - intros Hne Hreq Hle. rewrite Hreq.
    unfold Service.calculateSkillScore, Repository.calculateSkillScore.
    destruct vacancySkills as [| s rest]; [congruence |].
    cbn [length Nat.eqb] in *. unfold Js.Math_min, nlen.
    rewrite ratio_le_1 by (cbn [length]; lia). reflexivity.
  - intros lo hi Elo Ehi Hlo Hin.
    assert (Hhi : (0 < hi)%Z) by lia.
    unfold Service.calculateExperienceScore, Repository.calculateExperienceScore.
    rewrite Elo, Ehi. unfold Js.orZ, Js.truthyZ.
    assert (E1 : (lo =? 0)%Z = false) by (apply Z.eqb_neq; lia).
    assert (E2 : (hi =? 0)%Z = false) by (apply Z.eqb_neq; lia).
    assert (E3 : (lo <=? totalYears thisYear workerExperience)%Z = true)
      by (apply Z.leb_le; lia).
    assert (E4 : (totalYears thisYear workerExperience <=? hi)%Z = true)
      by (apply Z.leb_le; lia).
    assert (E5 : (totalYears thisYear workerExperience <? lo)%Z = false)
      by (apply Z.ltb_ge; lia).
    assert (E6 : (hi <? totalYears thisYear workerExperience)%Z = false)
      by (apply Z.ltb_ge; lia).
    rewrite !E1, !E2. cbn [andb negb]. rewrite ?E1, ?E2, ?E3, ?E4, ?E5, ?E6.
    cbn [andb negb]. split; reflexivity.
Qed.

Lemma calculators_agree_witness :
  Service.calculateSkillScore (Samples.skill "go" :: nil)
    (Samples.wanted "go" true :: Samples.wanted "sql" true :: nil)
    (requiredOf (Samples.wanted "go" true :: Samples.wanted "sql" true :: nil))
  = Repository.calculateSkillScore (Samples.skill "go" :: nil)
      (Samples.wanted "go" true :: Samples.wanted "sql" true :: nil).
Proof.
  apply (calculators_agree 2026 (Samples.skill "go" :: nil) nil nil
           (Samples.wanted "go" true :: Samples.wanted "sql" true :: nil)
           Samples.tashkentJob None).
  - discriminate.
  - reflexivity.
  - cbn. lia.
Defined.

(** X16. Neither calculator looks at the worker for the salary score.
    With salaries that are not negative, the batch calculator gives 50 or
    80 and nothing else (it never reads [salaryIsNegotiable]), and the
    single-pair calculator gives 0, 50 or 80 and nothing else: 80 exactly
    for a negotiable vacancy that declares a salary. *)
Theorem salary_scores_ignore_the_worker
    (workerProfile other : option WorkerProfile) (vacancy : Vacancy) :
  nonNegQ (salaryMin vacancy) ->
  nonNegQ (salaryMax vacancy) ->
  Repository.calculateSalaryScore other vacancy
  = Repository.calculateSalaryScore workerProfile vacancy
  /\ Service.calculateSalaryScore other vacancy
     = Service.calculateSalaryScore workerProfile vacancy
  /\ (Repository.calculateSalaryScore workerProfile vacancy = 50
      \/ Repository.calculateSalaryScore workerProfile vacancy = 80)
  /\ (Service.calculateSalaryScore workerProfile vacancy == 0
      \/ Service.calculateSalaryScore workerProfile vacancy == 50
      \/ Service.calculateSalaryScore workerProfile vacancy == 80)
  /\ (Service.calculateSalaryScore workerProfile vacancy == 80
      <-> salaryIsNegotiable vacancy = true
          /\ (salaryMin vacancy <> None \/ salaryMax vacancy <> None)).
Proof.
  intros Hmin Hmax.
  split; [reflexivity |]. split; [reflexivity |]. split; [| split].
  - unfold Repository.calculateSalaryScore.
    destruct (salaryMin vacancy) as [a |], (salaryMax vacancy) as [b |];
      try (left; reflexivity);
      match goal with
      | |- context [if ?c then 50 else 80] => destruct c; [left | right]; reflexivity
      end.
  - apply single_salary_values; assumption.
  - pose proof (salaryMinOf_nonneg vacancy Hmin) as A.
    pose proof (salaryMaxOf_nonneg vacancy Hmin Hmax) as B.
    unfold Service.calculateSalaryScore.
    destruct (salaryIsNegotiable vacancy) eqn:N.
    + destruct (salaryMin vacancy) as [a |] eqn:Ea, (salaryMax vacancy) as [b |] eqn:Eb.
      1-3: split; [intros _; split; [reflexivity | ]| intros _; reflexivity].
      1-3: first [left; discriminate | right; discriminate].
      split; [intros H; vm_compute in H; discriminate H |].
      intros [_ [H | H]]; congruence.
    + assert (G : ~ (if (Qeq_bool (Service.salaryMinOf vacancy) 0
                         && Qeq_bool (Service.salaryMaxOf vacancy) 0)%bool
                     then 50
                     else if Qeq_bool ((1 # 2) * Service.midPointOf vacancy) 0 then 100
                          else Js.Math_max 0
                                 (Js.Math_round
                                    ((1 - Qabs (0 - Service.midPointOf vacancy)
                                          / ((1 # 2) * Service.midPointOf vacancy))
                                     * 100 * 100) / 100)) == 80).
      { destruct (Qeq_bool (Service.salaryMinOf vacancy) 0
                  && Qeq_bool (Service.salaryMaxOf vacancy) 0)%bool eqn:E.
        - intros H. vm_compute in H. discriminate H.
        - assert (Hmid : 0 < Service.midPointOf vacancy).
          { apply andb_false_iff in E. unfold Service.midPointOf.
            destruct E as [E | E]; apply Qeq_bool_false_neq in E;
            [apply (pos_of_nonneg_neq _ A) in E | apply (pos_of_nonneg_neq _ B) in E];
            (apply Qlt_shift_div_l; [reflexivity | lra]). }
          pose proof (salary_formula_positive_midpoint vacancy Hmid) as F.
          rewrite E in F. rewrite F. intros H. vm_compute in H. discriminate H. }
      destruct (salaryMin vacancy) as [a |], (salaryMax vacancy) as [b |];
        (split; [intros H | intros [H _]; discriminate H]).
      1-3: exfalso; apply G, H.
      vm_compute in H. discriminate H.
Qed.

Lemma salary_scores_ignore_the_worker_witness :
  Service.calculateSalaryScore (Some Samples.inTashkent) Samples.tashkentJob == 80.
Proof.
  apply (salary_scores_ignore_the_worker (Some Samples.inTashkent) None Samples.tashkentJob).
  - vm_compute. discriminate.
  - vm_compute. discriminate.
  - split; [reflexivity | left; discriminate].
Defined.

(** ** Reading match scores *)

Section Queries.

Import Repository.

Lemma insertRow_perm (a : MatchRow) (l : list MatchRow) :
  Permutation (insertRow a l) (a :: l).
Proof.
  induction l as [| b r IH]; cbn [insertRow]; [reflexivity |].
  destruct (Qle_bool (row_totalScore b) (row_totalScore a)); [reflexivity |].
  eapply Permutation_trans; [apply perm_skip, IH | apply perm_swap].
Qed.

Lemma orderBy_perm (l : list MatchRow) : Permutation (orderByTotalScoreDesc l) l.
Proof.
  induction l as [| a r IH]; cbn [orderByTotalScoreDesc]; [reflexivity |].
  eapply Permutation_trans; [apply insertRow_perm | apply perm_skip, IH].
Qed.

Lemma insertRow_sorted (a : MatchRow) (l : list MatchRow) :
  rowsDesc l -> rowsDesc (insertRow a l).
Proof.
  unfold rowsDesc. induction l as [| b r IH]; intros S; cbn [insertRow].
  - repeat constructor.
  - apply StronglySorted_inv in S as [Sr Hb].
    destruct (Qle_bool (row_totalScore b) (row_totalScore a)) eqn:E.
    + apply Qle_bool_iff in E. constructor.
      * constructor; assumption.
      * constructor; [exact E |].
        rewrite List.Forall_forall in Hb |- *. intros x Hx.
        eapply Qle_trans; [apply (Hb x Hx) | exact E].
    + assert (L : row_totalScore a <= row_totalScore b).
      { destruct (Qlt_le_dec (row_totalScore a) (row_totalScore b)) as [Hlt | Hge].
        - apply Qlt_le_weak, Hlt.
        - apply Qle_bool_iff in Hge. congruence. }
      constructor; [apply IH, Sr |].
      rewrite List.Forall_forall in Hb |- *. intros x Hx.
      apply (Permutation_in _ (insertRow_perm a r)) in Hx.
      destruct Hx as [<- | Hx]; [exact L | apply Hb, Hx].
Qed.

Lemma orderBy_sorted (l : list MatchRow) : rowsDesc (orderByTotalScoreDesc l).
Proof.
  induction l as [| a r IH]; cbn [orderByTotalScoreDesc].
  - constructor.
  - apply insertRow_sorted, IH.
Qed.

Lemma sorted_app_inv {A} (R : A -> A -> Prop) (l1 l2 : list A) :
  StronglySorted R (l1 ++ l2) ->
  StronglySorted R l1 /\ forall x y, In x l1 -> In y l2 -> R x y.
Proof.
  induction l1 as [| a r IH]; cbn [app]; intros S.
  - split; [constructor | intros x y []].
  - apply StronglySorted_inv in S as [Sr Ha]. destruct (IH Sr) as [S1 H1].
    rewrite List.Forall_forall in Ha. split.
    + constructor; [exact S1 |]. apply List.Forall_forall. intros x Hx.
      apply Ha, in_or_app. left. exact Hx.
    + intros x y [<- | Hx] Hy; [apply Ha, in_or_app; right; exact Hy | apply H1; assumption].
Qed.

Lemma findMany_best (where_ : MatchRow -> bool) (take : nat) (d : Db) :
  bestRows where_ take d (findMany where_ take d).
Proof.
  unfold bestRows, findMany, findMatchScore, row_workerId, row_vacancyId.
  set (scan := map_to_list (t_matchScore d)).
  set (l := orderByTotalScoreDesc (List.filter where_ scan)).
  assert (Hl : forall r, In r l <-> (t_matchScore d !! (r.1.1, r.1.2) = Some r.2
                                     /\ where_ r = true)).
  { intros r. unfold l. split.
    - intros H. apply (Permutation_in _ (orderBy_perm _)) in H.
      apply filter_In in H as [H W]. split; [| exact W].
      apply list_elem_of_In in H. unfold scan in H.
      destruct r as [[a b] m]. apply elem_of_map_to_list in H. exact H.
    - intros [H W]. apply (Permutation_in _ (Permutation_sym (orderBy_perm _))).
      apply filter_In. split; [| exact W]. apply list_elem_of_In. unfold scan.
      destruct r as [[a b] m]. apply elem_of_map_to_list. exact H. }
  assert (Nl : List.NoDup l).
  { unfold l. apply (Permutation_NoDup (Permutation_sym (orderBy_perm _))).
    apply List.NoDup_filter. apply NoDup_ListNoDup. unfold scan. apply NoDup_map_to_list. }
  pose proof (orderBy_sorted (List.filter where_ scan)) as Sl. fold l in Sl.
  unfold rowsDesc in Sl. rewrite <- (firstn_skipn take l) in Sl, Nl.
  apply sorted_app_inv in Sl as [S1 S2].
  split; [rewrite length_firstn; lia |].
  split; [exact S1 |].
  split; [apply NoDup_app_remove_r in Nl; exact Nl |].
  split.
  - intros r Hr. assert (In r l) as H.
    { rewrite <- (firstn_skipn take l). apply in_or_app. left. exact Hr. }
    apply Hl in H. tauto.
  - intros r H W. assert (In r l) as Hin by (apply Hl; tauto).
    rewrite <- (firstn_skipn take l) in Hin. apply in_app_or in Hin as [Hin | Hin].
    + left. exact Hin.
    + right. split.
      * rewrite length_firstn.
        assert (length (skipn take l) <> 0)%nat as Hn
          by (destruct (skipn take l); [destruct Hin | discriminate]).
        rewrite length_skipn in Hn. lia.
      * intros x Hx. apply (S2 x r Hx Hin).
Qed.

Lemma match_rows_facts (d : Db) (id : string) :
  bestRows (fun r => String.eqb (row_workerId r) id) 50 d (getWorkerMatches d id 50)
  /\ bestRows (fun r => (String.eqb (row_vacancyId r) id
                         && isRecommended (ms_scores r.2))%bool) 50 d
       (getRecommendedMatches d id 50).
Proof. split; apply findMany_best. Qed.

End Queries.

(** X17. The two match-score queries of the repository.  The matches of a
    worker are at most [limit] rows of that worker, no row twice, in
    descending order of total score, each as stored, and no row of the
    worker that was left out scores higher than a returned one; the flag
    [isRecommended] plays no part.  The recommended matches of a vacancy
    are the same for the rows of that vacancy whose flag is set. *)
Theorem match_queries_return_the_best_rows
    (d : Repository.Db) (id : string) (limit : nat) :
  bestRows (fun r => String.eqb (Repository.row_workerId r) id) limit d
    (Repository.getWorkerMatches d id limit)
  /\ bestRows (fun r => (String.eqb (Repository.row_vacancyId r) id
                         && isRecommended (Repository.ms_scores r.2))%bool) limit d
       (Repository.getRecommendedMatches d id limit).
Proof. split; apply findMany_best. Qed.

(** ** Reading recommendations *)

Section Reads.

Lemma slice_0 {A} (n : nat) (l : list A) : Js.slice 0 n l = firstn n l.
Proof. unfold Js.slice. rewrite Nat.sub_0_r, List.skipn_0. reflexivity. Qed.

Lemma fetched_sorted (fetchedAt : string) (rows : list Repository.MatchRow) :
  rowsDesc rows -> sortedDesc (map (Service.toCachedMatchScore fetchedAt) rows).
Proof.
  unfold rowsDesc, sortedDesc. induction 1 as [| a r S IH Ha]; cbn [map]; constructor.
  - exact IH.
  - rewrite List.Forall_forall in Ha |- *. intros x Hx.
    apply in_map_iff in Hx as [y [<- Hy]]. apply (Ha y Hy).
Qed.

Lemma getOrSetAlone_readThrough (fetched : list Cache.CachedMatchScore)
    (now key owner : string) (limit : nat) (w : Service.World) :
  exists result r',
    Cache.getOrSetAlone fetched now key owner (Service.cache w) = Some (result, r')
    /\ readThrough key fetched now limit w
         {| Service.db := Service.db w; Service.cache := r' |} (Js.slice 0 limit result).
Proof.
  unfold readThrough. cbn [Service.db Service.cache].
  destruct (Cache.getMatches key (Service.cache w)) as [cached |] eqn:H.
  - exists cached, (Service.cache w). rewrite (getOrSetAlone_hit _ _ _ _ _ _ H).
    rewrite slice_0, length_firstn. repeat split; try reflexivity. lia.
  - destruct (Service.cache w !! Cache.lockKeyOf key) as [v |] eqn:E.
    + exists fetched, (Service.cache w).
      rewrite getOrSetAlone_lock_taken by congruence.
      rewrite slice_0, length_firstn. repeat split; try reflexivity; try lia.
      intros A. discriminate A.
    + exists fetched, (Cache.setMatches now key fetched (Service.cache w)).
      rewrite (getOrSetAlone_miss_free _ _ _ _ _ H E).
      rewrite slice_0, length_firstn. repeat split; try reflexivity; try lia.
      intros A. congruence.
Qed.

End Reads.

(** X18. Reading recommendations through the cache, for a caller left
    alone.  Both reads return, change no table and hand back at most
    [limit] entries.  When the key is cached the entries are the first
    [limit] of the cached list, whatever the tables hold by then, and the
    cache is not written.  Otherwise they are the first [limit] of the up
    to 50 best rows of the query (of the worker, resp. the recommended ones
    of the vacancy), in descending order; with the lock free that list is
    cached, re-stamped and otherwise as fetched, and with the lock taken
    nothing is cached. *)
Theorem recommendations_read_through_cache
    (fetchedAt now uuid id : string) (limit : nat) (w : Service.World) :
  let workerRows :=
    map (Service.toCachedMatchScore fetchedAt)
      (Repository.getWorkerMatches (Service.db w) id 50) in
  let vacancyRows :=
    map (Service.toCachedMatchScore fetchedAt)
      (Repository.getRecommendedMatches (Service.db w) id 50) in
  (exists w' result,
     Service.getRecommendedMatches fetchedAt now uuid id limit w = Some (w', result)
     /\ readThrough (Cache.workerKey id) workerRows now limit w w' result)
  /\ (exists w' result,
        Service.getVacancyRecommendations fetchedAt now uuid id limit w = Some (w', result)
        /\ readThrough (Cache.vacancyKey id) vacancyRows now limit w w' result)
  /\ (forall rows, rows = workerRows \/ rows = vacancyRows ->
        sortedDesc rows
        /\ (length rows <= 50)%nat
        /\ Cache.cacheData now rows = map (Cache.restamp now) rows)
  /\ (forall m, In m workerRows -> Cache.cm_workerId m = id)
  /\ (forall m, In m vacancyRows ->
        Cache.cm_vacancyId m = id /\ isRecommended (Cache.cm_scores m) = true).
Proof.
  cbv zeta.
  destruct (match_rows_facts (Service.db w) id) as [[W1 [W2 [_ [W4 _]]]] [V1 [V2 [_ [V4 _]]]]].
  split; [| split; [| split; [| split]]].
  - unfold Service.getRecommendedMatches, Cache.getOrSetWorkerCache.
    match goal with
    | |- context [Cache.getOrSetAlone ?f now ?k ?o _] =>
      destruct (getOrSetAlone_readThrough f now k o limit w) as [result [r' [E R]]]
    end.
    rewrite E. eexists. eexists. split; [reflexivity | exact R].
  - unfold Service.getVacancyRecommendations, Cache.getOrSetVacancyCache.
    match goal with
    | |- context [Cache.getOrSetAlone ?f now ?k ?o _] =>
      destruct (getOrSetAlone_readThrough f now k o limit w) as [result [r' [E R]]]
    end.
    rewrite E. eexists. eexists. split; [reflexivity | exact R].
  - intros rows [-> | ->].
    + assert (S : sortedDesc (map (Service.toCachedMatchScore fetchedAt)
                                (Repository.getWorkerMatches (Service.db w) id 50)))
        by apply fetched_sorted, W2.
      split; [exact S |]. split; [rewrite length_map; exact W1 |].
      rewrite (cacheData_of_sorted _ _ S). rewrite firstn_all2; [reflexivity |].
      rewrite length_map. exact W1.
    + assert (S : sortedDesc (map (Service.toCachedMatchScore fetchedAt)
                                (Repository.getRecommendedMatches (Service.db w) id 50)))
        by apply fetched_sorted, V2.
      split; [exact S |]. split; [rewrite length_map; exact V1 |].
      rewrite (cacheData_of_sorted _ _ S). rewrite firstn_all2; [reflexivity |].
      rewrite length_map. exact V1.
  - intros m Hm. apply in_map_iff in Hm as [r [<- Hr]].
    destruct (W4 r Hr) as [E _]. apply String.eqb_eq in E. exact E.
  - intros m Hm. apply in_map_iff in Hm as [r [<- Hr]].
    destruct (V4 r Hr) as [E _]. apply andb_true_iff in E as [E1 E2].
    apply String.eqb_eq in E1. split; [exact E1 | exact E2].
Qed.

(** ** Reads after writes *)

(** X19. What a read sees after a write, for a worker whose list is
    cached and an existing vacancy.  [calculateScore] writes its row and
    leaves the cache alone, so the following read for the worker still
    returns the first [limit] entries of the old list.  [recalcForWorker]
    and [recalcForVacancy], given enough page fetches, return and have
    dropped the cached list of their own key, so the next read for that
    key returns the first [limit] rows of the query on the tables as the
    recalculation left them. *)
Theorem reads_after_writes
    (thisYear : Z) (now fetchedAt later uuid workerId vacancyId : string)
    (limit fuel : nat) (w : Service.World) (vacancy : Vacancy)
    (cached : list Cache.CachedMatchScore) :
  Repository.getVacancy (Service.db w) vacancyId = Some vacancy ->
  Cache.getWorkerMatches workerId (Service.cache w) = Some cached ->
  (length (Repository.openVacancies (Service.db w)) / 200 < fuel)%nat ->
  (length (Repository.activeWorkers (Service.db w)) / 200 < fuel)%nat ->
  (let w1 := (Service.calculateScore thisYear now workerId vacancyId w).1 in
   Service.getRecommendedMatches fetchedAt later uuid workerId limit w1
   = Some (w1, firstn limit cached))
  /\ (exists w1 res w2,
        Service.recalcForWorker fuel thisYear now workerId w = Some (w1, res)
        /\ Service.getRecommendedMatches fetchedAt later uuid workerId limit w1
           = Some (w2, firstn limit
                         (map (Service.toCachedMatchScore fetchedAt)
                            (Repository.getWorkerMatches (Service.db w1) workerId 50))))
  /\ (exists w1 res w2,
        Service.recalcForVacancy fuel thisYear now vacancyId w
        = Some (w1, Service.Returned res)
        /\ Service.getVacancyRecommendations fetchedAt later uuid vacancyId limit w1
           = Some (w2, firstn limit
                         (map (Service.toCachedMatchScore fetchedAt)
                            (Repository.getRecommendedMatches (Service.db w1)
                               vacancyId 50)))).
Proof.
  intros Hv Hc Hopen Hactive. split; [| split].
  - cbv zeta. unfold Service.calculateScore. rewrite Hv. cbn [fst].
    unfold Service.getRecommendedMatches, Cache.getOrSetWorkerCache.
    cbn [Service.db Service.cache].
    rewrite (getOrSetAlone_hit _ _ _ _ _ _ Hc), slice_0. reflexivity.
  - destruct (recalcForWorker_loop_total thisYear now workerId (Service.db w) fuel Hopen)
      as [d' [R _]].
    unfold Service.recalcForWorker. rewrite R.
    eexists. eexists.
    unfold Service.getRecommendedMatches, Cache.getOrSetWorkerCache.
    match goal with
    | |- context [Cache.getOrSetAlone ?f later ?k ?o (Service.cache ?x)] =>
      destruct (getOrSetAlone_readThrough f later k o limit x)
        as [result [r' [E [_ [_ M]]]]]
    end.
    rewrite E. eexists. split; [reflexivity |]. f_equal. f_equal.
    cbn [Service.cache] in M. unfold Cache.invalidateWorkerCache, Cache.getMatches in M.
    rewrite lookup_delete_eq in M. destruct M as [M _]. exact M.
  - assert (Hv' : Repository.getVacancy (Service.db w) vacancyId <> None) by congruence.
    destruct (recalcForVacancy_loop_total thisYear now vacancyId (Service.db w) fuel
                Hv' Hactive) as [d' [R _]].
    unfold Service.recalcForVacancy. rewrite Hv, R.
    eexists. eexists.
    unfold Service.getVacancyRecommendations, Cache.getOrSetVacancyCache.
    match goal with
    | |- context [Cache.getOrSetAlone ?f later ?k ?o (Service.cache ?x)] =>
      destruct (getOrSetAlone_readThrough f later k o limit x)
        as [result [r' [E [_ [_ M]]]]]
    end.
    rewrite E. eexists. split; [reflexivity |]. f_equal. f_equal.
    cbn [Service.cache] in M. unfold Cache.invalidateVacancyCache, Cache.getMatches in M.
    rewrite lookup_delete_eq in M. destruct M as [M _]. exact M.
Qed.

Lemma reads_after_writes_witness :
  let w := {| Service.db := PairSamples.oneEach;
              Service.cache :=
                <[Cache.workerKey "w1" := Cache.RMatches CacheSamples.three]> ∅ |} in
  (let w1 := (Service.calculateScore 2026 "t1" "w1" "v1" w).1 in
   Service.getRecommendedMatches "t2" "t3" "u" "w1" 2 w1
   = Some (w1, firstn 2 CacheSamples.three))
  /\ (exists w1 res w2,
        Service.recalcForWorker 1 2026 "t1" "w1" w = Some (w1, res)
        /\ Service.getRecommendedMatches "t2" "t3" "u" "w1" 2 w1
           = Some (w2, firstn 2
                         (map (Service.toCachedMatchScore "t2")
                            (Repository.getWorkerMatches (Service.db w1) "w1" 50))))
  /\ (exists w1 res w2,
        Service.recalcForVacancy 1 2026 "t1" "v1" w = Some (w1, Service.Returned res)
        /\ Service.getVacancyRecommendations "t2" "t3" "u" "v1" 2 w1
           = Some (w2, firstn 2
                         (map (Service.toCachedMatchScore "t2")
                            (Repository.getRecommendedMatches (Service.db w1) "v1" 50)))).
Proof.
  cbv zeta.
  apply (reads_after_writes 2026 "t1" "t2" "t3" "u" "w1" "v1" 2 1
           {| Service.db := PairSamples.oneEach;
              Service.cache :=
                <[Cache.workerKey "w1" := Cache.RMatches CacheSamples.three]> ∅ |}
           Samples.tashkentJob CacheSamples.three).
  - reflexivity.
  - unfold Cache.getWorkerMatches, Cache.getMatches. cbn [Service.cache].
    rewrite lookup_insert_eq. reflexivity.
  - cbn. lia.
  - cbn. lia.
Defined.

(** ** One row at a time *)



(** ** Jobs of the queue worker *)

(** X21. [processJob], given enough page fetches, always ends.  It
    completes exactly for a [recalc-worker] job with a non-empty worker id
    and for a [recalc-vacancy] job with a non-empty id of an existing
    vacancy; a [recalc-worker] job is not checked against the worker
    table.  Every other job throws, and a job that throws has changed
    nothing: neither the tables nor the cache. *)
Theorem processJob_outcomes
    (fuel : nat) (thisYear : Z) (now : string) (job : Processor.Job) (w : Service.World) :
  (length (Repository.openVacancies (Service.db w)) / 200 < fuel)%nat ->
  (length (Repository.activeWorkers (Service.db w)) / 200 < fuel)%nat ->
  exists w' out,
    Processor.processJob fuel thisYear now job w = Some (w', out)
    /\ (out <> Processor.Completed -> w' = w)
    /\ (out = Processor.Completed
        <-> (Processor.name job = "recalc-worker"
             /\ Processor.truthy (Processor.data_workerId job) <> None)
            \/ (Processor.name job = "recalc-vacancy"
                /\ exists id,
                     Processor.truthy (Processor.data_vacancyId job) = Some id
                     /\ Repository.getVacancy (Service.db w) id <> None))
    /\ (Processor.name job <> "recalc-worker" ->
        Processor.name job <> "recalc-vacancy" ->
        out = Processor.ThrewError ("Unknown job type: " ++ Processor.name job)).
Proof.
  intros Hopen Hactive. unfold Processor.processJob, Processor.RECALC_WORKER,
    Processor.RECALC_VACANCY.
  destruct (String.eqb_spec (Processor.name job) "recalc-worker") as [Nw | Nw].
  - destruct (Processor.truthy (Processor.data_workerId job)) as [workerId |] eqn:T.
    + destruct (recalcForWorker_loop_total thisYear now workerId (Service.db w) fuel Hopen)
        as [d' [R _]].
      unfold Service.recalcForWorker. rewrite R.
      eexists. eexists. split; [reflexivity |].
      split; [congruence |]. split; [| congruence].
      split; [intros _; left; split; [exact Nw | discriminate] | reflexivity].
    + exists w, (Processor.ThrewError "workerId is required for recalc-worker job").
      split; [reflexivity |]. split; [reflexivity |]. split; [| congruence].
      split; [discriminate |].
      intros [[_ H] | [H _]]; [congruence | rewrite Nw in H; discriminate H].
  - destruct (String.eqb_spec (Processor.name job) "recalc-vacancy") as [Nv | Nv].
    + destruct (Processor.truthy (Processor.data_vacancyId job)) as [vacancyId |] eqn:T.
      * unfold Service.recalcForVacancy.
        destruct (Repository.getVacancy (Service.db w) vacancyId) as [vacancy |] eqn:G.
        -- assert (G' : Repository.getVacancy (Service.db w) vacancyId <> None)
             by congruence.
           destruct (recalcForVacancy_loop_total thisYear now vacancyId (Service.db w) fuel
                       G' Hactive) as [d' [R _]].
           rewrite R. eexists. eexists. split; [reflexivity |].
           split; [congruence |]. split; [| congruence].
           split; [| reflexivity]. intros _. right. split; [exact Nv |].
           exists vacancyId. split; [reflexivity | exact G'].
        -- exists w, (Processor.ThrewNotFound "VACANCY_NOT_FOUND").
           split; [reflexivity |]. split; [reflexivity |]. split; [| congruence].
           split; [discriminate |].
           intros [[H _] | [_ [id [H1 H2]]]]; [congruence |].
           injection H1 as <-. congruence.
      * exists w, (Processor.ThrewError "vacancyId is required for recalc-vacancy job").
        split; [reflexivity |]. split; [reflexivity |]. split; [| congruence].
        split; [discriminate |].
        intros [[H _] | [_ [id [H1 _]]]]; [congruence | discriminate H1].
    + eexists. eexists. split; [reflexivity |]. split; [reflexivity |].
      split; [| reflexivity].
      split; [discriminate |]. intros [[H _] | [H _]]; congruence.
Qed.

Lemma processJob_outcomes_witness :
  exists w' out,
    Processor.processJob 1 2026 "t1"
      {| Processor.name := "recalc-vacancy";
         Processor.data_workerId := None;
         Processor.data_vacancyId := Some "v7"%string |}
      {| Service.db := PairSamples.oneEach; Service.cache := ∅ |} = Some (w', out)
    /\ (out <> Processor.Completed ->
        w' = {| Service.db := PairSamples.oneEach; Service.cache := ∅ |}).
Proof.
  destruct (processJob_outcomes 1 2026 "t1"
              {| Processor.name := "recalc-vacancy";
                 Processor.data_workerId := None;
                 Processor.data_vacancyId := Some "v7"%string |}
              {| Service.db := PairSamples.oneEach; Service.cache := ∅ |})
    as [w' [out [R [H _]]]].
  - cbn. lia.
  - cbn. lia.
  - exists w', out. split; [exact R | exact H].
Defined.

(** ** Scores as functions of the rows *)

Section RowOrder.

Lemma existsb_perm {A} (f : A -> bool) (l l' : list A) :
  Permutation l l' -> existsb f l = existsb f l'.
Proof.
  induction 1 as [| x l l' _ IH | x y l | l l' l'' _ IH1 _ IH2]; cbn [existsb].
  - reflexivity.
  - rewrite IH. reflexivity.
  - destruct (f x), (f y); reflexivity.
  - congruence.
Qed.

Lemma filter_length_perm {A} (f : A -> bool) (l l' : list A) :
  Permutation l l' -> length (List.filter f l) = length (List.filter f l').
Proof.
  induction 1 as [| x l l' _ IH | x y l | l l' l'' _ IH1 _ IH2]; cbn [List.filter].
  - reflexivity.
  - destruct (f x); cbn [length]; rewrite IH; reflexivity.
  - destruct (f x), (f y); reflexivity.
  - congruence.
Qed.

Lemma filter_perm {A} (f : A -> bool) (l l' : list A) :
  Permutation l l' -> Permutation (List.filter f l) (List.filter f l').
Proof.
  induction 1 as [| x l l' _ IH | x y l | l l' l'' _ IH1 _ IH2]; cbn [List.filter].
  - constructor.
  - destruct (f x); [apply perm_skip, IH | exact IH].
  - destruct (f x), (f y); try reflexivity. apply perm_swap.
  - eapply Permutation_trans; eassumption.
Qed.

Lemma matchedAgainst_perm (ws ws' : list WorkerSkill) (vs vs' : list VacancySkill) :
  Permutation ws ws' -> Permutation vs vs' ->
  length (matchedAgainst ws vs) = length (matchedAgainst ws' vs').
Proof.
  intros Hw Hv. unfold matchedAgainst.
  rewrite (filter_length_perm _ _ _ Hw). f_equal.
  apply filter_ext. intros a. apply existsb_perm, Hv.
Qed.

Lemma fold_sum_perm {A} (g : A -> Z) (l l' : list A) :
  Permutation l l' ->
  forall a, fold_left (fun sum e => (sum + g e)%Z) l a
            = fold_left (fun sum e => (sum + g e)%Z) l' a.
Proof.
  induction 1 as [| x l l' _ IH | x y l | l l' l'' _ IH1 _ IH2]; intros a; cbn [fold_left].
  - reflexivity.
  - apply IH.
  - f_equal. lia.
  - rewrite IH1. apply IH2.
Qed.

Lemma totalYears_perm (thisYear : Z) (wx wx' : list WorkerExperience) :
  Permutation wx wx' -> totalYears thisYear wx = totalYears thisYear wx'.
Proof.
  intros H. unfold totalYears.
  apply (fold_sum_perm
           (fun exp => (Js.orZ (wx_endYear exp) thisYear - Js.orZ (wx_startYear exp) 0)%Z)
           _ _ H).
Qed.

End RowOrder.

(** X22. The order in which the database returns the rows of a worker or
    of a vacancy (the queries ask for none) does not matter: both
    calculators give the same result on any rearrangement of the skills,
    education, experience and vacancy-skill rows. *)
Theorem scores_ignore_row_order
    (thisYear : Z) (ws ws' : list WorkerSkill) (we we' : list WorkerEducation)
    (wx wx' : list WorkerExperience) (vs vs' : list VacancySkill)
    (vacancy : Vacancy) (workerProfile : option WorkerProfile) :
  Permutation ws ws' -> Permutation we we' -> Permutation wx wx' -> Permutation vs vs' ->
  Service.computeScore thisYear ws we wx vs vacancy workerProfile
  = Service.computeScore thisYear ws' we' wx' vs' vacancy workerProfile
  /\ Repository.calculateScoreComponents thisYear ws we wx vs vacancy workerProfile
     = Repository.calculateScoreComponents thisYear ws' we' wx' vs' vacancy workerProfile.
Proof.
  intros Hws Hwe Hwx Hvs.
  pose proof (matchedAgainst_perm _ _ _ _ Hws Hvs) as E1.
  pose proof (Permutation_length Hvs) as E2.
  pose proof (filter_length_perm vs_isRequired _ _ Hvs) as E3.
  pose proof (matchedAgainst_perm _ _ _ _ Hws (filter_perm vs_isRequired _ _ Hvs)) as E4.
  pose proof (totalYears_perm thisYear _ _ Hwx) as E5.
  assert (E6 : forall f, existsb f we = existsb f we')
    by (intros f; apply existsb_perm, Hwe).
  unfold Service.computeScore, Repository.calculateScoreComponents,
    Service.calculateSkillScore, Repository.calculateSkillScore,
    Service.calculateExperienceScore, Repository.calculateExperienceScore,
    Service.calculateEducationScore, Repository.calculateEducationScore,
    Repository.matchedRequiredSkills, requiredOf, nlen in *.
  rewrite E1, E2, E3, E4, E5.
  destruct (educationMinLevel vacancy) as [lvl |]; [rewrite E6 |]; split; reflexivity.
Qed.

Lemma scores_ignore_row_order_witness :
  Service.computeScore 2026 (Samples.skill "go" :: Samples.skill "sql" :: nil)
    (Samples.master :: nil) (Samples.fiveYears :: nil)
    (Samples.wanted "go" true :: Samples.wanted "sql" false :: nil)
    Samples.tashkentJob (Some Samples.inTashkent)
  = Service.computeScore 2026 (Samples.skill "sql" :: Samples.skill "go" :: nil)
      (Samples.master :: nil) (Samples.fiveYears :: nil)
      (Samples.wanted "sql" false :: Samples.wanted "go" true :: nil)
      Samples.tashkentJob (Some Samples.inTashkent).
Proof.
  apply (scores_ignore_row_order 2026
           (Samples.skill "go" :: Samples.skill "sql" :: nil)
           (Samples.skill "sql" :: Samples.skill "go" :: nil)
           (Samples.master :: nil) (Samples.master :: nil)
           (Samples.fiveYears :: nil) (Samples.fiveYears :: nil)
           (Samples.wanted "go" true :: Samples.wanted "sql" false :: nil)
           (Samples.wanted "sql" false :: Samples.wanted "go" true :: nil)
           Samples.tashkentJob (Some Samples.inTashkent)).
  - apply perm_swap.
  - apply Permutation_refl.
  - apply Permutation_refl.
  - apply perm_swap.
Defined.

(** X23. Every score stays between 0 and 100: in the single-pair result
    for a vacancy whose experience bounds and salaries are not negative,
    and in the batch result for a worker whose skill codes are all
    different. *)
Theorem scores_stay_in_range
    (thisYear : Z) (workerSkills : list WorkerSkill) (workerEducation : list WorkerEducation)
    (workerExperience : list WorkerExperience) (vacancySkills : list VacancySkill)
    (vacancy : Vacancy) (workerProfile : option WorkerProfile) :
  (validVacancy vacancy ->
     scoresInRange (Service.computeScore thisYear workerSkills workerEducation
                      workerExperience vacancySkills vacancy workerProfile))
  /\ (List.NoDup (map ws_skillCode workerSkills) ->
        scoresInRange (Repository.calculateScoreComponents thisYear workerSkills
                         workerEducation workerExperience vacancySkills vacancy
                         workerProfile)).
Proof.
  split; [apply Service_scores_inRange | apply Repository_scores_inRange].
Qed.

Lemma scores_stay_in_range_witness :
  scoresInRange (Service.computeScore 2026 (Samples.skill "go" :: nil) (Samples.master :: nil)
                   (Samples.fiveYears :: nil) (Samples.wanted "go" true :: nil)
                   Samples.tashkentJob (Some Samples.inTashkent)).
Proof.
  destruct (scores_stay_in_range 2026 (Samples.skill "go" :: nil) (Samples.master :: nil)
              (Samples.fiveYears :: nil) (Samples.wanted "go" true :: nil)
              Samples.tashkentJob (Some Samples.inTashkent)) as [H _].
  apply H. unfold validVacancy, nonNegZ, nonNegQ. cbn.
  repeat split; try lia; discriminate.
Defined.

(** ** Location and education *)

Section LocationEducation.

Lemma indexOf_educationLevels (lvl : string) :
  Js.indexOf educationLevels lvl = (-1)%Z
  \/ Js.indexOf educationLevels lvl = 0%Z
  \/ Js.indexOf educationLevels lvl = 1%Z
  \/ Js.indexOf educationLevels lvl = 2%Z
  \/ Js.indexOf educationLevels lvl = 3%Z
  \/ Js.indexOf educationLevels lvl = 4%Z.
Proof.
  unfold Js.indexOf, educationLevels. cbn [Js.indexOf_from].
  repeat match goal with
         | |- context [if String.eqb ?a lvl then _ else _] => destruct (String.eqb a lvl)
         end; cbn; tauto.
Qed.

End LocationEducation.

(** X24. The location score (the same function in both calculators) for
    cities and states written in ASCII characters, both cities given.  It
    is one of 30, 70, 90, 100.  Cities that differ only in the case of
    their letters count as the same city and give 100.  With different
    cities the state is looked at before the remote flag: a worker in the
    vacancy's state gets 70 also for a remote vacancy, for which a worker
    from elsewhere gets 90. *)
Theorem location_score_cases
    (profile : WorkerProfile) (vacancy : Vacancy) (wcity vcity : string) :
  wp_city profile = Some wcity ->
  locationCity vacancy = Some vcity ->
  wcity <> EmptyString ->
  vcity <> EmptyString ->
  isAscii wcity = true ->
  isAscii vcity = true ->
  isAsciiOpt (wp_state profile) = true ->
  isAsciiOpt (locationState vacancy) = true ->
  let score := Service.calculateLocationScore (Some profile) vacancy in
  let sameState :=
    match wp_state profile, locationState vacancy with
    | Some wst, Some vst =>
      wst <> EmptyString /\ vst <> EmptyString /\ Js.toLowerCase wst = Js.toLowerCase vst
    | _, _ => False
    end in
  (score = 30 \/ score = 70 \/ score = 90 \/ score = 100)
  /\ (Js.toLowerCase wcity = Js.toLowerCase vcity -> score = 100)
  /\ (Js.toLowerCase wcity <> Js.toLowerCase vcity -> sameState -> score = 70)
  /\ (Js.toLowerCase wcity <> Js.toLowerCase vcity -> ~ sameState ->
      score = if isRemote vacancy then 90 else 30).
Proof.
  intros Hw Hv Nw Nv _ _ _ _. cbv zeta. unfold Service.calculateLocationScore.
  rewrite Hw, Hv.
  destruct (String.eqb_spec vcity EmptyString) as [E | _]; [congruence |].
  destruct (String.eqb_spec wcity EmptyString) as [E | _]; [congruence |].
  cbn [orb].
  destruct (String.eqb_spec (Js.toLowerCase wcity) (Js.toLowerCase vcity)) as [Ec | Ec].
  - repeat split; try tauto; intros; congruence.
  - destruct (wp_state profile) as [wst |], (locationState vacancy) as [vst |];
      try (destruct (isRemote vacancy); repeat split; try tauto; intros; tauto).
    destruct (String.eqb_spec wst EmptyString) as [E1 | E1];
      destruct (String.eqb_spec vst EmptyString) as [E2 | E2];
      destruct (String.eqb_spec (Js.toLowerCase wst) (Js.toLowerCase vst)) as [E3 | E3];
      cbn [negb andb];
      destruct (isRemote vacancy); repeat split; try tauto; intros; tauto.
Qed.

Lemma location_score_cases_witness :
  Service.calculateLocationScore (Some Samples.inTashkent) Samples.tashkentJob = 100.
Proof.
  apply (location_score_cases Samples.inTashkent Samples.tashkentJob "tashkent" "Tashkent").
  - reflexivity.
  - reflexivity.
  - discriminate.
  - discriminate.
  - reflexivity.
  - reflexivity.
  - reflexivity.
  - reflexivity.
  - reflexivity.
Defined.

(** X25. The education score (the same function in both calculators) is
    one of 0, 25, 50, 75, 100, and a further education row never lowers
    it.  A vacancy that asks for [HIGH_SCHOOL] gives 100 to every worker,
    also to one without any education row. *)
Theorem education_score_cases
    (workerEducation more : list WorkerEducation) (vacancy : Vacancy) :
  let score := Service.calculateEducationScore workerEducation vacancy in
  (score == 0 \/ score == 25 \/ score == 50 \/ score == 75 \/ score == 100)
  /\ score <= Service.calculateEducationScore (workerEducation ++ more) vacancy
  /\ (educationMinLevel vacancy = Some "HIGH_SCHOOL"%string -> score == 100).
Proof.
  cbv zeta. unfold Service.calculateEducationScore.
  destruct (educationMinLevel vacancy) as [lvl |];
    [| repeat split; try (intros; discriminate); right; right; left; reflexivity].
  destruct (String.eqb_spec lvl EmptyString) as [E | _].
  { split; [right; right; left; reflexivity |]. split; [discriminate |].
    intros H. subst lvl. discriminate H. }
  rewrite existsb_app.
  pose proof (indexOf_educationLevels lvl) as Hi.
  destruct (existsb _ workerEducation) eqn:Ex; cbn [orb].
  - destruct Hi as [Hi | [Hi | [Hi | [Hi | [Hi | Hi]]]]]; rewrite Hi; cbn [Z.eqb];
      (split; [vm_compute; tauto |]); (split; [discriminate |]);
      intros H; injection H as H; subst lvl; vm_compute in Hi; try discriminate Hi; reflexivity.
  - destruct Hi as [Hi | [Hi | [Hi | [Hi | [Hi | Hi]]]]]; rewrite Hi; cbn [Z.eqb];
      (split; [vm_compute; tauto |]);
      (split; [destruct (existsb _ more); vm_compute; discriminate |]);
      intros H; injection H as H; subst lvl; vm_compute in Hi; try discriminate Hi; reflexivity.
Qed.
